(** * Ledger engine of blockchain-settlement-system: a shallow embedding

    The development follows the TypeScript sources:
    - [src/crypto/Hash.ts]        (module [Hash])
    - [src/crypto/Signature.ts]   (module [Signature])
    - [src/core/Transaction.ts]   (module [Transaction])
    - [src/core/Block.ts]         (module [Block])
    - [src/core/Blockchain.ts]    (module [Blockchain])

    Conventions.
    - A JavaScript [number] that holds an amount, a fee or a time average is a
      rational ([Q]); heights, timestamps and output indices are integers
      ([Z]); nonces and difficulties, which the code only ever uses as
      counts, are [nat].
    - The two external libraries (node's [crypto] and [elliptic]) are the
      fields of the class [Crypto]; every definition and every general
      theorem is parametric in it.
    - [Date.now()] and the storage collaborator's answers are explicit
      arguments.
    - The proof-of-work search takes a fuel; [None] means the search did
      not finish within it. *)

From Stdlib Require Import ZArith QArith Qpower Ascii String Lia Lqa.
From stdpp Require Import base option list strings pretty gmap.
From Equations Require Import Equations.
From Equations.Prop Require Import Logic.

#[local] Set Warnings "-register-all".

Local Open Scope Z_scope.

(** ** JavaScript values and JSON text *)

Module JSON.

(** The values that reach [JSON.stringify] in this code base. *)
Inductive value : Type :=
| Undefined
| Null
| Num (q : Q)
| Str (s : string)
| Arr (items : list value)
| Obj (props : list (string * value)).

Definition int (z : Z) : value := Num (inject_Z z).

Definition isUndefined (v : value) : bool :=
  match v with Undefined => true | _ => false end.

(** [String.prototype.repeat] for a count that is a natural number. *)
Fixpoint repeat (s : string) (n : nat) : string :=
  match n with
  | O => ""
  | S k => s +:+ repeat s k
  end.

Fixpoint join (sep : string) (l : list string) : string :=
  match l with
  | [] => ""
  | [x] => x
  | x :: r => x +:+ sep +:+ join sep r
  end.

(** Decimal digits of the fractional part [r/d], at most [fuel] of them. *)
Fixpoint fraction_digits (fuel : nat) (r d : Z) : string :=
  match fuel with
  | O => ""
  | S k =>
      if r =? 0 then ""
      else pretty (10 * r / d) +:+ fraction_digits k (10 * r mod d) d
  end.

(** [Number::toString] on a rational: the integer part in decimal and,
    when there is a fractional part, its first seventeen digits. *)
Definition Number_toString (q : Q) : string :=
  let q := Qred q in
  let n := Qnum q in
  let d := Z.pos (Qden q) in
  let a := Z.abs n in
  (if n <? 0 then "-" else "")
    +:+ pretty (a / d)
    +:+ (if a mod d =? 0 then "" else "." +:+ fraction_digits 17 (a mod d) d).

Definition hex_digit (n : N) : ascii :=
  match n with
  | 0 => "0" | 1 => "1" | 2 => "2" | 3 => "3" | 4 => "4" | 5 => "5"
  | 6 => "6" | 7 => "7" | 8 => "8" | 9 => "9" | 10 => "a" | 11 => "b"
  | 12 => "c" | 13 => "d" | 14 => "e" | _ => "f"
  end%N%char.

Definition dquote : ascii := ascii_of_nat 34.

(** [QuoteJSONString]'s treatment of one character. *)
Definition escape_char (c : ascii) : string :=
  let n := N_of_ascii c in
  if (n =? 34)%N then String "\" (String dquote "")
  else if (n =? 92)%N then "\\"
  else if (n =? 8)%N then "\b"
  else if (n =? 9)%N then "\t"
  else if (n =? 10)%N then "\n"
  else if (n =? 12)%N then "\f"
  else if (n =? 13)%N then "\r"
  else if (n <? 32)%N then
    "\u00" +:+ String (hex_digit (n / 16)) (String (hex_digit (n mod 16)) "")
  else String c "".

Fixpoint escape (s : string) : string :=
  match s with
  | EmptyString => ""
  | String c r => escape_char c +:+ escape r
  end.

Definition quote (s : string) : string :=
  String dquote (escape s) +:+ String dquote "".

(** [JSON.stringify(v, null, gap)] for [gap] spaces of indentation
    ([gap = 0] is the compact form), at nesting depth [depth].  Properties
    whose value is [undefined] are left out of objects; [undefined] inside
    an array is written [null]. *)
Fixpoint stringify_at (gap depth : nat) (v : value) {struct v} : string :=
  let inner := repeat " " (gap * S depth) in
  let outer := repeat " " (gap * depth) in
  let wrap (open close : string) (parts : list string) : string :=
    match parts, gap with
    | [], _ => open +:+ close
    | _, O => open +:+ join "," parts +:+ close
    | _, S _ =>
        open +:+ String "010" inner
          +:+ join ("," +:+ String "010" inner) parts
          +:+ String "010" outer +:+ close
    end in
  match v with
  | Undefined => "null"
  | Null => "null"
  | Num q => Number_toString q
  | Str s => quote s
  | Arr items =>
      wrap "[" "]"
        ((fix elements (l : list value) : list string :=
            match l with
            | [] => []
            | x :: r => stringify_at gap (S depth) x :: elements r
            end) items)
  | Obj props =>
      wrap "{" "}"
        ((fix members (l : list (string * value)) : list string :=
            match l with
            | [] => []
            | (k, x) :: r =>
                if isUndefined x then members r
                else (quote k +:+ (if gap is O then ":" else ": ")
                        +:+ stringify_at gap (S depth) x) :: members r
            end) props)
  end.

Definition stringify (v : value) : string := stringify_at 0 0 v.
Definition stringify_indent (gap : nat) (v : value) : string := stringify_at gap 0 v.

(** [JSON.parse(JSON.stringify(v))]: the document that the text denotes.
    Text is identified with the document it denotes, so the only effect
    of a round trip through text is the loss of [undefined]. *)
Fixpoint reparse (v : value) : value :=
  match v with
  | Undefined => Null
  | Arr items =>
      Arr ((fix elements (l : list value) : list value :=
              match l with
              | [] => []
              | x :: r => reparse x :: elements r
              end) items)
  | Obj props =>
      Obj ((fix members (l : list (string * value)) : list (string * value) :=
              match l with
              | [] => []
              | (k, x) :: r =>
                  if isUndefined x then members r else (k, reparse x) :: members r
              end) props)
  | _ => v
  end.

(** Property access [o.k] (the first binding wins; a missing property, or
    a property of a non-object, reads [undefined]). *)
Fixpoint assoc (k : string) (props : list (string * value)) : value :=
  match props with
  | [] => Undefined
  | (k', v) :: r => if String.eqb k k' then v else assoc k r
  end.

Definition get (k : string) (v : value) : value :=
  match v with
  | Obj props => assoc k props
  | _ => Undefined
  end.

(** Reading a parsed document back into typed fields.  The TypeScript
    code performs no check; a document of another shape yields [None]
    here, where the code would build an ill-typed object or throw. *)
Definition asStr (v : value) : option string :=
  match v with Str s => Some s | _ => None end.
Definition asNum (v : value) : option Q :=
  match v with Num q => Some q | _ => None end.
Definition asInt (v : value) : option Z :=
  match v with
  | Num q => if Pos.eqb (Qden (Qred q)) 1 then Some (Qnum (Qred q)) else None
  | _ => None
  end.
Definition asNat (v : value) : option nat :=
  match asInt v with
  | Some z => if z <? 0 then None else Some (Z.to_nat z)
  | None => None
  end.
Definition asArr (v : value) : option (list value) :=
  match v with Arr items => Some items | _ => None end.
(** An optional string property: absent, or a string. *)
Definition asOptStr (v : value) : option (option string) :=
  match v with
  | Undefined => Some None
  | Str s => Some (Some s)
  | _ => None
  end.

End JSON.

(** ** The external cryptographic libraries *)

Class Crypto : Type := {
  (** node's [crypto.createHash('sha256').update(data).digest('hex')] *)
  sha256_hex : string -> string;
  (** elliptic's [keyFromPrivate(k, 'hex').getPublic('hex')] *)
  ec_getPublic : string -> string;
  (** elliptic's [keyFromPrivate(k, 'hex').sign(hash).toDER('hex')] *)
  ec_sign : string -> string -> string;
  (** elliptic's [keyFromPublic(pub, 'hex').verify(hash, signature)];
      [None] when the library throws (malformed key or signature) *)
  ec_verify : string -> string -> string -> option bool
}.

(** ** [Hash] *)

Module Hash.
Section WithCrypto.
Context `{Crypto}.

Definition sha256 (data : string) : string := sha256_hex data.

(** [level[i]]; every read in [calculateMerkleRoot] is in range. *)
Definition at_index (level : list string) (i : nat) : string :=
  default "" (level !! i).

(** The body of the [while] loop of [calculateMerkleRoot]: the [for] loop
    over [i = 0, 2, 4, ...] that fills [nextLevel]. *)
Equations? nextLevel_from (level : list string) (i : nat) (nextLevel : list string)
  : list string by wf (length level - i)%nat lt :=
  nextLevel_from level i nextLevel with inspect (i <? length level)%nat => {
    | exist _ true inside with (i + 1 <? length level)%nat => {
        | true =>
            (* Pair exists *)
            let combined := at_index level i +:+ at_index level (i + 1) in
            nextLevel_from level (i + 2) (nextLevel ++ [sha256 combined]);
        | false =>
            (* Odd number of elements, duplicate the last one *)
            let combined := at_index level i +:+ at_index level i in
            nextLevel_from level (i + 2) (nextLevel ++ [sha256 combined]) };
    | exist _ false outside => nextLevel }.
Proof.
  all: apply Nat.ltb_lt in inside; lia.
Qed.

Lemma half_step (n i : nat) :
  (i < n)%nat -> ((n - i + 1) / 2 = 1 + (n - (i + 2) + 1) / 2)%nat.
Proof.
  intros Hlt. destruct (decide (n - i = 1)%nat) as [Hone | Hmore].
  - replace (n - i + 1)%nat with 2%nat by lia.
    replace (n - (i + 2) + 1)%nat with 1%nat by lia. reflexivity.
  - replace (n - i + 1)%nat with ((n - (i + 2) + 1) + 1 * 2)%nat by lia.
    rewrite Nat.div_add by lia. lia.
Qed.

(** One pass of the [for] loop adds a node for every two of the level. *)
Lemma nextLevel_from_length (level : list string) (i : nat) (nextLevel : list string) :
  length (nextLevel_from level i nextLevel)
  = (length nextLevel + (length level - i + 1) / 2)%nat.
Proof.
  funelim (nextLevel_from level i nextLevel).
  - pose proof (proj1 (Nat.ltb_ge _ _) outside) as Hout.
    replace (length level - i + 1)%nat with 1%nat by lia. cbn. lia.
  - match goal with IH : length _ = _ |- _ => rewrite IH end.
    rewrite length_app. cbn [length].
    pose proof (proj1 (Nat.ltb_lt _ _) inside) as Hin.
    rewrite (half_step (length level) i Hin). lia.
  - match goal with IH : length _ = _ |- _ => rewrite IH end.
    rewrite length_app. cbn [length].
    pose proof (proj1 (Nat.ltb_lt _ _) inside) as Hin.
    rewrite (half_step (length level) i Hin). lia.
Qed.

(** [while (level.length > 1) { ...; level = nextLevel }] *)
Equations? levels_loop (level : list string) : list string by wf (length level) lt :=
  levels_loop level with inspect (1 <? length level)%nat => {
    | exist _ true more => levels_loop (nextLevel_from level 0 []);
    | exist _ false single => level }.
Proof.
  apply Nat.ltb_lt in more. rewrite nextLevel_from_length. cbn [length].
  rewrite Nat.sub_0_r.
  assert (2 * ((length level + 1) / 2) <= length level + 1)%nat
    by (apply Nat.Div0.mul_div_le).
  lia.
Qed.

(** [Hash.calculateMerkleRoot(transactions)] *)
Definition calculateMerkleRoot (transactions : list string) : string :=
  if (length transactions =? 0)%nat then sha256 ""
  else if (length transactions =? 1)%nat then sha256 (at_index transactions 0)
  else
    let level := map sha256 transactions in
    at_index (levels_loop level) 0.

(** The Merkle root as the specification words it: the tree is built
    bottom-up; a level with an odd number of nodes first gets its last node
    a second time, then neighbours are concatenated and hashed, until one
    node is left. *)
Definition duplicateLast (level : list string) : list string :=
  if Nat.odd (length level) then level ++ [List.last level ""] else level.

Fixpoint hashPairs (level : list string) : list string :=
  match level with
  | node :: sibling :: rest => sha256 (node +:+ sibling) :: hashPairs rest
  | _ => []
  end.

Lemma hashPairs_length (level : list string) :
  length (hashPairs level) = (length level / 2)%nat.
Proof.
  enough (Hboth : length (hashPairs level) = (length level / 2)%nat
                  /\ forall a, length (hashPairs (a :: level)) = (length (a :: level) / 2)%nat)
    by exact (proj1 Hboth).
  induction level as [| b rest [IH1 IH2]]; split; try reflexivity.
  - apply IH2.
  - intros a. cbn [hashPairs length]. rewrite IH1.
    replace (S (S (length rest))) with (length rest + 1 * 2)%nat by lia.
    rewrite Nat.div_add by lia. lia.
Qed.

Equations? reduceLevels (level : list string) : string by wf (length level) lt :=
  reduceLevels [] := "";
  reduceLevels [root] := root;
  reduceLevels (a :: b :: rest) := reduceLevels (hashPairs (duplicateLast (a :: b :: rest))).
Proof.
  rewrite hashPairs_length. unfold duplicateLast.
  destruct (Nat.odd _) eqn:Hodd.
  - rewrite length_app. cbn [length].
    assert (2 * ((S (S (length rest)) + 1) / 2) <= S (S (length rest)) + 1)%nat
      by (apply Nat.Div0.mul_div_le).
    lia.
  - cbn [length].
    assert (2 * (S (S (length rest)) / 2) <= S (S (length rest)))%nat
      by (apply Nat.Div0.mul_div_le).
    lia.
Qed.

Definition merkleRoot_reference (ids : list string) : string :=
  match ids with
  | [] => sha256 ""
  | _ => reduceLevels (map sha256 ids)
  end.

(** [Hash.meetsDifficulty(hash, difficulty)] *)
Definition meetsDifficulty (hash : string) (difficulty : nat) : bool :=
  let target := JSON.repeat "0" difficulty in
  String.eqb (substring 0 difficulty hash) target.

(** [Hash.adjustDifficulty(currentDifficulty, timeExpected, timeActual)] *)
Definition adjustDifficulty (currentDifficulty : nat) (timeExpected timeActual : Q) : nat :=
  let ratio := (timeActual / timeExpected)%Q in
  (* Limit adjustment to prevent dramatic changes *)
  if Qlt_le_dec 4 ratio then Nat.max 1 (currentDifficulty - 1)
  else if Qlt_le_dec ratio (1 # 4) then (currentDifficulty + 1)%nat
  else currentDifficulty.

End WithCrypto.
End Hash.

(** ** [Signature] *)

Module Signature.
Section WithCrypto.
Context `{Crypto}.

(** [Signature.getPublicKey(privateKey)] *)
Definition getPublicKey (privateKey : string) : string := ec_getPublic privateKey.

(** [Signature.sign(data, privateKey)] *)
Definition sign (data privateKey : string) : string :=
  let hash := Hash.sha256 data in
  ec_sign hash privateKey.

(** [Signature.verify(data, signature, publicKey)]: the [catch] turns a
    throwing library call into [false]. *)
Definition verify (data signature publicKey : string) : bool :=
  let hash := Hash.sha256 data in
  match ec_verify hash signature publicKey with
  | Some ok => ok
  | None => false
  end.

(** The loop of [verifyMultiSig]: [i] runs over the positions that both
    arrays have, and [validSigs] counts the signatures that verify against
    the key at the same position. *)
Fixpoint countValidSigs (data : string) (signatures publicKeys : list string)
    (validSigs : nat) : nat :=
  match signatures, publicKeys with
  | signature :: signatures', publicKey :: publicKeys' =>
      countValidSigs data signatures' publicKeys'
        (if verify data signature publicKey then S validSigs else validSigs)
  | _, _ => validSigs
  end.

(** [Signature.verifyMultiSig(data, signatures, publicKeys, requiredSigs)] *)
Definition verifyMultiSig (data : string) (signatures publicKeys : list string)
    (requiredSigs : Z) : bool :=
  if Z.of_nat (length signatures) <? requiredSigs then false
  else requiredSigs <=? Z.of_nat (countValidSigs data signatures publicKeys 0).

End WithCrypto.
End Signature.

(** ** JavaScript numbers and exceptions *)

Module Number.

(** [a < b] and [a <= b] on numbers. *)
Definition ltb (a b : Q) : bool := if Qlt_le_dec a b then true else false.
Definition leb (a b : Q) : bool := if Qlt_le_dec b a then false else true.

(** [array.reduce((sum, x) => sum + f(x), 0)] *)
Definition sum {A : Type} (f : A -> Q) (l : list A) : Q :=
  fold_left (fun sum x => (sum + f x)%Q) l 0%Q.

End Number.

(** What a [throw] carries: [new Error(message)], or the [TypeError] of
    the runtime on a property read from [undefined]. *)
Inductive exception : Type :=
| Error (message : string)
| TypeError (message : string).

(** ** [Transaction] *)

Module TransactionInput.
Record t : Type := mk {
  txId : string;           (* Transaction ID of the referenced transaction *)
  outputIndex : Z;         (* Index of the output in the referenced transaction *)
  signature : string;      (* Digital signature proving ownership *)
  publicKey : string;      (* Public key of the sender *)
  amount : Q;              (* Amount being spent *)
  scriptSig : option string
}.

Definition with_signature (s : string) (i : t) : t :=
  mk (txId i) (outputIndex i) s (publicKey i) (amount i) (scriptSig i).

Definition optional (o : option string) : JSON.value :=
  match o with Some s => JSON.Str s | None => JSON.Undefined end.

(** The object as [JSON.stringify] sees it. *)
Definition toValue (i : t) : JSON.value :=
  JSON.Obj [("txId", JSON.Str (txId i)); ("outputIndex", JSON.int (outputIndex i));
            ("signature", JSON.Str (signature i)); ("publicKey", JSON.Str (publicKey i));
            ("amount", JSON.Num (amount i)); ("scriptSig", optional (scriptSig i))].

(** A parsed input object read back. *)
Definition fromValue (v : JSON.value) : option t :=
  a ← JSON.asStr (JSON.get "txId" v);
  b ← JSON.asInt (JSON.get "outputIndex" v);
  c ← JSON.asStr (JSON.get "signature" v);
  d ← JSON.asStr (JSON.get "publicKey" v);
  e ← JSON.asNum (JSON.get "amount" v);
  f ← JSON.asOptStr (JSON.get "scriptSig" v);
  Some (mk a b c d e f).
End TransactionInput.

Module TransactionOutput.
Record t : Type := mk {
  address : string;        (* Recipient's address *)
  amount : Q;              (* Amount being sent *)
  scriptPubKey : option string
}.

Definition toValue (o : t) : JSON.value :=
  JSON.Obj [("address", JSON.Str (address o)); ("amount", JSON.Num (amount o));
            ("scriptPubKey", TransactionInput.optional (scriptPubKey o))].

(** A parsed output object read back. *)
Definition fromValue (v : JSON.value) : option t :=
  a ← JSON.asStr (JSON.get "address" v);
  b ← JSON.asNum (JSON.get "amount" v);
  c ← JSON.asOptStr (JSON.get "scriptPubKey" v);
  Some (mk a b c).
End TransactionOutput.

Module Transaction.

Record t : Type := mk {
  id : string;
  timestamp : Z;
  inputs : list TransactionInput.t;
  outputs : list TransactionOutput.t;
  fee : Q;
  version : Z;
  lockTime : Z;
  data : option string
}.

Definition with_id (x : string) (tx : t) : t :=
  mk x (timestamp tx) (inputs tx) (outputs tx) (fee tx) (version tx) (lockTime tx) (data tx).
Definition with_inputs (x : list TransactionInput.t) (tx : t) : t :=
  mk (id tx) (timestamp tx) x (outputs tx) (fee tx) (version tx) (lockTime tx) (data tx).
Definition with_fee (x : Q) (tx : t) : t :=
  mk (id tx) (timestamp tx) (inputs tx) (outputs tx) x (version tx) (lockTime tx) (data tx).
Definition with_timestamp (x : Z) (tx : t) : t :=
  mk (id tx) x (inputs tx) (outputs tx) (fee tx) (version tx) (lockTime tx) (data tx).
Definition with_version (x : Z) (tx : t) : t :=
  mk (id tx) (timestamp tx) (inputs tx) (outputs tx) (fee tx) x (lockTime tx) (data tx).
Definition with_lockTime (x : Z) (tx : t) : t :=
  mk (id tx) (timestamp tx) (inputs tx) (outputs tx) (fee tx) (version tx) x (data tx).
Definition with_data (x : option string) (tx : t) : t :=
  mk (id tx) (timestamp tx) (inputs tx) (outputs tx) (fee tx) (version tx) (lockTime tx) x.

(** The all-zero transaction id of a coinbase input: ['0'.repeat(64)]. *)
Definition zeroId : string := JSON.repeat "0" 64.

(** [isCoinbase()] *)
Definition isCoinbase (tx : t) : bool :=
  match inputs tx with
  | [input] =>
      String.eqb (TransactionInput.txId input) zeroId
      && (TransactionInput.outputIndex input =? -1)
  | _ => false
  end.

(** [calculateFee()]: the value it returns and stores in [this.fee]. *)
Definition calculateFee (tx : t) : Q :=
  let inputTotal := Number.sum TransactionInput.amount (inputs tx) in
  let outputTotal := Number.sum TransactionOutput.amount (outputs tx) in
  (inputTotal - outputTotal)%Q.

(** The loop [for (const output of this.outputs) if (output.amount <= 0) return false]. *)
Definition outputsPositive (tx : t) : bool :=
  forallb (fun output => negb (Number.leb (TransactionOutput.amount output) 0)) (outputs tx).

(** The object handed to [JSON.stringify] by [toJSON()]. *)
Definition toValue (tx : t) : JSON.value :=
  JSON.Obj [("id", JSON.Str (id tx)); ("timestamp", JSON.int (timestamp tx));
            ("inputs", JSON.Arr (map TransactionInput.toValue (inputs tx)));
            ("outputs", JSON.Arr (map TransactionOutput.toValue (outputs tx)));
            ("fee", JSON.Num (fee tx)); ("version", JSON.int (version tx));
            ("lockTime", JSON.int (lockTime tx));
            ("data", TransactionInput.optional (data tx))].

(** [toJSON()] *)
Definition toJSON (tx : t) : string := JSON.stringify (toValue tx).

(** [getSize()]: [Buffer.byteLength(this.toJSON(), 'utf8')] *)
Definition getSize (tx : t) : Z := Z.of_nat (String.length (toJSON tx)).

Section WithCrypto.
Context `{Crypto}.

(** The payload of [calculateHash()]: signatures are not part of it. *)
Definition txData (tx : t) : JSON.value :=
  JSON.Obj [("timestamp", JSON.int (timestamp tx));
            ("inputs", JSON.Arr (map (fun input =>
               JSON.Obj [("txId", JSON.Str (TransactionInput.txId input));
                         ("outputIndex", JSON.int (TransactionInput.outputIndex input));
                         ("amount", JSON.Num (TransactionInput.amount input));
                         ("publicKey", JSON.Str (TransactionInput.publicKey input))])
               (inputs tx)));
            ("outputs", JSON.Arr (map TransactionOutput.toValue (outputs tx)));
            ("version", JSON.int (version tx));
            ("lockTime", JSON.int (lockTime tx));
            ("data", JSON.Str (default "" (data tx)))].

(** [calculateHash()] *)
Definition calculateHash (tx : t) : string :=
  Hash.sha256 (JSON.stringify (txData tx)).

(** [new Transaction(inputs, outputs, data)], the clock reading [now]. *)
Definition new (now : Z) (inputs : list TransactionInput.t)
    (outputs : list TransactionOutput.t) (data : option string) : t :=
  let tx := mk "" now inputs outputs 0%Q 1 0 data in
  with_id (calculateHash tx) tx.

(** The data that is signed for one input. *)
Definition signatureData (tx : t) (input : TransactionInput.t) : JSON.value :=
  JSON.Obj [("txId", JSON.Str (TransactionInput.txId input));
            ("outputIndex", JSON.int (TransactionInput.outputIndex input));
            ("amount", JSON.Num (TransactionInput.amount input));
            ("timestamp", JSON.int (timestamp tx))].

(** [signTransaction(privateKey, inputIndex)]: the exception thrown, or the
    transaction after the call.  A negative index passes the bounds test
    and reads [undefined] from the array. *)
Definition signTransaction (privateKey : string) (inputIndex : Z) (tx : t)
  : exception + t :=
  if Z.of_nat (length (inputs tx)) <=? inputIndex then
    inl (Error "Input index out of bounds")
  else
    match (if inputIndex <? 0 then None else inputs tx !! Z.to_nat inputIndex) with
    | None => inl (TypeError "Cannot read properties of undefined (reading 'publicKey')")
    | Some input =>
        let publicKey := Signature.getPublicKey privateKey in
        if negb (String.eqb (TransactionInput.publicKey input) publicKey) then
          inl (Error "Private key does not match input public key")
        else
          let signed :=
            TransactionInput.with_signature
              (Signature.sign (JSON.stringify (signatureData tx input)) privateKey) input in
          inr (with_inputs (<[Z.to_nat inputIndex := signed]> (inputs tx)) tx)
    end.

(** One iteration of the loop of [verifySignatures()]. *)
Definition inputVerifies (tx : t) (input : TransactionInput.t) : bool :=
  if String.eqb (TransactionInput.signature input) ""
     || String.eqb (TransactionInput.publicKey input) "" then false
  else Signature.verify (JSON.stringify (signatureData tx input))
         (TransactionInput.signature input) (TransactionInput.publicKey input).

(** [verifySignatures()] *)
Definition verifySignatures (tx : t) : bool := forallb (inputVerifies tx) (inputs tx).

(** [isValid()]: the boolean returned and the receiver after the call
    ([calculateFee()] stores the fee when control reaches it). *)
Definition isValid_run (tx : t) : bool * t :=
  (* Basic validation *)
  if (length (inputs tx) =? 0)%nat && (length (outputs tx) =? 0)%nat then (false, tx)
  (* Special validation for coinbase transactions *)
  else if isCoinbase tx then (outputsPositive tx, tx)
  (* Verify signatures for regular transactions *)
  else if negb (verifySignatures tx) then (false, tx)
  (* Check amounts are positive *)
  else if negb (outputsPositive tx) then (false, tx)
  (* Calculate and validate fee *)
  else
    let tx' := with_fee (calculateFee tx) tx in
    if Number.ltb (fee tx') 0 then (false, tx') else (true, tx').

Definition isValid (tx : t) : bool := fst (isValid_run tx).
Definition afterIsValid (tx : t) : t := snd (isValid_run tx).

(** [Transaction.createCoinbase(minerAddress, reward, blockHeight)] *)
Definition createCoinbase (now : Z) (minerAddress : string) (reward : Q) (blockHeight : Z) : t :=
  let coinbaseInput := TransactionInput.mk zeroId (-1) "" "" reward None in
  let coinbaseOutput := TransactionOutput.mk minerAddress reward None in
  let tx := new now [coinbaseInput] [coinbaseOutput] None in
  let tx := with_data (Some ("Coinbase for block " +:+ pretty blockHeight)) tx in
  with_id (calculateHash tx) tx.

(** [Transaction.fromJSON(json)], on the document [data = JSON.parse(json)]. *)
Definition fromJSON (now : Z) (data : JSON.value) : option t :=
  ins ← JSON.asArr (JSON.get "inputs" data) ≫= mapM TransactionInput.fromValue;
  outs ← JSON.asArr (JSON.get "outputs" data) ≫= mapM TransactionOutput.fromValue;
  payload ← JSON.asOptStr (JSON.get "data" data);
  let tx := new now ins outs payload in
  i ← JSON.asStr (JSON.get "id" data);
  ts ← JSON.asInt (JSON.get "timestamp" data);
  f ← JSON.asNum (JSON.get "fee" data);
  v ← JSON.asInt (JSON.get "version" data);
  lt ← JSON.asInt (JSON.get "lockTime" data);
  Some (with_lockTime lt (with_version v (with_fee f (with_timestamp ts (with_id i tx))))).

(** [clone()]: [Transaction.fromJSON(this.toJSON())] *)
Definition clone (now : Z) (tx : t) : option t :=
  fromJSON now (JSON.reparse (toValue tx)).

(** The loop of [createTransaction] that selects UTXOs to cover the
    required amount: it stops at the first one with which the total
    reaches it. *)
Fixpoint selectInputs (requiredAmount : Q) (utxos : list TransactionInput.t)
    (totalInput : Q) (selectedInputs : list TransactionInput.t)
  : Q * list TransactionInput.t :=
  match utxos with
  | [] => (totalInput, selectedInputs)
  | utxo :: rest =>
      let selectedInputs := selectedInputs ++ [utxo] in
      let totalInput := (totalInput + TransactionInput.amount utxo)%Q in
      if Number.leb requiredAmount totalInput then (totalInput, selectedInputs)
      else selectInputs requiredAmount rest totalInput selectedInputs
  end.

(** The loop [for (let i = 0; i < selectedInputs.length; i++)
    transaction.signTransaction(privateKey, i)], from index [i] on, for
    [count] more inputs. *)
Fixpoint signInputs (privateKey : string) (count i : nat) (transaction : t)
  : exception + t :=
  match count with
  | O => inr transaction
  | S count' =>
      match signTransaction privateKey (Z.of_nat i) transaction with
      | inl e => inl e
      | inr transaction => signInputs privateKey count' (S i) transaction
      end
  end.

(** [Transaction.createTransaction(fromAddress, toAddress, amount, utxos,
    privateKey)]: the exception thrown, or the transaction returned. *)
Definition createTransaction (now : Z) (fromAddress toAddress : string) (amount : Q)
    (utxos : list TransactionInput.t) (privateKey : string) : exception + t :=
  (* Select UTXOs to cover the amount + fee *)
  let estimatedFee := (1 # 1000)%Q in
  let requiredAmount := (amount + estimatedFee)%Q in
  let (totalInput, selectedInputs) := selectInputs requiredAmount utxos 0%Q [] in
  if Number.ltb totalInput requiredAmount then inl (Error "Insufficient funds")
  else
    let outputs := [TransactionOutput.mk toAddress amount None] in
    (* Add change output if necessary *)
    let change := (totalInput - amount - estimatedFee)%Q in
    let outputs :=
      if Number.ltb 0 change
      then outputs ++ [TransactionOutput.mk fromAddress change None]
      else outputs in
    let transaction := new now selectedInputs outputs None in
    (* Sign all inputs *)
    match signInputs privateKey (length selectedInputs) 0 transaction with
    | inl e => inl e
    | inr transaction =>
        let transaction := with_fee (calculateFee transaction) transaction in
        inr (with_id (calculateHash transaction) transaction)
    end.

End WithCrypto.
End Transaction.

(** *** Input objects by reference

    [this.inputs] is an array of references: the objects it names live in
    a store, and one object may be named twice, or by several
    transactions.  [signTransaction] is the one method that writes to an
    input object, so it is also given over an explicit store. *)

Module Refs.

(** The transaction at a store: [proto] with the objects that [refs] names
    as its inputs. *)
Definition valueAt (store : gmap nat TransactionInput.t) (refs : list nat)
    (proto : Transaction.t) : Transaction.t :=
  Transaction.with_inputs (omap (fun r => store !! r) refs) proto.

Section WithCrypto.
Context `{Crypto}.

(** [signTransaction(privateKey, inputIndex)] on a transaction whose
    [inputs] array is [refs]: the exception thrown, or the store after the
    assignment [input.signature = ...]. *)
Definition signTransaction (privateKey : string) (inputIndex : Z) (refs : list nat)
    (proto : Transaction.t) (store : gmap nat TransactionInput.t)
  : exception + gmap nat TransactionInput.t :=
  if Z.of_nat (length refs) <=? inputIndex then
    inl (Error "Input index out of bounds")
  else
    match (if inputIndex <? 0 then None else refs !! Z.to_nat inputIndex) with
    | None => inl (TypeError "Cannot read properties of undefined (reading 'publicKey')")
    | Some r =>
        match store !! r with
        | None => inl (TypeError "Cannot read properties of undefined (reading 'publicKey')")
        | Some input =>
            let publicKey := Signature.getPublicKey privateKey in
            if negb (String.eqb (TransactionInput.publicKey input) publicKey) then
              inl (Error "Private key does not match input public key")
            else
              let signature :=
                Signature.sign (JSON.stringify (Transaction.signatureData proto input))
                  privateKey in
              inr (<[r := TransactionInput.with_signature signature input]> store)
        end
    end.

End WithCrypto.
End Refs.

(** ** [Block] *)

Module BlockHeader.
Record t : Type := mk {
  version : Z;
  previousHash : string;
  merkleRoot : string;
  timestamp : Z;
  difficulty : nat;
  nonce : nat;
  height : Z
}.

Definition with_merkleRoot (x : string) (h : t) : t :=
  mk (version h) (previousHash h) x (timestamp h) (difficulty h) (nonce h) (height h).
Definition with_timestamp (x : Z) (h : t) : t :=
  mk (version h) (previousHash h) (merkleRoot h) x (difficulty h) (nonce h) (height h).
Definition with_nonce (x : nat) (h : t) : t :=
  mk (version h) (previousHash h) (merkleRoot h) (timestamp h) (difficulty h) x (height h).

Definition toValue (h : t) : JSON.value :=
  JSON.Obj [("version", JSON.int (version h));
            ("previousHash", JSON.Str (previousHash h));
            ("merkleRoot", JSON.Str (merkleRoot h));
            ("timestamp", JSON.int (timestamp h));
            ("difficulty", JSON.int (Z.of_nat (difficulty h)));
            ("nonce", JSON.int (Z.of_nat (nonce h)));
            ("height", JSON.int (height h))].

Definition fromValue (v : JSON.value) : option t :=
  a ← JSON.asInt (JSON.get "version" v);
  b ← JSON.asStr (JSON.get "previousHash" v);
  c ← JSON.asStr (JSON.get "merkleRoot" v);
  d ← JSON.asInt (JSON.get "timestamp" v);
  e ← JSON.asNat (JSON.get "difficulty" v);
  f ← JSON.asNat (JSON.get "nonce" v);
  g ← JSON.asInt (JSON.get "height" v);
  Some (mk a b c d e f g).
End BlockHeader.

Module Block.

Record t : Type := mk {
  header : BlockHeader.t;
  transactions : list Transaction.t;
  hash : string;
  size : Z
}.

Definition with_header (x : BlockHeader.t) (b : t) : t :=
  mk x (transactions b) (hash b) (size b).
Definition with_transactions (x : list Transaction.t) (b : t) : t :=
  mk (header b) x (hash b) (size b).
Definition with_hash (x : string) (b : t) : t :=
  mk (header b) (transactions b) x (size b).
Definition with_size (x : Z) (b : t) : t :=
  mk (header b) (transactions b) (hash b) x.

(** The object handed to [JSON.stringify] by [toJSON()]; each transaction
    goes through [JSON.parse(tx.toJSON())]. *)
Definition toValue (b : t) : JSON.value :=
  JSON.Obj [("header", BlockHeader.toValue (header b));
            ("transactions",
             JSON.Arr (map (fun tx => JSON.reparse (Transaction.toValue tx)) (transactions b)));
            ("hash", JSON.Str (hash b));
            ("size", JSON.int (size b))].

(** [toJSON()]: [JSON.stringify(..., null, 2)] *)
Definition toJSON (b : t) : string := JSON.stringify_indent 2 (toValue b).

(** [updateSize()] *)
Definition updateSize (b : t) : t :=
  with_size (Z.of_nat (String.length (toJSON b))) b.

(** [Block.getBlockReward(height)] *)
Definition getBlockReward (height : Z) : Q :=
  let initialReward := 50%Q in
  let halvingInterval := 210000 in
  let halvings := height / halvingInterval in
  (initialReward / Qpower 2 halvings)%Q.

Section WithCrypto.
Context `{Crypto}.

(** [calculateMerkleRoot()] *)
Definition calculateMerkleRoot (b : t) : string :=
  if (length (transactions b) =? 0)%nat then Hash.sha256 ""
  else
    let txHashes := map Transaction.id (transactions b) in
    Hash.calculateMerkleRoot txHashes.

(** [calculateHash()] *)
Definition calculateHash (b : t) : string :=
  Hash.sha256 (JSON.stringify (BlockHeader.toValue (header b))).

(** [updateHash()] *)
Definition updateHash (b : t) : t :=
  let b := with_header (BlockHeader.with_merkleRoot (calculateMerkleRoot b) (header b)) b in
  with_hash (calculateHash b) b.

(** [new Block(transactions, previousHash, height, difficulty)] *)
Definition new (now : Z) (transactions : list Transaction.t) (previousHash : string)
    (height : Z) (difficulty : nat) : t :=
  let b0 := mk (BlockHeader.mk 1 previousHash "" now difficulty 0 height) transactions "" 0 in
  let b1 := with_header (BlockHeader.with_merkleRoot (calculateMerkleRoot b0) (header b0)) b0 in
  updateSize (updateHash b1).

(** The [while] loop of [mineBlock]: [fuel] bounds the number of nonce
    increments; [None] when the target is not reached within it. *)
Fixpoint mineLoop (fuel : nat) (target : string) (b : t) : option t :=
  if String.prefix target (hash b) then Some b
  else
    match fuel with
    | O => None
    | S fuel' =>
        let b := with_header (BlockHeader.with_nonce (S (BlockHeader.nonce (header b))) (header b)) b in
        mineLoop fuel' target (updateHash b)
    end.

(** [mineBlock(difficulty?)] *)
Definition mineBlock (fuel : nat) (difficulty : option nat) (b : t) : option t :=
  let targetDifficulty :=
    match difficulty with
    | Some (S d) => S d
    | _ => BlockHeader.difficulty (header b)
    end in
  let target := JSON.repeat "0" targetDifficulty in
  let b := with_header (BlockHeader.with_nonce 0 (header b)) b in
  let b := updateHash b in
  match mineLoop fuel target b with
  | Some b => Some (updateSize b)
  | None => None
  end.

(** The loop [for (const transaction of this.transactions)
    if (!transaction.isValid()) return false]: the verdict, and the
    transactions after the calls that were made. *)
Fixpoint validateTransactions (txs : list Transaction.t) : bool * list Transaction.t :=
  match txs with
  | [] => (true, [])
  | tx :: rest =>
      let (ok, tx') := Transaction.isValid_run tx in
      if ok then
        let (ok', rest') := validateTransactions rest in (ok', tx' :: rest')
      else (false, tx' :: rest)
  end.

(** [isValid(previousBlock?)]: the boolean returned and the receiver after
    the call. *)
Definition isValid_run (previousBlock : option t) (b : t) : bool * t :=
  (* Check if the block hash is valid *)
  if negb (String.eqb (hash b) (calculateHash b)) then (false, b)
  (* Check if hash meets difficulty requirement *)
  else if negb (Hash.meetsDifficulty (hash b) (BlockHeader.difficulty (header b))) then (false, b)
  (* Check previous hash linkage *)
  else if (if previousBlock is Some p
           then negb (String.eqb (BlockHeader.previousHash (header b)) (hash p))
           else false) then (false, b)
  (* Check if block height is correct *)
  else if (if previousBlock is Some p
           then negb (BlockHeader.height (header b) =? BlockHeader.height (header p) + 1)
           else false) then (false, b)
  (* Validate merkle root *)
  else if negb (String.eqb (BlockHeader.merkleRoot (header b)) (calculateMerkleRoot b)) then (false, b)
  else
    (* Validate all transactions *)
    let (ok, txs) := validateTransactions (transactions b) in
    let b := with_transactions txs b in
    if negb ok then (false, b)
    else
      (* Check for duplicate transactions *)
      let txIds := map Transaction.id (transactions b) in
      if negb (length (remove_dups txIds) =? length txIds)%nat then (false, b)
      else
        (* Validate coinbase transaction (should be first and only one) *)
        let coinbaseTransactions := List.filter Transaction.isCoinbase (transactions b) in
        if (1 <? length coinbaseTransactions)%nat then (false, b)
        else if (length coinbaseTransactions =? 1)%nat
                && negb (if transactions b is first :: _ then Transaction.isCoinbase first else false)
        then (false, b)
        else (true, b).

Definition isValid (previousBlock : option t) (b : t) : bool :=
  fst (isValid_run previousBlock b).
Definition afterIsValid (previousBlock : option t) (b : t) : t :=
  snd (isValid_run previousBlock b).

(** The fixed values of [Block.createGenesisBlock()]. *)
Definition genesisAddress : string := "1A1zP1eP5QGefi2DMPTfTL5SLmv7DivfNa".
Definition genesisTimestamp : Z := 1231006505.

(** [Block.createGenesisBlock()] *)
Definition createGenesisBlock (fuel : nat) (now : Z) : option t :=
  let genesisTransaction := Transaction.createCoinbase now genesisAddress 50 0 in
  let block := new now [genesisTransaction] Transaction.zeroId 0 4 in
  let block := with_header (BlockHeader.with_timestamp genesisTimestamp (header block)) block in
  mineBlock fuel None block.

(** [Block.fromJSON(json)], on the document [data = JSON.parse(json)]. *)
Definition fromJSON (now : Z) (data : JSON.value) : option t :=
  txs ← JSON.asArr (JSON.get "transactions" data)
        ≫= mapM (fun txData => Transaction.fromJSON now (JSON.reparse txData));
  hdr ← BlockHeader.fromValue (JSON.get "header" data);
  let block :=
    new now txs (BlockHeader.previousHash hdr) (BlockHeader.height hdr)
      (BlockHeader.difficulty hdr) in
  h ← JSON.asStr (JSON.get "hash" data);
  sz ← JSON.asInt (JSON.get "size" data);
  Some (with_size sz (with_hash h (with_header hdr block))).

(** [clone()]: [Block.fromJSON(this.toJSON())] *)
Definition clone (now : Z) (b : t) : option t :=
  fromJSON now (JSON.reparse (toValue b)).

(** [getTotalFees()] *)
Definition getTotalFees (b : t) : Q :=
  Number.sum Transaction.fee
    (List.filter (fun tx => negb (Transaction.isCoinbase tx)) (transactions b)).

(** [addTransaction(transaction)]: the boolean returned and the block
    after the call. *)
Definition addTransaction (transaction : Transaction.t) (b : t) : bool * t :=
  let (valid, transaction) := Transaction.isValid_run transaction in
  if negb valid then (false, b)
  (* Don't allow adding coinbase transactions manually *)
  else if Transaction.isCoinbase transaction then (false, b)
  else
    let b := with_transactions (transactions b ++ [transaction]) b in
    (true, updateSize (updateHash b)).

End WithCrypto.
End Block.

(** ** [Blockchain] *)

Module UTXO.
Record t : Type := mk {
  txId : string;
  outputIndex : Z;
  address : string;
  amount : Q;
  blockHeight : Z
}.
End UTXO.

(** The object that [getStats()] returns ([BlockchainStats]); [None] is a
    number that is [NaN] or infinite. *)
Module BlockchainStats.
Record t : Type := mk {
  blockCount : nat;
  totalTransactions : nat;
  totalSupply : Q;
  difficulty : nat;
  hashRate : option Q;
  averageBlockTime : option Q;
  memPoolSize : nat
}.
End BlockchainStats.

Module Blockchain.

(** The fields of the class.  [utxoSet] and [addressBalances] are the two
    [Map]s; the order in which a [Map] enumerates its entries is not
    modelled.  The [storage] collaborator is not part of the state: the
    answer of each [saveBlock] is an argument of the call that asks. *)
Record t : Type := mk {
  chain : list Block.t;
  difficulty : nat;
  miningReward : Q;
  memPool : list Transaction.t;
  utxoSet : gmap string UTXO.t;
  addressBalances : gmap string Q;
  blockTimes : list Z
}.

Definition with_chain (x : list Block.t) (bc : t) : t :=
  mk x (difficulty bc) (miningReward bc) (memPool bc) (utxoSet bc) (addressBalances bc)
    (blockTimes bc).
Definition with_difficulty (x : nat) (bc : t) : t :=
  mk (chain bc) x (miningReward bc) (memPool bc) (utxoSet bc) (addressBalances bc)
    (blockTimes bc).
Definition with_miningReward (x : Q) (bc : t) : t :=
  mk (chain bc) (difficulty bc) x (memPool bc) (utxoSet bc) (addressBalances bc)
    (blockTimes bc).
Definition with_memPool (x : list Transaction.t) (bc : t) : t :=
  mk (chain bc) (difficulty bc) (miningReward bc) x (utxoSet bc) (addressBalances bc)
    (blockTimes bc).
Definition with_utxoSet (x : gmap string UTXO.t) (bc : t) : t :=
  mk (chain bc) (difficulty bc) (miningReward bc) (memPool bc) x (addressBalances bc)
    (blockTimes bc).
Definition with_addressBalances (x : gmap string Q) (bc : t) : t :=
  mk (chain bc) (difficulty bc) (miningReward bc) (memPool bc) (utxoSet bc) x
    (blockTimes bc).
Definition with_blockTimes (x : list Z) (bc : t) : t :=
  mk (chain bc) (difficulty bc) (miningReward bc) (memPool bc) (utxoSet bc)
    (addressBalances bc) x.

Definition targetBlockTime : Z := 600000.
Definition difficultyAdjustmentInterval : nat := 10.

(** What a method call does: it returns a value, or throws; in both cases
    the ledger is left in some state.  [OutOfFuel] is a proof-of-work
    search that did not finish within its fuel. *)
Inductive outcome (A : Type) : Type :=
| Returned (value : A) (bc : t)
| Thrown (e : exception) (bc : t)
| OutOfFuel.
Arguments Returned {A} value bc.
Arguments Thrown {A} e bc.
Arguments OutOfFuel {A}.

(** The key [`${txId}:${outputIndex}`] of the unspent-output index. *)
Definition utxoKey (txId : string) (outputIndex : Z) : string :=
  txId +:+ ":" +:+ pretty outputIndex.

(** [getLatestBlock()]: [None] is the [undefined] read from an empty chain. *)
Definition getLatestBlock (bc : t) : option Block.t := last (chain bc).

(** [this.addressBalances.get(address) || 0] *)
Definition getAddressBalance (address : string) (bc : t) : Q :=
  default 0%Q (addressBalances bc !! address).

(** [getUTXOsForAddress(address)] *)
Definition getUTXOsForAddress (address : string) (bc : t) : list UTXO.t :=
  List.filter (fun utxo => String.eqb (UTXO.address utxo) address)
    (map snd (map_to_list (utxoSet bc))).

(** Body of the loop over the inputs in [updateUTXOSet]. *)
Definition spendInput (bc : t) (input : TransactionInput.t) : t :=
  if negb (String.eqb (TransactionInput.txId input) "")
     && (0 <=? TransactionInput.outputIndex input) then
    (* Skip coinbase inputs *)
    let utxoKey := utxoKey (TransactionInput.txId input) (TransactionInput.outputIndex input) in
    match utxoSet bc !! utxoKey with
    | Some utxo =>
        let bc := with_utxoSet (delete utxoKey (utxoSet bc)) bc in
        (* Update address balance *)
        let currentBalance := getAddressBalance (UTXO.address utxo) bc in
        with_addressBalances
          (<[UTXO.address utxo := (currentBalance - UTXO.amount utxo)%Q]> (addressBalances bc)) bc
    | None => bc
    end
  else bc.

(** Body of [transaction.outputs.forEach((output, index) => ...)]. *)
Definition addOutput (txId : string) (height : Z) (bc : t) (index : nat)
    (output : TransactionOutput.t) : t :=
  let utxo :=
    UTXO.mk txId (Z.of_nat index) (TransactionOutput.address output)
      (TransactionOutput.amount output) height in
  let utxoKey := utxoKey txId (Z.of_nat index) in
  let bc := with_utxoSet (<[utxoKey := utxo]> (utxoSet bc)) bc in
  (* Update address balance *)
  let currentBalance := getAddressBalance (TransactionOutput.address output) bc in
  with_addressBalances
    (<[TransactionOutput.address output
       := (currentBalance + TransactionOutput.amount output)%Q]> (addressBalances bc)) bc.

Fixpoint addOutputs (txId : string) (height : Z) (index : nat)
    (outputs : list TransactionOutput.t) (bc : t) : t :=
  match outputs with
  | [] => bc
  | output :: rest => addOutputs txId height (S index) rest (addOutput txId height bc index output)
  end.

(** Body of the loop over the transactions in [updateUTXOSet]. *)
Definition applyTransaction (height : Z) (bc : t) (transaction : Transaction.t) : t :=
  (* Remove spent UTXOs *)
  let bc := fold_left spendInput (Transaction.inputs transaction) bc in
  (* Add new UTXOs *)
  addOutputs (Transaction.id transaction) height 0 (Transaction.outputs transaction) bc.

(** [updateUTXOSet(block)] *)
Definition updateUTXOSet (block : Block.t) (bc : t) : t :=
  fold_left (applyTransaction (BlockHeader.height (Block.header block)))
    (Block.transactions block) bc.

(** [removeTransactionsFromMemPool(transactions)] *)
Definition removeTransactionsFromMemPool (transactions : list Transaction.t) (bc : t) : t :=
  let txIds := map Transaction.id transactions in
  with_memPool
    (List.filter (fun tx => negb (bool_decide (Transaction.id tx ∈ txIds))) (memPool bc)) bc.

(** [updateBlockTimes(block)] *)
Definition updateBlockTimes (block : Block.t) (bc : t) : t :=
  if (1 <? length (chain bc))%nat then
    match chain bc !! (length (chain bc) - 2)%nat with
    | Some previousBlock =>
        let timeDiff :=
          BlockHeader.timestamp (Block.header block)
          - BlockHeader.timestamp (Block.header previousBlock) in
        let times := blockTimes bc ++ [timeDiff] in
        (* Keep only recent block times *)
        if (difficultyAdjustmentInterval <? length times)%nat
        then with_blockTimes (tail times) bc
        else with_blockTimes times bc
    | None => bc
    end
  else bc.

(** [isTransactionInBlockchain(txId)] *)
Definition isTransactionInBlockchain (txId : string) (bc : t) : bool :=
  existsb (fun block =>
             existsb (fun tx => String.eqb (Transaction.id tx) txId) (Block.transactions block))
    (chain bc).

(** The loop [for (const input of transaction.inputs)] of [addTransaction]:
    every input that is not skipped names an indexed unspent output. *)
Definition inputsUnspent (transaction : Transaction.t) (bc : t) : bool :=
  forallb (fun input =>
             if String.eqb (TransactionInput.txId input) ""
                || (TransactionInput.outputIndex input <? 0)
             then true (* Skip coinbase inputs *)
             else bool_decide (is_Some (utxoSet bc !! utxoKey (TransactionInput.txId input)
                                          (TransactionInput.outputIndex input))))
    (Transaction.inputs transaction).

(** [array.sort(compare)], the comparator given as the test
    [compare(a, b) < 0] (a goes strictly before b): a stable insertion
    sort, so elements that compare equal keep their order. *)
Fixpoint insertSorted {A : Type} (before : A -> A -> bool) (x : A) (l : list A) : list A :=
  match l with
  | [] => [x]
  | y :: r => if before y x then y :: insertSorted before x r else x :: y :: r
  end.

Definition stableSort {A : Type} (before : A -> A -> bool) (l : list A) : list A :=
  fold_right (insertSorted before) [] l.

Section WithCrypto.
Context `{Crypto}.

(** [addTransaction(transaction)] *)
Definition addTransaction (transaction : Transaction.t) (bc : t) : bool * t :=
  (* Basic validation *)
  let (valid, transaction) := Transaction.isValid_run transaction in
  if negb valid then (false, bc)
  (* Check if transaction already exists *)
  else if existsb (fun tx => String.eqb (Transaction.id tx) (Transaction.id transaction))
            (memPool bc) then (false, bc)
  (* Check if transaction is already in blockchain *)
  else if isTransactionInBlockchain (Transaction.id transaction) bc then (false, bc)
  (* Verify UTXOs exist and are unspent *)
  else if negb (inputsUnspent transaction bc) then (false, bc)
  else (true, with_memPool (memPool bc ++ [transaction]) bc).

(** [addBlock(block)]; [saved] is the answer of [storage.saveBlock]. *)
Definition addBlock (saved : bool) (block : Block.t) (bc : t) : outcome bool :=
  let previousBlock := getLatestBlock bc in
  (* Validate the block *)
  let (valid, block) := Block.isValid_run previousBlock block in
  if negb valid then Returned false bc
  else
    match previousBlock with
    | None => Thrown (TypeError "Cannot read properties of undefined (reading 'header')") bc
    | Some previousBlock =>
        (* Check if block height is correct *)
        if negb (BlockHeader.height (Block.header block)
                 =? BlockHeader.height (Block.header previousBlock) + 1)
        then Returned false bc
        else
          (* Add block to chain *)
          let bc := with_chain (chain bc ++ [block]) bc in
          (* Save block to database *)
          if negb saved then
            (* Remove from chain if database save failed *)
            Returned false (with_chain (removelast (chain bc)) bc)
          else
            (* Update UTXO set and balances *)
            let bc := updateUTXOSet block bc in
            (* Remove mined transactions from mempool *)
            let bc := removeTransactionsFromMemPool (Block.transactions block) bc in
            (* Update block time tracking *)
            let bc := updateBlockTimes block bc in
            Returned true bc
    end.

(** [adjustDifficulty()]; the average of an empty history is [NaN], which
    compares false both ways and leaves the difficulty as it is. *)
Definition adjustDifficulty (bc : t) : t :=
  if (length (chain bc) mod difficultyAdjustmentInterval =? 0)%nat
     && (0 <? length (chain bc))%nat then
    match blockTimes bc with
    | [] => bc
    | _ =>
        let averageTime :=
          (Number.sum inject_Z (blockTimes bc)
           / inject_Z (Z.of_nat (length (blockTimes bc))))%Q in
        with_difficulty
          (Hash.adjustDifficulty (difficulty bc) (inject_Z targetBlockTime) averageTime) bc
    end
  else bc.

(** The comparator of [selectTransactionsForMining], [feeRateB - feeRateA < 0]. *)
Definition higherFeeRate (a b : Transaction.t) : bool :=
  let feeRateA := (Transaction.fee a / inject_Z (Transaction.getSize a))%Q in
  let feeRateB := (Transaction.fee b / inject_Z (Transaction.getSize b))%Q in
  Number.ltb (feeRateB - feeRateA) 0.

(** [selectTransactionsForMining(maxTransactions = 100)]: the selection, and
    the pool after the [isValid()] calls of the filter. *)
Definition selectTransactionsForMining (maxTransactions : nat) (bc : t)
  : list Transaction.t * t :=
  let runs := map Transaction.isValid_run (memPool bc) in
  (* Sort by fee rate (fee per byte) descending *)
  let sortedTransactions :=
    stableSort higherFeeRate (map snd (List.filter fst runs)) in
  (take maxTransactions sortedTransactions, with_memPool (map snd runs) bc).

(** [mineBlock(minerAddress)]; [now] is the clock, [saved] the answer of
    [storage.saveBlock]. *)
Definition mineBlock (fuel : nat) (now : Z) (saved : bool) (minerAddress : string) (bc : t)
  : outcome (option Block.t) :=
  (* Adjust difficulty if needed *)
  let bc := adjustDifficulty bc in
  (* Select transactions from mempool *)
  let (selectedTransactions, bc) := selectTransactionsForMining 100 bc in
  (* Create coinbase transaction *)
  let blockReward := Block.getBlockReward (Z.of_nat (length (chain bc))) in
  let totalFees := Number.sum Transaction.fee selectedTransactions in
  let coinbaseTransaction :=
    Transaction.createCoinbase now minerAddress (blockReward + totalFees)%Q
      (Z.of_nat (length (chain bc))) in
  (* Create new block *)
  let transactions := coinbaseTransaction :: selectedTransactions in
  match getLatestBlock bc with
  | None => Thrown (TypeError "Cannot read properties of undefined (reading 'hash')") bc
  | Some previousBlock =>
      let newBlock :=
        Block.new now transactions (Block.hash previousBlock)
          (BlockHeader.height (Block.header previousBlock) + 1) (difficulty bc) in
      (* Mine the block *)
      match Block.mineBlock fuel (Some (difficulty bc)) newBlock with
      | None => OutOfFuel
      | Some newBlock =>
          (* Add block to chain *)
          match addBlock saved newBlock bc with
          | Returned true bc' =>
              Returned (Some (Block.afterIsValid (Some previousBlock) newBlock)) bc'
          | Returned false bc' => Returned None bc'
          | Thrown e bc' => Thrown e bc'
          | OutOfFuel => OutOfFuel
          end
      end
  end.

(** [isChainValid()]: the verdict and the chain after the [isValid] calls. *)
Fixpoint validateFrom (previousBlock : Block.t) (rest : list Block.t) : bool * list Block.t :=
  match rest with
  | [] => (true, [])
  | currentBlock :: rest' =>
      let (ok, currentBlock') := Block.isValid_run (Some previousBlock) currentBlock in
      if ok then
        let (ok', rest'') := validateFrom currentBlock' rest' in (ok', currentBlock' :: rest'')
      else (false, currentBlock' :: rest')
  end.

Definition isChainValid_run (blocks : list Block.t) : bool * list Block.t :=
  match blocks with
  | [] => (true, [])
  | genesis :: rest => let (ok, rest') := validateFrom genesis rest in (ok, genesis :: rest')
  end.

Definition isChainValid (bc : t) : bool := fst (isChainValid_run (chain bc)).

(** The constructor on an empty store: [initializeBlockchain()] finds no
    block and calls [createGenesisBlock()]. *)
Definition new (fuel : nat) (now : Z) : option t :=
  let bc := mk [] 4 50 [] ∅ ∅ [] in
  match Block.createGenesisBlock fuel now with
  | None => None
  | Some genesisBlock =>
      let bc := with_chain (chain bc ++ [genesisBlock]) bc in
      let bc := updateUTXOSet genesisBlock bc in
      Some (with_blockTimes (blockTimes bc ++ [targetBlockTime]) bc)
  end.

(** [importChain(data)] on the decoded document: the blocks of
    [imported.chain], [imported.difficulty] and [imported.miningReward]. *)
Definition importChain (newChain : list Block.t) (importedDifficulty : nat)
    (importedReward : Q) (bc : t) : bool * t :=
  (* Validate imported chain *)
  let (valid, newChain) := isChainValid_run newChain in
  if negb valid then (false, bc)
  else
    (* Replace current chain if valid *)
    let bc := with_chain newChain bc in
    let bc := with_difficulty importedDifficulty bc in
    let bc := with_miningReward importedReward bc in
    (* Rebuild UTXO set *)
    let bc := with_utxoSet ∅ bc in
    let bc := with_addressBalances ∅ bc in
    (true, fold_left (fun bc block => updateUTXOSet block bc) (chain bc) bc).

(** [getBlockByHeight(height)]; [None] is [null]. *)
Definition getBlockByHeight (height : Z) (bc : t) : option Block.t :=
  List.find (fun block => BlockHeader.height (Block.header block) =? height) (chain bc).

(** The loop over the chain of [getTransactionById]. *)
Fixpoint findInBlocks (txId : string) (blocks : list Block.t) : option Transaction.t :=
  match blocks with
  | [] => None
  | block :: rest =>
      match List.find (fun tx => String.eqb (Transaction.id tx) txId) (Block.transactions block) with
      | Some transaction => Some transaction
      | None => findInBlocks txId rest
      end
  end.

(** [getTransactionById(txId)]; [None] is [null]. *)
Definition getTransactionById (txId : string) (bc : t) : option Transaction.t :=
  match findInBlocks txId (chain bc) with
  | Some transaction => Some transaction
  | None =>
      (* Check mempool *)
      List.find (fun tx => String.eqb (Transaction.id tx) txId) (memPool bc)
  end.




(** [getStats()] *)
Definition getStats (bc : t) : BlockchainStats.t :=
  let totalTransactions :=
    fold_left (fun sum block => (sum + length (Block.transactions block))%nat) (chain bc) 0%nat in
  let totalSupply :=
    Number.sum (fun balance => balance) (map snd (map_to_list (addressBalances bc))) in
  let averageBlockTime :=
    match blockTimes bc with
    | [] => None
    | _ => Some (Number.sum inject_Z (blockTimes bc)
                 / inject_Z (Z.of_nat (length (blockTimes bc))))%Q
    end in
  (* Simple hash rate estimation (hashes per second) *)
  let hashRate :=
    if (0 <? difficulty bc)%nat then
      match averageBlockTime with
      | Some average =>
          if Qeq_bool average 0 then None
          else Some (2 ^ Z.of_nat (difficulty bc) / (average / 1000))%Q
      | None => None
      end
    else Some 0%Q in
  BlockchainStats.mk (length (chain bc)) totalTransactions totalSupply (difficulty bc)
    hashRate averageBlockTime (length (memPool bc)).

(** A number as [JSON.stringify] writes it: [null] for [NaN] and the
    infinities. *)
Definition number (n : option Q) : JSON.value :=
  match n with Some q => JSON.Num q | None => JSON.Null end.

Definition statsValue (s : BlockchainStats.t) : JSON.value :=
  JSON.Obj [("blockCount", JSON.int (Z.of_nat (BlockchainStats.blockCount s)));
            ("totalTransactions", JSON.int (Z.of_nat (BlockchainStats.totalTransactions s)));
            ("totalSupply", JSON.Num (BlockchainStats.totalSupply s));
            ("difficulty", JSON.int (Z.of_nat (BlockchainStats.difficulty s)));
            ("hashRate", number (BlockchainStats.hashRate s));
            ("averageBlockTime", number (BlockchainStats.averageBlockTime s));
            ("memPoolSize", JSON.int (Z.of_nat (BlockchainStats.memPoolSize s)))].

(** The object handed to [JSON.stringify] by [exportChain()]. *)
Definition exportValue (bc : t) : JSON.value :=
  JSON.Obj [("chain",
             JSON.Arr (map (fun block => JSON.reparse (Block.toValue block)) (chain bc)));
            ("difficulty", JSON.int (Z.of_nat (difficulty bc)));
            ("miningReward", JSON.Num (miningReward bc));
            ("stats", statsValue (getStats bc))].

(** [exportChain()] *)
Definition exportChain (bc : t) : string :=
  JSON.stringify_indent 2 (exportValue bc).


End WithCrypto.
End Blockchain.

(** ** An executable instance of the external libraries

    A small stand-in for [crypto] and [elliptic], used only to run the
    model on concrete inputs: a polynomial digest printed as 64 hex digits
    (the first eight are all zero for a third of the inputs and all one or
    all two for the others, so that a search for leading zeros is short), and signatures that are the digest of the
    message hash and the public key.  No general theorem depends on it. *)

Module Toy.

Fixpoint poly (s : string) (acc : N) : N :=
  match s with
  | EmptyString => acc
  | String c r => poly r ((acc * 1000003 + N_of_ascii c + 1) mod 1000000000000000000003)%N
  end.

Fixpoint hex (digits : nat) (n : N) (acc : string) : string :=
  match digits with
  | O => acc
  | S k => hex k (n / 16)%N (String (JSON.hex_digit (n mod 16)%N) acc)
  end.

Definition digest (s : string) : string :=
  let h := poly s 7%N in
  hex 8 ((h mod 3) * 286331153)%N "" +:+ hex 56 (h * h * h + h)%N "".

Definition getPublic (privateKey : string) : string := "04" +:+ digest ("pub" +:+ privateKey).
Definition signWith (hash privateKey : string) : string := digest (hash +:+ getPublic privateKey).
Definition verifyWith (hash signature publicKey : string) : option bool :=
  Some (String.eqb signature (digest (hash +:+ publicKey))).

#[export] Instance crypto : Crypto :=
  {| sha256_hex := digest; ec_getPublic := getPublic;
     ec_sign := signWith; ec_verify := verifyWith |}.

End Toy.

(** * Vocabulary of the properties

    The predicates in which the properties are stated, and the
    intermediate notions of their proofs. *)

Section Vocabulary.
Context `{Crypto}.

(** The level above, by structural recursion: a proof device that both the
    loop and the reference definition are compared with. *)
Fixpoint pairUp (level : list string) : list string :=
  match level with
  | [] => []
  | [only] => [Hash.sha256 (only +:+ only)]
  | node :: sibling :: rest => Hash.sha256 (node +:+ sibling) :: pairUp rest
  end.


(** No transaction after the first is a coinbase transaction: the two
    coinbase tests of [isValid] pass. *)
Definition coinbaseOnlyFirst (txs : list Transaction.t) : Prop :=
  forall i tx, txs !! i = Some tx -> Transaction.isCoinbase tx = true -> i = 0%nat.

(** The checks of [isValid] that come after the header checks. *)
Definition bodyValid (txs : list Transaction.t) : bool :=
  forallb Transaction.isValid txs
  && (length (remove_dups (map Transaction.id txs)) =? length (map Transaction.id txs))%nat
  && negb (1 <? length (List.filter Transaction.isCoinbase txs))%nat
  && negb ((length (List.filter Transaction.isCoinbase txs) =? 1)%nat
           && negb (if txs is first :: _ then Transaction.isCoinbase first else false)).

Definition headerValid (previousBlock : option Block.t) (b : Block.t) : bool :=
  String.eqb (Block.hash b) (Block.calculateHash b)
  && Hash.meetsDifficulty (Block.hash b) (BlockHeader.difficulty (Block.header b))
  && (if previousBlock is Some p
      then String.eqb (BlockHeader.previousHash (Block.header b)) (Block.hash p)
           && (BlockHeader.height (Block.header b) =? BlockHeader.height (Block.header p) + 1)
      else true)
  && String.eqb (BlockHeader.merkleRoot (Block.header b)) (Block.calculateMerkleRoot b).

(** The header fields that mining does not touch. *)
Definition sameFixedHeader (h h' : BlockHeader.t) : Prop :=
  BlockHeader.version h' = BlockHeader.version h
  /\ BlockHeader.previousHash h' = BlockHeader.previousHash h
  /\ BlockHeader.timestamp h' = BlockHeader.timestamp h
  /\ BlockHeader.difficulty h' = BlockHeader.difficulty h
  /\ BlockHeader.height h' = BlockHeader.height h.

(** A block whose stored hash and Merkle root are the recomputed ones. *)
Definition hashed (b : Block.t) : Prop :=
  Block.hash b = Block.calculateHash b
  /\ BlockHeader.merkleRoot (Block.header b) = Block.calculateMerkleRoot b.

(** The two ledgers agree outside the unspent-output index and the
    balances. *)
Definition sameOutsideIndex (bc bc' : Blockchain.t) : Prop :=
  Blockchain.chain bc' = Blockchain.chain bc
  /\ Blockchain.difficulty bc' = Blockchain.difficulty bc
  /\ Blockchain.miningReward bc' = Blockchain.miningReward bc
  /\ Blockchain.memPool bc' = Blockchain.memPool bc
  /\ Blockchain.blockTimes bc' = Blockchain.blockTimes bc.

(** Every block after the first passes [isValid] against the one before. *)
Fixpoint linked (previousBlock : Block.t) (rest : list Block.t) : bool :=
  match rest with
  | [] => true
  | currentBlock :: rest' =>
      Block.isValid (Some previousBlock) currentBlock && linked currentBlock rest'
  end.

(** One call changes the chain by at most one block, appended after it
    has passed [isValid] against the tip. *)
Definition chainStep (bc bc' : Blockchain.t) : Prop :=
  Blockchain.chain bc' = Blockchain.chain bc
  \/ exists tip block,
       Blockchain.getLatestBlock bc = Some tip
       /\ Block.isValid (Some tip) block = true
       /\ Blockchain.chain bc' = Blockchain.chain bc ++ [Block.afterIsValid (Some tip) block].

(** The ledgers that calls can produce from a fresh one. *)
Inductive reachable : Blockchain.t -> Prop :=
| reach_new (fuel : nat) (now : Z) (bc : Blockchain.t) :
    Blockchain.new fuel now = Some bc -> reachable bc
| reach_addTransaction (tx : Transaction.t) (bc bc' : Blockchain.t) (ok : bool) :
    reachable bc -> Blockchain.addTransaction tx bc = (ok, bc') -> reachable bc'
| reach_addBlock (saved : bool) (block : Block.t) (bc bc' : Blockchain.t) (ok : bool) :
    reachable bc -> Blockchain.addBlock saved block bc = Blockchain.Returned ok bc' ->
    reachable bc'
| reach_mineBlock (fuel : nat) (now : Z) (saved : bool) (minerAddress : string)
    (bc bc' : Blockchain.t) (result : option Block.t) :
    reachable bc ->
    Blockchain.mineBlock fuel now saved minerAddress bc = Blockchain.Returned result bc' ->
    reachable bc'.

(** Overwriting the stored hash of the block at position [k]. *)
Definition tamperHash (k : nat) (hash' : string) (bc : Blockchain.t) : Blockchain.t :=
  Blockchain.with_chain (alter (Block.with_hash hash') k (Blockchain.chain bc)) bc.

(** The statement of claim C10 about one ledger: every address balance is
    the sum of the amounts of the unspent outputs of the address. *)
Definition balancesAgree (bc : Blockchain.t) : Prop :=
  forall address : string,
    (Blockchain.getAddressBalance address bc
     == Number.sum UTXO.amount (Blockchain.getUTXOsForAddress address bc))%Q.


(** The index keys that [updateUTXOSet] writes for the outputs of a
    transaction, and of a block. *)
Fixpoint keysFrom (txId : string) (index : nat) (outputs : list TransactionOutput.t)
  : list string :=
  match outputs with
  | [] => []
  | _ :: rest => Blockchain.utxoKey txId (Z.of_nat index) :: keysFrom txId (S index) rest
  end.

Definition outputKeys (tx : Transaction.t) : list string :=
  keysFrom (Transaction.id tx) 0 (Transaction.outputs tx).

Definition blockOutputKeys (block : Block.t) : list string :=
  flat_map outputKeys (Block.transactions block).



(** *** Signing *)

(** The input as [signTransaction] leaves it: with the signature of its
    message under the key. *)
Definition signedWith (privateKey : string) (tx : Transaction.t)
    (input : TransactionInput.t) : TransactionInput.t :=
  TransactionInput.with_signature
    (Signature.sign (JSON.stringify (Transaction.signatureData tx input)) privateKey) input.

(** The external library does its part for one input: the signature it
    makes for the input's message under the key is not the empty string,
    nor is the public key of the key, and it verifies the signature
    against that public key. *)
Definition signsAndVerifies (privateKey : string) (tx : Transaction.t)
    (input : TransactionInput.t) : Prop :=
  let message := JSON.stringify (Transaction.signatureData tx input) in
  Signature.sign message privateKey <> ""
  /\ Signature.getPublicKey privateKey <> ""
  /\ Signature.verify message (Signature.sign message privateKey)
       (Signature.getPublicKey privateKey) = true.


(** The signatures that verify against the key at their own position. *)
Definition validAtPosition (data : string) (signatures publicKeys : list string)
  : list (string * string) :=
  List.filter (fun pair => Signature.verify data (fst pair) (snd pair))
    (combine signatures publicKeys).

(** *** The proof-of-work search *)

(** The block as the search of [mineBlock] holds it at nonce [n]: the
    nonce set and the hash brought up to date. *)
Definition attempt (b : Block.t) (n : nat) : Block.t :=
  Block.updateHash (Block.with_header (BlockHeader.with_nonce n (Block.header b)) b).

(** The target that [mineBlock(difficulty)] searches for:
    [difficulty || this.header.difficulty] zeros. *)
Definition miningTarget (difficulty : option nat) (b : Block.t) : string :=
  JSON.repeat "0"
    match difficulty with
    | Some (S d) => S d
    | _ => BlockHeader.difficulty (Block.header b)
    end.

(** Nonce [n] is the first one at which the hash starts with the target. *)
Definition firstSolution (target : string) (b : Block.t) (n : nat) : Prop :=
  String.prefix target (Block.hash (attempt b n)) = true
  /\ forall m : nat, (m < n)%nat -> String.prefix target (Block.hash (attempt b m)) = false.

(** *** The steps of a ledger *)

(** The ledger after [addBlock] has admitted [block] atop [tip]. *)
Definition admitted (tip block : Block.t) (bc : Blockchain.t) : Blockchain.t :=
  let block' := Block.afterIsValid (Some tip) block in
  Blockchain.updateBlockTimes block'
    (Blockchain.removeTransactionsFromMemPool (Block.transactions block')
       (Blockchain.updateUTXOSet block'
          (Blockchain.with_chain (Blockchain.chain bc ++ [block']) bc))).

(** The pool after each of its transactions has been through [isValid()]. *)
Definition revalidated (bc : Blockchain.t) : Blockchain.t :=
  Blockchain.with_memPool (map Transaction.afterIsValid (Blockchain.memPool bc)) bc.

(** The ledger after [addTransaction] has accepted [tx]. *)
Definition pooled (tx : Transaction.t) (bc : Blockchain.t) : Blockchain.t :=
  Blockchain.with_memPool (Blockchain.memPool bc ++ [Transaction.afterIsValid tx]) bc.

(** The position of a block in the chain is its height. *)
Definition heightsArePositions (blocks : list Block.t) : Prop :=
  forall (k : nat) (b : Block.t),
    blocks !! k = Some b -> BlockHeader.height (Block.header b) = Z.of_nat k.

(** No two pool transactions share an id, and no pool transaction has the
    id of a transaction of the chain. *)
Definition poolIsFresh (bc : Blockchain.t) : Prop :=
  NoDup (map Transaction.id (Blockchain.memPool bc))
  /\ forall tx, tx ∈ Blockchain.memPool bc ->
       Blockchain.isTransactionInBlockchain (Transaction.id tx) bc = false.


(** An input that [updateUTXOSet] and [addTransaction] do not skip. *)
Definition namesOutput (input : TransactionInput.t) : Prop :=
  TransactionInput.txId input <> "" /\ 0 <= TransactionInput.outputIndex input.

(** The key under which the index holds the output that an input names. *)
Definition keyOf (input : TransactionInput.t) : string :=
  Blockchain.utxoKey (TransactionInput.txId input) (TransactionInput.outputIndex input).


(** Two ledgers hold the same unspent-output index and the same balances. *)
Definition sameIndex (a b : Blockchain.t) : Prop :=
  Blockchain.utxoSet a = Blockchain.utxoSet b
  /\ Blockchain.addressBalances a = Blockchain.addressBalances b.


End Vocabulary.

(** * Concrete inputs

    Explicit ledgers, blocks and transactions, computed with the
    executable instance [Toy] in the place of the external libraries. *)

Section ConcreteInputs.
#[local] Existing Instance Toy.crypto.

Definition now0 : Z := 1700000000000.

Definition emptyLedger : Blockchain.t := Blockchain.mk [] 0 0 [] ∅ ∅ [].
Definition emptyTransaction : Transaction.t := Transaction.mk "" 0 [] [] 0 0 0 None.
Definition emptyBlock : Block.t := Block.mk (BlockHeader.mk 0 "" "" 0 0 0 0) [] "" 0.

(** The fresh ledger, its genesis block and the genesis transaction. *)
Definition ledger0 : Blockchain.t :=
  Eval vm_compute in default emptyLedger (Blockchain.new 50 now0).
Definition genesis0 : Block.t :=
  Eval vm_compute in default emptyBlock (head (Blockchain.chain ledger0)).
Definition genesisTx : Transaction.t :=
  Eval vm_compute in default emptyTransaction (head (Block.transactions genesis0)).

(** [new Transaction()]: no input, no output. *)
Definition bareTransaction : Transaction.t := Transaction.new now0 [] [] None.

Definition key1 : string := "1111".
Definition pub1 : string := Eval vm_compute in Signature.getPublicKey key1.

(** A draft that spends output 0 of the genesis transaction to [recipient],
    and the draft signed. *)
Definition input1 : TransactionInput.t :=
  TransactionInput.mk (Transaction.id genesisTx) 0 "" pub1 50 None.
Definition draft (recipient : string) : Transaction.t :=
  Transaction.new (now0 + 1) [input1] [TransactionOutput.mk recipient 50 None] None.
Definition signed (recipient : string) : Transaction.t :=
  match Transaction.signTransaction key1 0 (draft recipient) with
  | inr tx => tx
  | inl _ => draft recipient
  end.

(** A store in which one input object is named twice by the draft. *)
Definition storeTwice : gmap nat TransactionInput.t := {[ 7%nat := input1 ]}.

(** A block atop the genesis block that holds the bare transaction, with
    stored difficulty 0, and the block after [mineBlock()]. *)
Definition bareBlock : Block.t :=
  Block.new (now0 + 1) [bareTransaction] (Block.hash genesis0)
    (BlockHeader.height (Block.header genesis0) + 1) 0.
Definition bareBlockMined : Block.t :=
  Eval vm_compute in default emptyBlock (Block.mineBlock 0 None bareBlock).

(** A block atop the genesis block that holds one coinbase transaction,
    with stored difficulty 1, and the block after [mineBlock()]. *)
Definition rewardBlock : Block.t :=
  Block.new (now0 + 1) [Transaction.createCoinbase (now0 + 1) "alice" 50 1]
    (Block.hash genesis0) (BlockHeader.height (Block.header genesis0) + 1) 1.
Definition rewardBlockMined : Block.t :=
  Eval vm_compute in default emptyBlock (Block.mineBlock 50 None rewardBlock).

(** A block that does not link to the tip. *)
Definition strayBlock : Block.t := Block.new (now0 + 1) [] "00" 7 0.

(** The ledger after one [mineBlock('miner')] on the fresh ledger. *)
Definition ledgerMined : Blockchain.t :=
  Eval vm_compute in
    match Blockchain.mineBlock 50 (now0 + 1) true "miner" ledger0 with
    | Blockchain.Returned _ bc => bc
    | _ => emptyLedger
    end.

(** Does the transaction name output [outputIndex] of [txId] as an input? *)
Definition spends (txId : string) (outputIndex : Z) (tx : Transaction.t) : bool :=
  existsb (fun input =>
             String.eqb (TransactionInput.txId input) txId
             && (TransactionInput.outputIndex input =? outputIndex))
    (Transaction.inputs tx).

(** Two signed transactions that both spend output 0 of the genesis
    transaction; the fresh ledger after [addTransaction] of the first, and
    of the second; the block that a [mineBlock('miner')] returns then,
    and the ledger it leaves. *)
Definition toBob : Transaction.t := Eval vm_compute in signed "bob".
Definition toCarol : Transaction.t := Eval vm_compute in signed "carol".
Definition ledgerOneSpend : Blockchain.t :=
  Eval vm_compute in snd (Blockchain.addTransaction toBob ledger0).
Definition ledgerTwoSpends : Blockchain.t :=
  Eval vm_compute in snd (Blockchain.addTransaction toCarol ledgerOneSpend).
Definition blockTwoSpends : Block.t :=
  Eval vm_compute in
    match Blockchain.mineBlock 50 (now0 + 2) true "miner" ledgerTwoSpends with
    | Blockchain.Returned (Some block) _ => block
    | _ => emptyBlock
    end.
Definition ledgerSpent : Blockchain.t :=
  Eval vm_compute in
    match Blockchain.mineBlock 50 (now0 + 2) true "miner" ledgerTwoSpends with
    | Blockchain.Returned _ bc => bc
    | _ => emptyLedger
    end.

(** Two blocks of stored difficulty 0 that hold the same coinbase
    transaction, one atop the genesis block and one atop the first. *)
Definition aliceReward : Transaction.t :=
  Eval vm_compute in Transaction.createCoinbase (now0 + 1) "alice" 50 1.
Definition aliceBlock1 : Block.t :=
  Eval vm_compute in Block.new (now0 + 1) [aliceReward] (Block.hash genesis0) 1 0.
Definition aliceBlock2 : Block.t :=
  Eval vm_compute in Block.new (now0 + 2) [aliceReward] (Block.hash aliceBlock1) 2 0.
Definition ledgerAlice1 : Blockchain.t :=
  Eval vm_compute in
    match Blockchain.addBlock true aliceBlock1 ledger0 with
    | Blockchain.Returned _ bc => bc
    | _ => emptyLedger
    end.
Definition ledgerAlice2 : Blockchain.t :=
  Eval vm_compute in
    match Blockchain.addBlock true aliceBlock2 ledgerAlice1 with
    | Blockchain.Returned _ bc => bc
    | _ => emptyLedger
    end.

(** Two outputs that the key [key1] can spend, of 50 and of 30, and the
    transaction that [createTransaction] builds from them to pay 60. *)
Definition input2 : TransactionInput.t :=
  TransactionInput.mk (Transaction.id genesisTx) 1 "" pub1 30 None.
Definition purse : list TransactionInput.t := [input1; input2].
Definition payment : Transaction.t :=
  Eval vm_compute in
    match Transaction.createTransaction (now0 + 1) "alice" "bob" 60 purse key1 with
    | inr tx => tx
    | inl _ => emptyTransaction
    end.

(** The block that the first [mineBlock('miner')] on the fresh ledger
    returns, and the fresh ledger after a [mineBlock('miner')] during
    which the store refuses the block. *)
Definition minedBlock : Block.t :=
  Eval vm_compute in default emptyBlock (Blockchain.chain ledgerMined !! 1%nat).
Definition ledgerUnsaved : Blockchain.t :=
  Eval vm_compute in
    match Blockchain.mineBlock 50 (now0 + 1) false "miner" ledger0 with
    | Blockchain.Returned _ bc => bc
    | _ => emptyLedger
    end.

(** A block of stored difficulty 0 atop the genesis block that holds a
    coinbase transaction and the payment to bob, and the fresh ledger
    after [addBlock] has admitted it. *)
Definition spendBlock : Block.t :=
  Eval vm_compute in
    Block.new (now0 + 2) [aliceReward; toBob] (Block.hash genesis0) 1 0.
Definition ledgerSpentOnce : Blockchain.t :=
  Eval vm_compute in
    match Blockchain.addBlock true spendBlock ledger0 with
    | Blockchain.Returned _ bc => bc
    | _ => emptyLedger
    end.

End ConcreteInputs.

(** * Properties *)

(** ** Merkle root *)

Section MerkleFacts.
Context `{Crypto}.

Lemma drop_two (level : list string) (i : nat) :
  (i + 1 < length level)%nat ->
  drop i level = Hash.at_index level i :: Hash.at_index level (i + 1) :: drop (i + 2) level.
Proof.
  intros Hlt. unfold Hash.at_index.
  destruct (lookup_lt_is_Some_2 level i ltac:(lia)) as [x Hx].
  destruct (lookup_lt_is_Some_2 level (i + 1) ltac:(lia)) as [y Hy].
  rewrite Hx, Hy. cbn [default].
  rewrite (drop_S _ _ _ Hx). replace (S i) with (i + 1)%nat by lia.
  rewrite (drop_S _ _ _ Hy). replace (S (i + 1)) with (i + 2)%nat by lia.
  reflexivity.
Qed.

Lemma drop_last_one (level : list string) (i : nat) :
  (i < length level)%nat -> (length level <= i + 1)%nat ->
  drop i level = [Hash.at_index level i].
Proof.
  intros Hlt Hge. unfold Hash.at_index.
  destruct (lookup_lt_is_Some_2 level i Hlt) as [x Hx].
  rewrite Hx. cbn [default].
  rewrite (drop_S _ _ _ Hx), drop_ge by lia. reflexivity.
Qed.

Lemma nextLevel_from_pairUp (level : list string) (i : nat) (nextLevel : list string) :
  Hash.nextLevel_from level i nextLevel = nextLevel ++ pairUp (drop i level).
Proof.
  funelim (Hash.nextLevel_from level i nextLevel).
  - pose proof (proj1 (Nat.ltb_ge _ _) outside) as Hout.
    rewrite drop_ge by lia. cbn. now rewrite app_nil_r.
  - match goal with IH : Hash.nextLevel_from _ _ _ = _ ++ pairUp _ |- _ => rewrite IH end.
    apply Nat.ltb_lt in Heq.
    rewrite (drop_two level i Heq). cbn [pairUp].
    now rewrite <- app_assoc.
  - match goal with IH : Hash.nextLevel_from _ _ _ = _ ++ pairUp _ |- _ => rewrite IH end.
    apply Nat.ltb_ge in Heq.
    pose proof (proj1 (Nat.ltb_lt _ _) inside) as Hin.
    rewrite (drop_last_one level i Hin Heq), drop_ge by lia. cbn [pairUp].
    now rewrite <- app_assoc.
Qed.

Lemma duplicateLast_cons2 (a b : string) (rest : list string) :
  Hash.duplicateLast (a :: b :: rest) = a :: b :: Hash.duplicateLast rest.
Proof.
  unfold Hash.duplicateLast. cbn [length].
  rewrite Nat.odd_succ, Nat.even_succ.
  destruct (Nat.odd (length rest)) eqn:Hodd; [| reflexivity].
  destruct rest as [| c rest']; [discriminate Hodd |].
  reflexivity.
Qed.

Lemma pairUp_reference (level : list string) :
  pairUp level = Hash.hashPairs (Hash.duplicateLast level).
Proof.
  enough (Hboth : pairUp level = Hash.hashPairs (Hash.duplicateLast level)
                  /\ forall a, pairUp (a :: level)
                               = Hash.hashPairs (Hash.duplicateLast (a :: level)))
    by exact (proj1 Hboth).
  induction level as [| b rest [IH1 IH2]]; split; try reflexivity.
  - apply IH2.
  - intros a. rewrite duplicateLast_cons2. cbn [pairUp Hash.hashPairs]. now rewrite IH1.
Qed.

Lemma levels_loop_reference (level : list string) :
  level <> [] -> Hash.at_index (Hash.levels_loop level) 0 = Hash.reduceLevels level.
Proof.
  funelim (Hash.levels_loop level); intros Hne.
  - destruct level as [| a [| b rest]]; [discriminate more | discriminate more |].
    simp reduceLevels.
    rewrite <- pairUp_reference.
    rewrite nextLevel_from_pairUp in *. cbn [app drop] in *.
    match goal with IH : _ -> Hash.at_index _ 0 = _ |- _ => apply IH end.
    cbn [pairUp]. discriminate.
  - destruct level as [| a [| b rest]]; [congruence | reflexivity | discriminate single].
Qed.

(** The loop and the reference definition agree on every list. *)
Lemma calculateMerkleRoot_tree (ids : list string) :
  Hash.calculateMerkleRoot ids = Hash.merkleRoot_reference ids.
Proof.
  unfold Hash.calculateMerkleRoot, Hash.merkleRoot_reference.
  destruct ids as [| x [| y rest]]; [reflexivity | reflexivity |].
  cbn [length Nat.eqb]. apply levels_loop_reference. discriminate.
Qed.

(** A level of three nodes: the third is paired with itself. *)
Example merkle_three (a b c : string) :
  Hash.calculateMerkleRoot [a; b; c]
  = let h := Hash.sha256 in
    h (h (h a +:+ h b) +:+ h (h c +:+ h c)).
Proof.
  rewrite calculateMerkleRoot_tree.
  unfold Hash.merkleRoot_reference. cbn [map]. now simp reduceLevels.
Qed.

(** Five nodes: the fifth is paired with itself, and so is the node above
    it on the level of three. *)
Example merkle_five (a b c d e : string) :
  Hash.calculateMerkleRoot [a; b; c; d; e]
  = let h := Hash.sha256 in
    h (h (h (h a +:+ h b) +:+ h (h c +:+ h d))
       +:+ h (h (h e +:+ h e) +:+ h (h e +:+ h e))).
Proof.
  rewrite calculateMerkleRoot_tree.
  unfold Hash.merkleRoot_reference. cbn [map]. now simp reduceLevels.
Qed.

(** C4.  [calculateMerkleRoot] of the empty list is the hash of the empty
    string, of a one-element list the hash of the element, and on every
    list it is the root of the tree built bottom-up in which a level with
    an odd number of nodes pairs its last node with itself. *)
Theorem calculateMerkleRoot_reference :
  Hash.calculateMerkleRoot [] = Hash.sha256 ""
  /\ (forall x : string, Hash.calculateMerkleRoot [x] = Hash.sha256 x)
  /\ (forall ids : list string, Hash.calculateMerkleRoot ids = Hash.merkleRoot_reference ids).
Proof.
  split; [reflexivity |]. split; [reflexivity |].
  exact calculateMerkleRoot_tree.
Qed.

End MerkleFacts.

(** ** JSON round trips *)

Section JSONFacts.




Lemma reparse_Arr (items : list JSON.value) :
  JSON.reparse (JSON.Arr items) = JSON.Arr (map JSON.reparse items).
Proof.
  reflexivity.
Qed.


End JSONFacts.

(** ** Transactions *)

Section TransactionFacts.
Context `{Crypto}.

Lemma leb_false (a b : Q) : Number.leb a b = false <-> (b < a)%Q.
Proof.
  unfold Number.leb. destruct (Qlt_le_dec b a) as [Hlt | Hle]; split; intros Hx;
    try reflexivity; try assumption; try discriminate.
  exfalso. apply (Qlt_not_le _ _ Hx Hle).
Qed.

Lemma ltb_false (a b : Q) : Number.ltb a b = false <-> (b <= a)%Q.
Proof.
  unfold Number.ltb. destruct (Qlt_le_dec a b) as [Hlt | Hle]; split; intros Hx;
    try reflexivity; try assumption; try discriminate.
  exfalso. apply (Qlt_not_le _ _ Hlt Hx).
Qed.



(** The guard that the claim leaves out: a transaction with no input and no
    output is invalid. *)
Lemma isValid_empty (tx : Transaction.t) :
  Transaction.inputs tx = [] -> Transaction.outputs tx = [] ->
  Transaction.isValid tx = false.
Proof.
  intros Hin Hout. unfold Transaction.isValid, Transaction.isValid_run.
  now rewrite Hin, Hout.
Qed.

(** [isValid()] changes nothing but the stored fee. *)
Lemma afterIsValid_fee (tx : Transaction.t) :
  exists fee, Transaction.afterIsValid tx = Transaction.with_fee fee tx.
Proof.
  unfold Transaction.afterIsValid, Transaction.isValid_run.
  repeat match goal with
         | |- context [if ?c then _ else _] => destruct c
         end; cbn [snd];
    first [ now (exists (Transaction.calculateFee tx))
          | exists (Transaction.fee tx); now destruct tx ].
Qed.

(** The fee plays no part in the verdict of [isValid()]. *)
Lemma isValid_with_fee (fee : Q) (tx : Transaction.t) :
  Transaction.isValid (Transaction.with_fee fee tx) = Transaction.isValid tx.
Proof.
  unfold Transaction.isValid, Transaction.isValid_run.
  change (Transaction.inputs (Transaction.with_fee fee tx)) with (Transaction.inputs tx).
  change (Transaction.outputs (Transaction.with_fee fee tx)) with (Transaction.outputs tx).
  change (Transaction.isCoinbase (Transaction.with_fee fee tx)) with (Transaction.isCoinbase tx).
  change (Transaction.verifySignatures (Transaction.with_fee fee tx))
    with (Transaction.verifySignatures tx).
  change (Transaction.outputsPositive (Transaction.with_fee fee tx))
    with (Transaction.outputsPositive tx).
  change (Transaction.calculateFee (Transaction.with_fee fee tx))
    with (Transaction.calculateFee tx).
  cbn [Transaction.fee Transaction.with_fee].
  repeat match goal with
         | |- context [if ?c then _ else _] => destruct c
         end; reflexivity.
Qed.

Lemma isValid_afterIsValid (tx : Transaction.t) :
  Transaction.isValid (Transaction.afterIsValid tx) = Transaction.isValid tx.
Proof. destruct (afterIsValid_fee tx) as [fee ->]. apply isValid_with_fee. Qed.

Lemma afterIsValid_idempotent (tx : Transaction.t) :
  Transaction.afterIsValid (Transaction.afterIsValid tx) = Transaction.afterIsValid tx.
Proof.
  unfold Transaction.afterIsValid, Transaction.isValid_run.
  repeat match goal with
         | |- context [if ?c then _ else _] => destruct c eqn:?
         end; cbn [snd Transaction.with_fee Transaction.inputs Transaction.outputs] in *;
    try reflexivity; try congruence.
Qed.

(** *** Signing *)

Lemma signTransaction_index_too_large (privateKey : string) (inputIndex : Z)
    (tx : Transaction.t) :
  Z.of_nat (length (Transaction.inputs tx)) <= inputIndex ->
  Transaction.signTransaction privateKey inputIndex tx
  = inl (Error "Input index out of bounds").
Proof.
  intros Hge. unfold Transaction.signTransaction.
  destruct (Z.leb_spec (Z.of_nat (length (Transaction.inputs tx))) inputIndex); [reflexivity | lia].
Qed.

Lemma signTransaction_key_mismatch (privateKey : string) (i : nat)
    (tx : Transaction.t) (input : TransactionInput.t) :
  Transaction.inputs tx !! i = Some input ->
  TransactionInput.publicKey input <> Signature.getPublicKey privateKey ->
  Transaction.signTransaction privateKey (Z.of_nat i) tx
  = inl (Error "Private key does not match input public key").
Proof.
  intros Hin Hne. unfold Transaction.signTransaction.
  pose proof (lookup_lt_Some _ _ _ Hin) as Hlt.
  destruct (Z.leb_spec (Z.of_nat (length (Transaction.inputs tx))) (Z.of_nat i)); [lia |].
  destruct (Z.ltb_spec (Z.of_nat i) 0); [lia |].
  rewrite Nat2Z.id, Hin.
  destruct (String.eqb_spec (TransactionInput.publicKey input)
              (Signature.getPublicKey privateKey)); [contradiction | reflexivity].
Qed.

(** C7, at the input on which the code departs from the claim: index [-1]
    passes the bounds test [inputIndex >= this.inputs.length], and the call
    ends in the runtime's [TypeError] on [input.publicKey], not in the
    'Input index out of bounds' error. *)
Theorem signTransaction_negative_index (privateKey : string) (tx : Transaction.t) :
  Transaction.signTransaction privateKey (-1) tx
  = inl (TypeError "Cannot read properties of undefined (reading 'publicKey')").
Proof.
  unfold Transaction.signTransaction.
  destruct (Z.leb_spec (Z.of_nat (length (Transaction.inputs tx))) (-1)); [lia |].
  reflexivity.
Qed.

Lemma txData_signed (tx : Transaction.t) (i : nat) (input : TransactionInput.t)
    (signature : string) :
  Transaction.inputs tx !! i = Some input ->
  Transaction.txData
    (Transaction.with_inputs
       (<[i := TransactionInput.with_signature signature input]> (Transaction.inputs tx)) tx)
  = Transaction.txData tx.
Proof.
  intros Hin. unfold Transaction.txData.
  cbn [Transaction.with_inputs Transaction.inputs Transaction.outputs Transaction.timestamp
       Transaction.version Transaction.lockTime Transaction.data].
  do 3 f_equal. f_equal. f_equal.
  match goal with
  | |- map ?f (<[i := ?x]> ?l) = map ?f ?l =>
      change (f <$> <[i := x]> l = f <$> l)
  end.
  rewrite list_fmap_insert.
  apply list_insert_id. rewrite list_lookup_fmap, Hin. now destruct input.
Qed.

(** On a transaction by value (no input object named twice): signing
    input [i] with the matching key succeeds and replaces nothing but the
    signature of that input; the computed id is as before. *)
Lemma signTransaction_frame_value (privateKey : string) (i : nat)
    (tx : Transaction.t) (input : TransactionInput.t) :
  Transaction.inputs tx !! i = Some input ->
  TransactionInput.publicKey input = Signature.getPublicKey privateKey ->
  exists (signature : string) (tx' : Transaction.t),
    Transaction.signTransaction privateKey (Z.of_nat i) tx = inr tx'
    /\ tx' = Transaction.with_inputs
               (<[i := TransactionInput.with_signature signature input]> (Transaction.inputs tx)) tx
    /\ Transaction.id tx' = Transaction.id tx
    /\ Transaction.timestamp tx' = Transaction.timestamp tx
    /\ Transaction.outputs tx' = Transaction.outputs tx
    /\ Transaction.fee tx' = Transaction.fee tx
    /\ Transaction.version tx' = Transaction.version tx
    /\ Transaction.lockTime tx' = Transaction.lockTime tx
    /\ Transaction.data tx' = Transaction.data tx
    /\ length (Transaction.inputs tx') = length (Transaction.inputs tx)
    /\ (forall j, j <> i -> Transaction.inputs tx' !! j = Transaction.inputs tx !! j)
    /\ (exists input', Transaction.inputs tx' !! i = Some input'
          /\ TransactionInput.txId input' = TransactionInput.txId input
          /\ TransactionInput.outputIndex input' = TransactionInput.outputIndex input
          /\ TransactionInput.publicKey input' = TransactionInput.publicKey input
          /\ TransactionInput.amount input' = TransactionInput.amount input
          /\ TransactionInput.scriptSig input' = TransactionInput.scriptSig input)
    /\ Transaction.calculateHash tx' = Transaction.calculateHash tx.
Proof.
  intros Hin Hkey.
  pose proof (lookup_lt_Some _ _ _ Hin) as Hlt.
  eexists _, _. split.
  { unfold Transaction.signTransaction.
    destruct (Z.leb_spec (Z.of_nat (length (Transaction.inputs tx))) (Z.of_nat i)); [lia |].
    destruct (Z.ltb_spec (Z.of_nat i) 0); [lia |].
    rewrite Nat2Z.id, Hin, Hkey, String.eqb_refl. cbn [negb]. reflexivity. }
  split; [reflexivity |].
  cbn [Transaction.with_inputs Transaction.id Transaction.timestamp Transaction.outputs
       Transaction.fee Transaction.version Transaction.lockTime Transaction.data
       Transaction.inputs].
  do 7 (split; [reflexivity |]).
  split; [apply length_insert |].
  split; [intros j Hj; now apply list_lookup_insert_ne |].
  split.
  { eexists. split; [now apply list_lookup_insert_eq |]. now destruct input. }
  unfold Transaction.calculateHash. now rewrite txData_signed.
Qed.

(** *** Signing, with the input objects in a store *)

Lemma omap_allocated (store : gmap nat TransactionInput.t) (refs : list nat) (i : nat) (r : nat)
    (input : TransactionInput.t) :
  (forall r', r' ∈ refs -> is_Some (store !! r')) ->
  refs !! i = Some r -> store !! r = Some input ->
  omap (fun r => store !! r) refs !! i = Some input.
Proof.
  revert i. induction refs as [| r0 refs IH]; intros i Hall Hi Hr; [discriminate Hi |].
  destruct (Hall r0 (list_elem_of_here _ _)) as [x Hx].
  cbn [omap list_omap]. rewrite Hx.
  destruct i as [| i].
  - injection Hi as ->. cbn. congruence.
  - cbn [lookup list_lookup] in *. apply IH; [| assumption | assumption].
    intros r' Hr'. apply Hall. now apply list_elem_of_further.
Qed.

Lemma omap_insert_absent (store : gmap nat TransactionInput.t) (refs : list nat)
    (r : nat) (input' : TransactionInput.t) :
  r ∉ refs ->
  omap (fun r0 => <[r := input']> store !! r0) refs = omap (fun r0 => store !! r0) refs.
Proof.
  induction refs as [| r0 refs IH]; intros Hnotin; [reflexivity |].
  apply not_elem_of_cons in Hnotin as [Hne Hnotin].
  cbn [omap list_omap]. rewrite lookup_insert_ne by congruence. now rewrite IH.
Qed.

Lemma omap_insert_once (store : gmap nat TransactionInput.t) (refs : list nat) (i : nat)
    (r : nat) (input' : TransactionInput.t) :
  (forall r', r' ∈ refs -> is_Some (store !! r')) ->
  refs !! i = Some r ->
  (forall j, refs !! j = Some r -> j = i) ->
  omap (fun r0 => <[r := input']> store !! r0) refs
  = <[i := input']> (omap (fun r0 => store !! r0) refs).
Proof.
  revert i. induction refs as [| r0 refs IH]; intros i Hall Hi Honce; [discriminate Hi |].
  destruct (Hall r0 (list_elem_of_here _ _)) as [x Hx].
  assert (Hall' : forall r', r' ∈ refs -> is_Some (store !! r'))
    by (intros r' Hr'; apply Hall; now apply list_elem_of_further).
  cbn [omap list_omap]. rewrite Hx.
  destruct i as [| i].
  - injection Hi as ->. rewrite lookup_insert_eq. cbn [insert list_insert]. f_equal.
    apply omap_insert_absent. intros [j Hj]%list_elem_of_lookup.
    specialize (Honce (S j) Hj). discriminate.
  - assert (r0 <> r).
    { intros ->. specialize (Honce 0%nat eq_refl). discriminate. }
    rewrite lookup_insert_ne by congruence. rewrite Hx. cbn [insert list_insert]. f_equal.
    apply IH; [assumption | exact Hi |].
    intros j Hj. specialize (Honce (S j) Hj). now injection Honce.
Qed.

Lemma txData_store (store : gmap nat TransactionInput.t) (refs : list nat)
    (proto : Transaction.t) (r : nat) (input : TransactionInput.t) (signature : string) :
  store !! r = Some input ->
  Transaction.txData
    (Refs.valueAt (<[r := TransactionInput.with_signature signature input]> store) refs proto)
  = Transaction.txData (Refs.valueAt store refs proto).
Proof.
  intros Hr. unfold Transaction.txData, Refs.valueAt.
  cbn [Transaction.with_inputs Transaction.inputs Transaction.outputs Transaction.timestamp
       Transaction.version Transaction.lockTime Transaction.data].
  do 5 f_equal.
  induction refs as [| r0 refs IH]; [reflexivity |].
  cbn [omap list_omap].
  destruct (decide (r0 = r)) as [-> | Hne].
  - rewrite lookup_insert_eq, Hr. cbn [map]. rewrite IH. now destruct input.
  - rewrite lookup_insert_ne by congruence.
    destruct (store !! r0); cbn [map]; now rewrite IH.
Qed.

(** C8.  Signing input [i] with the matching key succeeds and writes one
    field of one object: the signature of the input object that
    [inputs[i]] names.  Every other object of the store is as before, the
    other fields of that object are as before, the transaction's own fields
    are not written, and the computed id is the same before and after.
    When the array names that object once, the transaction after the call is
    the transaction before with the signature of input [i] replaced. *)
Theorem signTransaction_frame (privateKey : string) (i : nat) (refs : list nat)
    (proto : Transaction.t) (store : gmap nat TransactionInput.t)
    (r : nat) (input : TransactionInput.t) :
  refs !! i = Some r ->
  store !! r = Some input ->
  TransactionInput.publicKey input = Signature.getPublicKey privateKey ->
  exists (signature : string) (store' : gmap nat TransactionInput.t),
    Refs.signTransaction privateKey (Z.of_nat i) refs proto store = inr store'
    /\ store' = <[r := TransactionInput.with_signature signature input]> store
    /\ (forall r', r' <> r -> store' !! r' = store !! r')
    /\ (exists input', store' !! r = Some input'
          /\ TransactionInput.txId input' = TransactionInput.txId input
          /\ TransactionInput.outputIndex input' = TransactionInput.outputIndex input
          /\ TransactionInput.publicKey input' = TransactionInput.publicKey input
          /\ TransactionInput.amount input' = TransactionInput.amount input
          /\ TransactionInput.scriptSig input' = TransactionInput.scriptSig input)
    /\ (let tx := Refs.valueAt store refs proto in
        let tx' := Refs.valueAt store' refs proto in
        Transaction.id tx' = Transaction.id tx
        /\ Transaction.timestamp tx' = Transaction.timestamp tx
        /\ Transaction.outputs tx' = Transaction.outputs tx
        /\ Transaction.fee tx' = Transaction.fee tx
        /\ Transaction.version tx' = Transaction.version tx
        /\ Transaction.lockTime tx' = Transaction.lockTime tx
        /\ Transaction.data tx' = Transaction.data tx
        /\ Transaction.calculateHash tx' = Transaction.calculateHash tx)
    /\ ((forall r', r' ∈ refs -> is_Some (store !! r')) ->
        (forall j, refs !! j = Some r -> j = i) ->
        Transaction.signTransaction privateKey (Z.of_nat i) (Refs.valueAt store refs proto)
        = inr (Refs.valueAt store' refs proto)
        /\ Transaction.inputs (Refs.valueAt store' refs proto)
           = <[i := TransactionInput.with_signature signature input]>
               (Transaction.inputs (Refs.valueAt store refs proto))).
Proof.
  intros Hi Hr Hkey.
  pose proof (lookup_lt_Some _ _ _ Hi) as Hlt.
  eexists _, _. split.
  { unfold Refs.signTransaction.
    destruct (Z.leb_spec (Z.of_nat (length refs)) (Z.of_nat i)); [lia |].
    destruct (Z.ltb_spec (Z.of_nat i) 0); [lia |].
    rewrite Nat2Z.id, Hi, Hr, Hkey, String.eqb_refl. cbn [negb]. reflexivity. }
  split; [reflexivity |].
  split; [intros r' Hne; now apply lookup_insert_ne |].
  split.
  { eexists. split; [apply lookup_insert_eq |]. now destruct input. }
  split.
  { cbn zeta. do 7 (split; [reflexivity |]).
    unfold Transaction.calculateHash. now rewrite txData_store. }
  intros Hall Honce.
  assert (Hinputs :
    Transaction.inputs
      (Refs.valueAt
         (<[r := TransactionInput.with_signature
                   (Signature.sign
                      (JSON.stringify (Transaction.signatureData proto input)) privateKey)
                   input]> store) refs proto)
    = <[i := TransactionInput.with_signature
               (Signature.sign (JSON.stringify (Transaction.signatureData proto input))
                  privateKey) input]>
        (Transaction.inputs (Refs.valueAt store refs proto))).
  { unfold Refs.valueAt. cbn [Transaction.with_inputs Transaction.inputs].
    now apply omap_insert_once. }
  split; [| exact Hinputs].
  pose proof (omap_allocated store refs i r input Hall Hi Hr) as Hvalue.
  unfold Transaction.signTransaction.
  change (Transaction.inputs (Refs.valueAt store refs proto))
    with (omap (fun r => store !! r) refs).
  pose proof (lookup_lt_Some _ _ _ Hvalue) as Hlt'.
  destruct (Z.leb_spec (Z.of_nat (length (omap (fun r => store !! r) refs))) (Z.of_nat i));
    [lia |].
  destruct (Z.ltb_spec (Z.of_nat i) 0); [lia |].
  rewrite Nat2Z.id, Hvalue, Hkey, String.eqb_refl. cbn [negb]. f_equal.
  change (Transaction.signatureData (Refs.valueAt store refs proto) input)
    with (Transaction.signatureData proto input).
  unfold Refs.valueAt in *. cbn [Transaction.with_inputs Transaction.inputs] in Hinputs.
  rewrite Hinputs. now destruct proto.
Qed.

End TransactionFacts.

(** ** Serialisation round trips *)

Section RoundTrip.
Context `{Crypto}.

#[local] Arguments JSON.asInt : simpl never.
#[local] Arguments JSON.asNat : simpl never.
#[local] Arguments inject_Z : simpl never.









End RoundTrip.

(** ** Blocks *)

Section BlockFacts.
Context `{Crypto}.

Lemma repeat_length (n : nat) : String.length (JSON.repeat "0" n) = n.
Proof.
  induction n as [| n IH]; [reflexivity |].
  change (JSON.repeat "0" (S n)) with (String "0" (JSON.repeat "0" n)).
  change (S (String.length (JSON.repeat "0" n)) = S n). now rewrite IH.
Qed.

(** What the loop of [mineBlock] tests, [startsWith], is what [isValid]
    tests, [meetsDifficulty]. *)
Lemma prefix_meetsDifficulty (hash : string) (difficulty : nat) :
  String.prefix (JSON.repeat "0" difficulty) hash = true ->
  Hash.meetsDifficulty hash difficulty = true.
Proof.
  intros Hprefix. apply prefix_correct in Hprefix.
  rewrite repeat_length in Hprefix.
  unfold Hash.meetsDifficulty. rewrite Hprefix. apply String.eqb_refl.
Qed.

Lemma remove_dups_NoDup (l : list string) : NoDup l -> remove_dups l = l.
Proof.
  induction 1 as [| x l Hnotin Hnodup IH]; [reflexivity |].
  cbn [remove_dups]. destruct (decide_rel elem_of x l); [contradiction |]. now rewrite IH.
Qed.

Lemma remove_dups_length (l : list string) : (length (remove_dups l) <= length l)%nat.
Proof.
  induction l as [| x l IH]; [reflexivity |].
  cbn [remove_dups]. destruct (decide_rel elem_of x l); cbn [length]; lia.
Qed.

Lemma remove_dups_same_length (l : list string) :
  length (remove_dups l) = length l -> NoDup l.
Proof.
  induction l as [| x l IH]; [constructor |].
  cbn [remove_dups]. pose proof (remove_dups_length l).
  destruct (decide_rel elem_of x l); cbn [length]; intros Hlen; [lia |].
  constructor; [assumption | apply IH; lia].
Qed.

(** The verdict of the loop over the transactions, and what it leaves. *)
Lemma validateTransactions_verdict (txs : list Transaction.t) :
  fst (Block.validateTransactions txs) = forallb Transaction.isValid txs.
Proof.
  induction txs as [| tx rest IH]; [reflexivity |].
  cbn [Block.validateTransactions forallb]. unfold Transaction.isValid at 1. rewrite <- IH.
  destruct (Transaction.isValid_run tx) as [ok tx'].
  destruct ok; [| reflexivity].
  now destruct (Block.validateTransactions rest).
Qed.

Lemma validateTransactions_valid (txs : list Transaction.t) :
  forallb Transaction.isValid txs = true ->
  Block.validateTransactions txs = (true, map Transaction.afterIsValid txs).
Proof.
  induction txs as [| tx rest IH]; [reflexivity |].
  cbn [forallb]. intros [Htx Hrest]%andb_true_iff.
  cbn [Block.validateTransactions map].
  unfold Transaction.isValid in Htx. unfold Transaction.afterIsValid at 1.
  destruct (Transaction.isValid_run tx) as [ok tx']. cbn [fst snd] in *. subst ok.
  now rewrite (IH Hrest).
Qed.

Lemma afterIsValid_id (tx : Transaction.t) :
  Transaction.id (Transaction.afterIsValid tx) = Transaction.id tx.
Proof. destruct (afterIsValid_fee tx) as [fee ->]. reflexivity. Qed.

Lemma afterIsValid_isCoinbase (tx : Transaction.t) :
  Transaction.isCoinbase (Transaction.afterIsValid tx) = Transaction.isCoinbase tx.
Proof. destruct (afterIsValid_fee tx) as [fee ->]. reflexivity. Qed.

Lemma afterIsValid_inputs (tx : Transaction.t) :
  Transaction.inputs (Transaction.afterIsValid tx) = Transaction.inputs tx.
Proof. destruct (afterIsValid_fee tx) as [fee ->]. reflexivity. Qed.

Lemma afterIsValid_outputs (tx : Transaction.t) :
  Transaction.outputs (Transaction.afterIsValid tx) = Transaction.outputs tx.
Proof. destruct (afterIsValid_fee tx) as [fee ->]. reflexivity. Qed.

Lemma map_id_afterIsValid (txs : list Transaction.t) :
  map Transaction.id (map Transaction.afterIsValid txs) = map Transaction.id txs.
Proof.
  rewrite map_map. apply map_ext. intros tx. apply afterIsValid_id.
Qed.

Lemma filter_isCoinbase_afterIsValid (txs : list Transaction.t) :
  List.filter Transaction.isCoinbase (map Transaction.afterIsValid txs)
  = map Transaction.afterIsValid (List.filter Transaction.isCoinbase txs).
Proof.
  induction txs as [| tx rest IH]; [reflexivity |].
  cbn [map List.filter]. rewrite afterIsValid_isCoinbase.
  destruct (Transaction.isCoinbase tx); cbn [map]; now rewrite IH.
Qed.

Lemma filter_none {A : Type} (p : A -> bool) (l : list A) :
  (forall x, x ∈ l -> p x = false) -> List.filter p l = [].
Proof.
  induction l as [| x r IH]; intros Hall; [reflexivity |].
  cbn [List.filter]. rewrite (Hall x) by apply list_elem_of_here.
  apply IH. intros y Hy. apply Hall. now apply list_elem_of_further.
Qed.

Lemma coinbaseOnlyFirst_tail (tx : Transaction.t) (rest : list Transaction.t) :
  coinbaseOnlyFirst (tx :: rest) -> List.filter Transaction.isCoinbase rest = [].
Proof.
  intros Hfirst. apply filter_none. intros x Hx.
  apply list_elem_of_lookup in Hx as [i Hi].
  destruct (Transaction.isCoinbase x) eqn:Hcb; [| reflexivity].
  specialize (Hfirst (S i) x Hi Hcb). discriminate.
Qed.

(** [isValid] is the conjunction of its checks. *)
Lemma isValid_checks (previousBlock : option Block.t) (b : Block.t) :
  Block.isValid previousBlock b
  = headerValid previousBlock b && bodyValid (Block.transactions b).
Proof.
  unfold Block.isValid, Block.isValid_run, headerValid, bodyValid.
  destruct (String.eqb (Block.hash b) (Block.calculateHash b)); [| reflexivity].
  destruct (Hash.meetsDifficulty _ _); [| reflexivity].
  cbn [negb andb].
  assert (Hlink :
    forall (rest : bool * Block.t) (r : bool),
      fst rest = r ->
      fst (if (if previousBlock is Some p
               then negb (String.eqb (BlockHeader.previousHash (Block.header b)) (Block.hash p))
               else false)
           then (false, b)
           else if (if previousBlock is Some p
                    then negb (BlockHeader.height (Block.header b)
                               =? BlockHeader.height (Block.header p) + 1)
                    else false)
                then (false, b) else rest)
      = (if previousBlock is Some p
         then String.eqb (BlockHeader.previousHash (Block.header b)) (Block.hash p)
              && (BlockHeader.height (Block.header b) =? BlockHeader.height (Block.header p) + 1)
         else true) && r).
  { intros rest r <-. destruct previousBlock as [p |]; [| reflexivity].
    destruct (String.eqb _ _); [| reflexivity].
    destruct (_ =? _); reflexivity. }
  rewrite <- andb_assoc. apply Hlink. clear Hlink.
  destruct (String.eqb _ (Block.calculateMerkleRoot b)); [| reflexivity].
  cbn [negb andb].
  pose proof (validateTransactions_verdict (Block.transactions b)) as Hverdict.
  destruct (forallb Transaction.isValid (Block.transactions b)) eqn:Hall.
  - rewrite (validateTransactions_valid _ Hall).
    cbn [negb Block.with_transactions Block.transactions andb].
    rewrite map_id_afterIsValid, filter_isCoinbase_afterIsValid, !length_map.
    destruct (_ =? _)%nat; [| reflexivity]. cbn [negb andb].
    destruct (1 <? _)%nat; [reflexivity |]. cbn [negb andb].
    replace (if map Transaction.afterIsValid (Block.transactions b) is first :: _
             then Transaction.isCoinbase first else false)
      with (if Block.transactions b is first :: _
            then Transaction.isCoinbase first else false)
      by (destruct (Block.transactions b); [reflexivity | cbn [map]];
          now rewrite afterIsValid_isCoinbase).
    now destruct (_ && _).
  - destruct (Block.validateTransactions (Block.transactions b)) as [ok txs].
    cbn [fst] in Hverdict. subst ok. reflexivity.
Qed.

Lemma with_transactions_same (b : Block.t) : Block.with_transactions (Block.transactions b) b = b.
Proof. now destruct b. Qed.

(** [isValid] changes nothing of the receiver but its transactions' fees. *)
Lemma afterIsValid_shape (previousBlock : option Block.t) (b : Block.t) :
  exists txs, Block.afterIsValid previousBlock b = Block.with_transactions txs b.
Proof.
  unfold Block.afterIsValid, Block.isValid_run.
  repeat match goal with
         | |- context [if ?c then _ else _] => destruct c
         | |- context [let (_, _) := ?x in _] => destruct x
         end; cbn [snd];
    first [ now (exists (Block.transactions b); rewrite with_transactions_same)
          | now eexists ].
Qed.

Lemma afterIsValid_valid (previousBlock : option Block.t) (b : Block.t) :
  Block.isValid previousBlock b = true ->
  Block.afterIsValid previousBlock b
  = Block.with_transactions (map Transaction.afterIsValid (Block.transactions b)) b.
Proof.
  intros Hvalid. pose proof Hvalid as Hchecks. rewrite isValid_checks in Hchecks.
  apply andb_true_iff in Hchecks as [_ Hbody]. unfold bodyValid in Hbody.
  apply andb_true_iff in Hbody as [Hbody _]. apply andb_true_iff in Hbody as [Hbody _].
  apply andb_true_iff in Hbody as [Hall _].
  unfold Block.isValid, Block.afterIsValid, Block.isValid_run in *.
  rewrite (validateTransactions_valid _ Hall) in *.
  repeat match goal with
         | |- context [if ?c then _ else _] => destruct c; try discriminate Hvalid
         end; reflexivity.
Qed.

Lemma forallb_isValid_afterIsValid (txs : list Transaction.t) :
  forallb Transaction.isValid (map Transaction.afterIsValid txs)
  = forallb Transaction.isValid txs.
Proof.
  induction txs as [| tx rest IH]; [reflexivity |].
  cbn [map forallb]. now rewrite isValid_afterIsValid, IH.
Qed.

Lemma bodyValid_afterIsValid (txs : list Transaction.t) :
  bodyValid (map Transaction.afterIsValid txs) = bodyValid txs.
Proof.
  unfold bodyValid.
  rewrite forallb_isValid_afterIsValid, map_id_afterIsValid,
          filter_isCoinbase_afterIsValid, !length_map.
  replace (if map Transaction.afterIsValid txs is first :: _
           then Transaction.isCoinbase first else false)
    with (if txs is first :: _ then Transaction.isCoinbase first else false)
    by (destruct txs; [reflexivity | cbn [map]]; now rewrite afterIsValid_isCoinbase).
  reflexivity.
Qed.

(** Validating a block a second time gives the same verdict. *)
Lemma isValid_afterIsValid_block (q previousBlock : option Block.t) (b : Block.t) :
  Block.isValid q b = true ->
  Block.isValid previousBlock (Block.afterIsValid q b) = Block.isValid previousBlock b.
Proof.
  intros Hvalid. rewrite (afterIsValid_valid _ _ Hvalid), !isValid_checks.
  cbn [Block.with_transactions Block.transactions].
  rewrite bodyValid_afterIsValid. f_equal.
  unfold headerValid, Block.calculateMerkleRoot, Block.calculateHash.
  cbn [Block.with_transactions Block.transactions Block.hash Block.header].
  now rewrite map_id_afterIsValid, length_map.
Qed.

(** The verdict on a block depends on its parent through the parent's
    hash and height only. *)
Lemma isValid_parent (p p' : Block.t) (b : Block.t) :
  Block.hash p' = Block.hash p ->
  BlockHeader.height (Block.header p') = BlockHeader.height (Block.header p) ->
  Block.isValid (Some p') b = Block.isValid (Some p) b.
Proof.
  intros Hhash Hheight. rewrite !isValid_checks. unfold headerValid.
  now rewrite Hhash, Hheight.
Qed.

Lemma isValid_linkage (p b : Block.t) :
  Block.isValid (Some p) b = true ->
  Block.hash b = Block.calculateHash b
  /\ BlockHeader.previousHash (Block.header b) = Block.hash p
  /\ BlockHeader.height (Block.header b) = BlockHeader.height (Block.header p) + 1.
Proof.
  rewrite isValid_checks. intros [Hhdr _]%andb_true_iff. unfold headerValid in Hhdr.
  apply andb_true_iff in Hhdr as [Hhdr _]. apply andb_true_iff in Hhdr as [Hhdr Hlink].
  apply andb_true_iff in Hhdr as [Hhash _]. apply andb_true_iff in Hlink as [Hprev Hh].
  apply String.eqb_eq in Hhash, Hprev. apply Z.eqb_eq in Hh. auto.
Qed.

Lemma isValid_run_eta (q : option Block.t) (b : Block.t) :
  Block.isValid_run q b = (Block.isValid q b, Block.afterIsValid q b).
Proof. unfold Block.isValid, Block.afterIsValid. now destruct (Block.isValid_run q b). Qed.

Lemma updateHash_hashed (b : Block.t) : hashed (Block.updateHash b).
Proof. split; reflexivity. Qed.

Lemma mineLoop_result (fuel : nat) (target : string) (b b' : Block.t) :
  Block.mineLoop fuel target b = Some b' ->
  hashed b ->
  String.prefix target (Block.hash b') = true
  /\ hashed b'
  /\ Block.transactions b' = Block.transactions b
  /\ sameFixedHeader (Block.header b) (Block.header b').
Proof.
  revert b. induction fuel as [| fuel IH]; intros b Hloop Hhashed; cbn [Block.mineLoop] in Hloop.
  - destruct (String.prefix target (Block.hash b)) eqn:Hprefix; [| discriminate].
    injection Hloop as <-. repeat split; try assumption; apply Hhashed.
  - destruct (String.prefix target (Block.hash b)) eqn:Hprefix.
    + injection Hloop as <-. repeat split; try assumption; apply Hhashed.
    + apply IH in Hloop; [| apply updateHash_hashed].
      destruct Hloop as (Hp & Hh & Htxs & Hhdr).
      split; [exact Hp |]. split; [exact Hh |].
      split; [exact Htxs |]. exact Hhdr.
Qed.

(** Mining leaves a block that is hashed, meets the target it was mined
    against, and differs from the block it started from only in the nonce,
    the Merkle root, the hash and the size. *)
Lemma mineBlock_result (fuel : nat) (difficulty : option nat) (b b' : Block.t) :
  difficulty = None \/ difficulty = Some (BlockHeader.difficulty (Block.header b)) ->
  Block.mineBlock fuel difficulty b = Some b' ->
  Hash.meetsDifficulty (Block.hash b') (BlockHeader.difficulty (Block.header b')) = true
  /\ hashed b'
  /\ Block.transactions b' = Block.transactions b
  /\ sameFixedHeader (Block.header b) (Block.header b').
Proof.
  intros Hown Hmine. unfold Block.mineBlock in Hmine.
  assert (Htarget : match difficulty with
                    | Some (S d) => S d
                    | _ => BlockHeader.difficulty (Block.header b)
                    end = BlockHeader.difficulty (Block.header b)).
  { destruct Hown as [-> | ->]; [reflexivity |].
    now destruct (BlockHeader.difficulty (Block.header b)). }
  rewrite Htarget in Hmine.
  destruct (Block.mineLoop _ _ _) as [mined |] eqn:Hloop; [| discriminate].
  injection Hmine as <-.
  apply mineLoop_result in Hloop; [| apply updateHash_hashed].
  destruct Hloop as (Hp & Hh & Htxs & Hhdr).
  destruct Hhdr as (Hv & Hprev & Hts & Hd & Hht).
  split.
  { apply prefix_meetsDifficulty. cbn [Block.updateSize Block.with_size Block.hash Block.header].
    now rewrite Hd. }
  split; [exact Hh |]. split; [exact Htxs |].
  repeat split; assumption.
Qed.

(** C5, as amended.  A block built atop [p] whose transactions are all
    valid, carry pairwise distinct ids and have no coinbase transaction
    after the first position passes [isValid(p)] right after [mineBlock]
    has succeeded against its own stored difficulty. *)
Theorem mineBlock_isValid (fuel : nat) (difficulty : option nat) (p b b' : Block.t) :
  difficulty = None \/ difficulty = Some (BlockHeader.difficulty (Block.header b)) ->
  BlockHeader.previousHash (Block.header b) = Block.hash p ->
  BlockHeader.height (Block.header b) = BlockHeader.height (Block.header p) + 1 ->
  forallb Transaction.isValid (Block.transactions b) = true ->
  NoDup (map Transaction.id (Block.transactions b)) ->
  coinbaseOnlyFirst (Block.transactions b) ->
  Block.mineBlock fuel difficulty b = Some b' ->
  Block.isValid (Some p) b' = true.
Proof.
  intros Hown Hprev Hheight Hvalid Hnodup Hcb Hmine.
  destruct (mineBlock_result _ _ _ _ Hown Hmine)
    as (Hmeets & [Hhash Hroot] & Htxs & (_ & Hprev' & _ & _ & Hheight')).
  rewrite isValid_checks. unfold headerValid, bodyValid.
  rewrite Htxs, Hmeets, Hprev', Hprev, Hheight', Hheight, Z.eqb_refl, Hvalid.
  rewrite <- Hhash at 1. rewrite <- Hroot, !String.eqb_refl.
  rewrite (remove_dups_NoDup _ Hnodup), Nat.eqb_refl.
  cbn [andb].
  destruct (Block.transactions b) as [| first rest] eqn:Hb; [reflexivity |].
  cbn [List.filter]. rewrite (coinbaseOnlyFirst_tail _ _ Hcb).
  destruct (Transaction.isCoinbase first); reflexivity.
Qed.

End BlockFacts.

(** ** The ledger *)

Section LedgerFacts.
Context `{Crypto}.

Lemma with_chain_same (bc : Blockchain.t) : Blockchain.with_chain (Blockchain.chain bc) bc = bc.
Proof. now destruct bc. Qed.

Lemma afterIsValid_hash (q : option Block.t) (b : Block.t) :
  Block.hash (Block.afterIsValid q b) = Block.hash b.
Proof. destruct (afterIsValid_shape q b) as [txs ->]. reflexivity. Qed.

Lemma afterIsValid_header (q : option Block.t) (b : Block.t) :
  Block.header (Block.afterIsValid q b) = Block.header b.
Proof. destruct (afterIsValid_shape q b) as [txs ->]. reflexivity. Qed.

(** A block that fails [isValid(tip)] is turned away at the first test. *)
Lemma addBlock_invalid (saved : bool) (block tip : Block.t) (bc : Blockchain.t) :
  Blockchain.getLatestBlock bc = Some tip ->
  Block.isValid (Some tip) block = false ->
  Blockchain.addBlock saved block bc = Blockchain.Returned false bc.
Proof.
  intros Htip Hinvalid. unfold Blockchain.addBlock.
  now rewrite Htip, isValid_run_eta, Hinvalid.
Qed.

(** When the store refuses the block, the block pushed on the chain is
    popped again and the ledger is the one before the call. *)
Lemma addBlock_unsaved (block tip : Block.t) (bc : Blockchain.t) :
  Blockchain.getLatestBlock bc = Some tip ->
  Blockchain.addBlock false block bc = Blockchain.Returned false bc.
Proof.
  intros Htip.
  destruct (Block.isValid (Some tip) block) eqn:Hvalid;
    [| now apply (addBlock_invalid false block tip)].
  unfold Blockchain.addBlock. rewrite Htip, isValid_run_eta, Hvalid. cbn [negb].
  destruct (isValid_linkage _ _ Hvalid) as (_ & _ & Hheight).
  rewrite afterIsValid_header, Hheight, Z.eqb_refl. cbn [negb].
  cbn [Blockchain.with_chain Blockchain.chain].
  rewrite removelast_last. now destruct bc.
Qed.

(** C2.  [addBlock] returns false and leaves the ledger exactly as it was
    when the block fails [isValid(tip)], when its height is not the tip's
    plus one, and when the store refuses the block (the block pushed on the
    chain is popped again). *)
Theorem addBlock_rejects (saved : bool) (block tip : Block.t) (bc : Blockchain.t) :
  Blockchain.getLatestBlock bc = Some tip ->
  Block.isValid (Some tip) block = false
  \/ BlockHeader.height (Block.header block) <> BlockHeader.height (Block.header tip) + 1
  \/ saved = false ->
  Blockchain.addBlock saved block bc = Blockchain.Returned false bc.
Proof.
  intros Htip Hwhy.
  destruct (Block.isValid (Some tip) block) eqn:Hvalid;
    [| now apply (addBlock_invalid saved block tip)].
  destruct Hwhy as [Hinvalid | [Hmismatch | ->]];
    [discriminate | | now apply (addBlock_unsaved block tip)].
  (* a block that passes [isValid(tip)] has the tip's height plus one *)
  now destruct (isValid_linkage _ _ Hvalid) as (_ & _ & Hheight).
Qed.

(** *** What [updateUTXOSet] leaves alone *)

Lemma sameOutsideIndex_refl (bc : Blockchain.t) : sameOutsideIndex bc bc.
Proof. repeat split. Qed.

Lemma sameOutsideIndex_trans (a b c : Blockchain.t) :
  sameOutsideIndex a b -> sameOutsideIndex b c -> sameOutsideIndex a c.
Proof.
  unfold sameOutsideIndex. intros (-> & -> & -> & -> & ->) (-> & -> & -> & -> & ->).
  repeat split.
Qed.

Lemma spendInput_outside (bc : Blockchain.t) (input : TransactionInput.t) :
  sameOutsideIndex bc (Blockchain.spendInput bc input).
Proof.
  unfold Blockchain.spendInput.
  destruct (_ && _); [| apply sameOutsideIndex_refl].
  destruct (_ !! _); [repeat split | apply sameOutsideIndex_refl].
Qed.

Lemma addOutputs_outside (txId : string) (height : Z) (outputs : list TransactionOutput.t)
    (index : nat) (bc : Blockchain.t) :
  sameOutsideIndex bc (Blockchain.addOutputs txId height index outputs bc).
Proof.
  revert index bc. induction outputs as [| output rest IH]; intros index bc.
  - apply sameOutsideIndex_refl.
  - cbn [Blockchain.addOutputs].
    eapply sameOutsideIndex_trans; [| apply IH]. repeat split.
Qed.

Lemma fold_outside {A : Type} (step : Blockchain.t -> A -> Blockchain.t) (l : list A) :
  (forall bc x, sameOutsideIndex bc (step bc x)) ->
  forall bc, sameOutsideIndex bc (fold_left step l bc).
Proof.
  intros Hstep. induction l as [| x r IH]; intros bc.
  - apply sameOutsideIndex_refl.
  - cbn [fold_left]. eapply sameOutsideIndex_trans; [apply Hstep | apply IH].
Qed.

Lemma applyTransaction_outside (height : Z) (bc : Blockchain.t) (tx : Transaction.t) :
  sameOutsideIndex bc (Blockchain.applyTransaction height bc tx).
Proof.
  unfold Blockchain.applyTransaction.
  eapply sameOutsideIndex_trans; [| apply addOutputs_outside].
  apply fold_outside, spendInput_outside.
Qed.

Lemma updateUTXOSet_outside (block : Block.t) (bc : Blockchain.t) :
  sameOutsideIndex bc (Blockchain.updateUTXOSet block bc).
Proof. apply fold_outside, applyTransaction_outside. Qed.

(** *** Chain validity *)

Lemma linked_parent (p p' : Block.t) (rest : list Block.t) :
  Block.hash p' = Block.hash p ->
  BlockHeader.height (Block.header p') = BlockHeader.height (Block.header p) ->
  linked p' rest = linked p rest.
Proof.
  intros Hhash Hheight. destruct rest as [| b rest]; [reflexivity |].
  cbn [linked]. now rewrite (isValid_parent p p' b Hhash Hheight).
Qed.

Lemma validateFrom_verdict (previousBlock : Block.t) (rest : list Block.t) :
  fst (Blockchain.validateFrom previousBlock rest) = linked previousBlock rest.
Proof.
  revert previousBlock. induction rest as [| b rest IH]; intros p; [reflexivity |].
  cbn [Blockchain.validateFrom linked].
  pose proof (afterIsValid_hash (Some p) b) as Hhash.
  pose proof (afterIsValid_header (Some p) b) as Hheader.
  unfold Block.isValid, Block.afterIsValid in *.
  destruct (Block.isValid_run (Some p) b) as [ok b']. cbn [fst snd] in *.
  destruct ok; [| reflexivity]. cbn [andb].
  specialize (IH b'). destruct (Blockchain.validateFrom b' rest) as [ok' rest'].
  cbn [fst] in *. rewrite IH. apply linked_parent; [assumption | now rewrite Hheader].
Qed.

Lemma isChainValid_linked (bc : Blockchain.t) :
  Blockchain.isChainValid bc
  = match Blockchain.chain bc with
    | [] => true
    | genesis :: rest => linked genesis rest
    end.
Proof.
  unfold Blockchain.isChainValid, Blockchain.isChainValid_run.
  destruct (Blockchain.chain bc) as [| g rest]; [reflexivity |].
  rewrite <- validateFrom_verdict. now destruct (Blockchain.validateFrom g rest).
Qed.

Lemma linked_snoc (p : Block.t) (rest : list Block.t) (b : Block.t) :
  linked p (rest ++ [b])
  = linked p rest && Block.isValid (Some (default p (last rest))) b.
Proof.
  revert p. induction rest as [| c rest IH]; intros p.
  - cbn. now rewrite andb_true_r.
  - cbn [app linked]. rewrite IH, andb_assoc. do 2 f_equal.
    rewrite last_cons. now destruct (last rest).
Qed.

(** What [addBlock] does: nothing, or it appends the block it was given,
    which has passed [isValid] against the tip, and brings the index, the
    pool and the block times up to date. *)
Lemma addBlock_chain (saved : bool) (block : Block.t) (bc bc' : Blockchain.t) (ok : bool) :
  Blockchain.addBlock saved block bc = Blockchain.Returned ok bc' ->
  (ok = false /\ bc' = bc)
  \/ (ok = true /\ saved = true
      /\ exists tip, Blockchain.getLatestBlock bc = Some tip
                     /\ Block.isValid (Some tip) block = true
                     /\ Blockchain.chain bc'
                        = Blockchain.chain bc ++ [Block.afterIsValid (Some tip) block]
                     /\ bc' = Blockchain.updateBlockTimes (Block.afterIsValid (Some tip) block)
                                (Blockchain.removeTransactionsFromMemPool
                                   (Block.transactions (Block.afterIsValid (Some tip) block))
                                   (Blockchain.updateUTXOSet
                                      (Block.afterIsValid (Some tip) block)
                                      (Blockchain.with_chain
                                         (Blockchain.chain bc
                                          ++ [Block.afterIsValid (Some tip) block]) bc)))).
Proof.
  intros Hadd.
  destruct (Blockchain.getLatestBlock bc) as [tip |] eqn:Htip.
  - destruct (Block.isValid (Some tip) block) eqn:Hvalid.
    2:{ rewrite (addBlock_invalid saved block tip bc Htip Hvalid) in Hadd.
        injection Hadd as <- <-. now left. }
    destruct saved.
    2:{ rewrite (addBlock_unsaved block tip bc Htip) in Hadd.
        injection Hadd as <- <-. now left. }
    right. unfold Blockchain.addBlock in Hadd.
    rewrite Htip, isValid_run_eta, Hvalid in Hadd. cbn [negb] in Hadd.
    destruct (isValid_linkage _ _ Hvalid) as (_ & _ & Hheight).
    rewrite afterIsValid_header, Hheight, Z.eqb_refl in Hadd. cbn [negb] in Hadd.
    injection Hadd as <- <-. split; [reflexivity |]. split; [reflexivity |].
    exists tip. split; [reflexivity |]. split; [exact Hvalid |]. split; [| reflexivity].
    unfold Blockchain.updateBlockTimes.
    repeat match goal with
           | |- context [if ?c then _ else _] => destruct c
           | |- context [match ?x with Some _ => _ | None => _ end] => destruct x
           end;
      cbn [Blockchain.with_blockTimes Blockchain.removeTransactionsFromMemPool
           Blockchain.with_memPool Blockchain.chain];
      apply updateUTXOSet_outside.
  - unfold Blockchain.addBlock in Hadd. rewrite Htip in Hadd.
    destruct (Block.isValid_run None block) as [valid block'].
    destruct valid; cbn [negb] in Hadd; [discriminate |].
    injection Hadd as <- <-. now left.
Qed.

Lemma addBlock_chainStep (saved : bool) (block : Block.t) (bc bc' : Blockchain.t) (ok : bool) :
  Blockchain.addBlock saved block bc = Blockchain.Returned ok bc' -> chainStep bc bc'.
Proof.
  intros Hadd.
  destruct (addBlock_chain _ _ _ _ _ Hadd) as [[_ ->] | (_ & _ & tip & Htip & Hvalid & Hchain & _)].
  - now left.
  - right. now exists tip, block.
Qed.

Lemma addTransaction_chain (tx : Transaction.t) (bc bc' : Blockchain.t) (ok : bool) :
  Blockchain.addTransaction tx bc = (ok, bc') -> Blockchain.chain bc' = Blockchain.chain bc.
Proof.
  unfold Blockchain.addTransaction. destruct (Transaction.isValid_run tx) as [valid tx'].
  repeat match goal with
         | |- context [if ?c then _ else _] => destruct c
         end; intros [= <- <-]; reflexivity.
Qed.

Lemma adjustDifficulty_chain (bc : Blockchain.t) :
  Blockchain.chain (Blockchain.adjustDifficulty bc) = Blockchain.chain bc.
Proof.
  unfold Blockchain.adjustDifficulty.
  destruct (_ && _); [| reflexivity]. now destruct (Blockchain.blockTimes bc).
Qed.

Lemma mineBlock_chainStep (fuel : nat) (now : Z) (saved : bool) (minerAddress : string)
    (bc bc' : Blockchain.t) (result : option Block.t) :
  Blockchain.mineBlock fuel now saved minerAddress bc = Blockchain.Returned result bc' ->
  chainStep bc bc'.
Proof.
  unfold Blockchain.mineBlock, Blockchain.selectTransactionsForMining.
  set (bc1 := Blockchain.adjustDifficulty bc).
  set (bc2 := Blockchain.with_memPool _ bc1).
  assert (Hchain : Blockchain.chain bc2 = Blockchain.chain bc)
    by (subst bc2; cbn [Blockchain.with_memPool Blockchain.chain]; apply adjustDifficulty_chain).
  assert (Htip : Blockchain.getLatestBlock bc2 = Blockchain.getLatestBlock bc)
    by (unfold Blockchain.getLatestBlock; now rewrite Hchain).
  destruct (Blockchain.getLatestBlock bc2) as [tip |] eqn:Htip2; [| discriminate].
  destruct (Block.mineBlock _ _ _) as [mined |]; [| discriminate].
  destruct (Blockchain.addBlock saved mined bc2) as [[|] st | e st |] eqn:Hadd;
    try discriminate; intros [= <- <-];
    apply addBlock_chainStep in Hadd;
    (destruct Hadd as [Hsame | (tip' & block & Ht & Hv & Hc)];
     [ left; congruence
     | right; exists tip', block; repeat split; [congruence | assumption | congruence] ]).
Qed.

Lemma chainStep_valid (bc bc' : Blockchain.t) :
  chainStep bc bc' -> Blockchain.isChainValid bc = true -> Blockchain.isChainValid bc' = true.
Proof.
  rewrite !isChainValid_linked. intros [-> | (tip & block & Htip & Hvalid & ->)]; [trivial |].
  unfold Blockchain.getLatestBlock in Htip.
  destruct (Blockchain.chain bc) as [| g rest]; [discriminate Htip |].
  cbn [app]. intros Hlinked. rewrite linked_snoc, Hlinked. cbn [andb].
  rewrite last_cons in Htip.
  replace (default g (last rest)) with tip by (destruct (last rest); now injection Htip).
  now rewrite isValid_afterIsValid_block.
Qed.

Lemma new_chain (fuel : nat) (now : Z) (bc : Blockchain.t) :
  Blockchain.new fuel now = Some bc ->
  exists genesis, Block.createGenesisBlock fuel now = Some genesis
                  /\ Blockchain.chain bc = [genesis].
Proof.
  unfold Blockchain.new. destruct (Block.createGenesisBlock fuel now) as [g |]; [| discriminate].
  intros [= <-]. exists g. split; [reflexivity |].
  cbn [Blockchain.with_blockTimes Blockchain.chain]. apply updateUTXOSet_outside.
Qed.

Lemma reachable_valid (bc : Blockchain.t) : reachable bc -> Blockchain.isChainValid bc = true.
Proof.
  induction 1 as [fuel now bc Hnew | tx bc bc' ok _ IH Hstep
                 | saved block bc bc' ok _ IH Hstep
                 | fuel now saved miner bc bc' result _ IH Hstep].
  - destruct (new_chain _ _ _ Hnew) as (g & _ & Hchain).
    rewrite isChainValid_linked, Hchain. reflexivity.
  - apply (chainStep_valid bc); [left; eapply addTransaction_chain, Hstep | exact IH].
  - apply (chainStep_valid bc); [eapply addBlock_chainStep, Hstep | exact IH].
  - apply (chainStep_valid bc); [eapply mineBlock_chainStep, Hstep | exact IH].
Qed.

Lemma isValid_tampered (p : option Block.t) (b : Block.t) (hash' : string) :
  Block.isValid p b = true -> hash' <> Block.hash b ->
  Block.isValid p (Block.with_hash hash' b) = false.
Proof.
  rewrite !isValid_checks. intros [Hhdr _]%andb_true_iff Hne. unfold headerValid in *.
  apply andb_true_iff in Hhdr as [Hhdr _]. apply andb_true_iff in Hhdr as [Hhdr _].
  apply andb_true_iff in Hhdr as [Hhash _]. apply String.eqb_eq in Hhash.
  change (Block.calculateHash (Block.with_hash hash' b)) with (Block.calculateHash b).
  cbn [Block.with_hash Block.hash].
  destruct (String.eqb_spec hash' (Block.calculateHash b)) as [Heq | _]; [| reflexivity].
  congruence.
Qed.

Lemma linked_tampered (p : Block.t) (rest : list Block.t) (k : nat) (b : Block.t)
    (hash' : string) :
  linked p rest = true -> rest !! k = Some b -> hash' <> Block.hash b ->
  linked p (alter (Block.with_hash hash') k rest) = false.
Proof.
  revert p k. induction rest as [| c rest IH]; intros p k Hlinked Hk Hne; [discriminate Hk |].
  cbn [linked] in Hlinked. apply andb_true_iff in Hlinked as [Hc Hrest].
  destruct k as [| k]; cbn [alter list_alter linked].
  - injection Hk as ->. now rewrite (isValid_tampered _ _ _ Hc Hne).
  - rewrite (IH c k Hrest Hk Hne). apply andb_false_r.
Qed.

(** C6, as amended.  [isChainValid()] is true on every ledger that calls
    produce from a fresh one (in particular on the genesis-only chain and
    after every successful [mineBlock]), and on such a ledger with at least
    two blocks it turns false when the stored hash of any block is
    replaced by another string. *)
Theorem isChainValid_reachable (bc : Blockchain.t) :
  reachable bc ->
  Blockchain.isChainValid bc = true
  /\ forall (k : nat) (b : Block.t) (hash' : string),
       (2 <= length (Blockchain.chain bc))%nat ->
       Blockchain.chain bc !! k = Some b ->
       hash' <> Block.hash b ->
       Blockchain.isChainValid (tamperHash k hash' bc) = false.
Proof.
  intros Hreach. pose proof (reachable_valid bc Hreach) as Hvalid.
  split; [exact Hvalid |]. intros k b hash' Hlen Hk Hne.
  rewrite isChainValid_linked in *. unfold tamperHash.
  cbn [Blockchain.with_chain Blockchain.chain].
  destruct (Blockchain.chain bc) as [| g [| b1 rest]]; cbn [length] in Hlen; try lia.
  destruct k as [| k]; cbn [alter list_alter].
  - injection Hk as ->. cbn [linked] in *.
    apply andb_true_iff in Hvalid as [Hb1 _].
    destruct (isValid_linkage _ _ Hb1) as (_ & Hprev & _).
    rewrite isValid_checks. unfold headerValid. cbn [Block.with_hash Block.hash].
    rewrite Hprev.
    destruct (String.eqb_spec (Block.hash b) hash') as [Heq | _]; [congruence |].
    now rewrite !andb_false_r.
  - now apply (linked_tampered g (b1 :: rest) k b).
Qed.

(** *** Selection for mining *)

Lemma insertSorted_elem {A : Type} (before : A -> A -> bool) (x y : A) (l : list A) :
  y ∈ Blockchain.insertSorted before x l <-> y = x \/ y ∈ l.
Proof.
  induction l as [| z r IH]; cbn [Blockchain.insertSorted].
  - rewrite list_elem_of_singleton, elem_of_nil. tauto.
  - destruct (before z x).
    + rewrite !elem_of_cons, IH. tauto.
    + rewrite !elem_of_cons. tauto.
Qed.

Lemma stableSort_elem {A : Type} (before : A -> A -> bool) (y : A) (l : list A) :
  y ∈ Blockchain.stableSort before l <-> y ∈ l.
Proof.
  unfold Blockchain.stableSort. induction l as [| x r IH]; cbn [fold_right]; [reflexivity |].
  rewrite insertSorted_elem, elem_of_cons, IH. tauto.
Qed.

Lemma insertSorted_length {A : Type} (before : A -> A -> bool) (x : A) (l : list A) :
  length (Blockchain.insertSorted before x l) = S (length l).
Proof.
  induction l as [| z r IH]; cbn [Blockchain.insertSorted]; [reflexivity |].
  destruct (before z x); cbn [length]; now rewrite ?IH.
Qed.

Lemma stableSort_length {A : Type} (before : A -> A -> bool) (l : list A) :
  length (Blockchain.stableSort before l) = length l.
Proof.
  unfold Blockchain.stableSort. induction l as [| x r IH]; cbn [fold_right length]; [reflexivity |].
  now rewrite insertSorted_length, IH.
Qed.

(** The selection looks at the pool only: whatever the unspent-output index
    holds, every pool transaction that passes [isValid()] is selected, as
    long as the pool holds no more than the cap. *)
Lemma selection_keeps_valid (maxTransactions : nat) (tx : Transaction.t) (bc : Blockchain.t) :
  tx ∈ Blockchain.memPool bc ->
  Transaction.isValid tx = true ->
  (length (Blockchain.memPool bc) <= maxTransactions)%nat ->
  Transaction.afterIsValid tx ∈ fst (Blockchain.selectTransactionsForMining maxTransactions bc).
Proof.
  intros Hin Hvalid Hcap. unfold Blockchain.selectTransactionsForMining. cbn [fst].
  rewrite take_ge.
  - apply stableSort_elem, list_elem_of_In, in_map_iff.
    exists (Transaction.isValid_run tx). split; [reflexivity |].
    apply filter_In. split; [| exact Hvalid].
    apply in_map. now apply list_elem_of_In.
  - rewrite stableSort_length, length_map.
    etransitivity; [apply List.filter_length_le |]. now rewrite length_map.
Qed.

(** *** Balances and the unspent-output index *)














Lemma blockOutputKeys_afterIsValid (q : option Block.t) (block : Block.t) :
  Block.isValid q block = true ->
  blockOutputKeys (Block.afterIsValid q block) = blockOutputKeys block.
Proof.
  intros Hvalid. rewrite (afterIsValid_valid _ _ Hvalid).
  unfold blockOutputKeys. cbn [Block.with_transactions Block.transactions].
  induction (Block.transactions block) as [| tx rest IH]; [reflexivity |].
  cbn [map flat_map]. rewrite IH. f_equal.
  unfold outputKeys. now rewrite afterIsValid_id, afterIsValid_outputs.
Qed.






End LedgerFacts.

(** ** Difficulty targets *)

Section HashFacts.
Context `{Crypto}.

Lemma substring_prefix (target s : string) :
  String.eqb (substring 0 (String.length target) s) target = String.prefix target s.
Proof.
  revert s. induction target as [| a target IH]; intros [| b s]; try reflexivity.
  cbn [String.length substring String.prefix].
  change (String.eqb (String b (substring 0 (String.length target) s)) (String a target))
    with (Ascii.eqb b a && String.eqb (substring 0 (String.length target) s) target).
  rewrite IH. destruct (ascii_dec a b) as [-> | Hne].
  - now rewrite Ascii.eqb_refl.
  - destruct (Ascii.eqb_spec b a) as [-> | _]; [contradiction | reflexivity].
Qed.

(** X1.  [Hash.meetsDifficulty(hash, difficulty)] is true exactly when the
    hash starts with [difficulty] characters ['0']. *)
Theorem meetsDifficulty_startsWith (hash : string) (difficulty : nat) :
  Hash.meetsDifficulty hash difficulty
  = String.prefix (JSON.repeat "0" difficulty) hash.
Proof.
  unfold Hash.meetsDifficulty.
  rewrite <- (repeat_length difficulty) at 1. apply substring_prefix.
Qed.


End HashFacts.

(** ** Multi-signatures *)

Section MultiSigFacts.
Context `{Crypto}.

Lemma countValidSigs_filter (data : string) (signatures publicKeys : list string)
    (validSigs : nat) :
  Signature.countValidSigs data signatures publicKeys validSigs
  = (validSigs + length (validAtPosition data signatures publicKeys))%nat.
Proof.
  unfold validAtPosition. revert publicKeys validSigs.
  induction signatures as [| s signatures IH]; intros [| k publicKeys] validSigs;
    cbn [Signature.countValidSigs combine List.filter length fst snd]; try lia.
  rewrite IH. destruct (Signature.verify data s k); cbn [length]; lia.
Qed.

(** X3.  [verifyMultiSig] accepts exactly when at least [requiredSigs]
    signatures are given and at least [requiredSigs] of them verify
    against the public key at their own position: a signature is never
    tried against the key of another position, and the signatures beyond
    the number of keys are not tried. *)
Theorem verifyMultiSig_positional (data : string) (signatures publicKeys : list string)
    (requiredSigs : Z) :
  Signature.verifyMultiSig data signatures publicKeys requiredSigs
  = (requiredSigs <=? Z.of_nat (length signatures))
    && (requiredSigs <=? Z.of_nat (length (validAtPosition data signatures publicKeys))).
Proof.
  unfold Signature.verifyMultiSig. rewrite countValidSigs_filter. cbn [Nat.add].
  destruct (Z.ltb_spec (Z.of_nat (length signatures)) requiredSigs) as [Hfew | Henough];
    destruct (Z.leb_spec requiredSigs (Z.of_nat (length signatures))); try lia; reflexivity.
Qed.

End MultiSigFacts.

(** ** Signing and validity *)

Section SigningFacts.
Context `{Crypto}.

Lemma signTransaction_run (privateKey : string) (i : nat) (tx : Transaction.t)
    (input : TransactionInput.t) :
  Transaction.inputs tx !! i = Some input ->
  TransactionInput.publicKey input = Signature.getPublicKey privateKey ->
  Transaction.signTransaction privateKey (Z.of_nat i) tx
  = inr (Transaction.with_inputs (<[i := signedWith privateKey tx input]> (Transaction.inputs tx)) tx).
Proof.
  intros Hin Hkey. pose proof (lookup_lt_Some _ _ _ Hin) as Hlt.
  unfold Transaction.signTransaction.
  destruct (Z.leb_spec (Z.of_nat (length (Transaction.inputs tx))) (Z.of_nat i)); [lia |].
  destruct (Z.ltb_spec (Z.of_nat i) 0); [lia |].
  now rewrite Nat2Z.id, Hin, Hkey, String.eqb_refl.
Qed.

Lemma signTransaction_returns (privateKey : string) (i : nat) (tx tx' : Transaction.t)
    (input : TransactionInput.t) :
  Transaction.inputs tx !! i = Some input ->
  Transaction.signTransaction privateKey (Z.of_nat i) tx = inr tx' ->
  TransactionInput.publicKey input = Signature.getPublicKey privateKey.
Proof.
  intros Hin Hrun.
  destruct (String.eqb_spec (TransactionInput.publicKey input)
              (Signature.getPublicKey privateKey)) as [Heq | Hne]; [exact Heq |].
  rewrite (signTransaction_key_mismatch _ _ _ _ Hin Hne) in Hrun. discriminate Hrun.
Qed.

Lemma inputVerifies_signedWith (privateKey : string) (tx tx' : Transaction.t)
    (input : TransactionInput.t) :
  Transaction.timestamp tx' = Transaction.timestamp tx ->
  TransactionInput.publicKey input = Signature.getPublicKey privateKey ->
  signsAndVerifies privateKey tx input ->
  Transaction.inputVerifies tx' (signedWith privateKey tx input) = true.
Proof.
  intros Hts Hkey (Hsig & Hpub & Hverify). unfold Transaction.inputVerifies, signedWith.
  cbn [TransactionInput.with_signature TransactionInput.signature TransactionInput.publicKey].
  destruct (String.eqb_spec (Signature.sign (JSON.stringify (Transaction.signatureData tx input))
                               privateKey) "") as [Hempty | _]; [contradiction |].
  rewrite Hkey.
  destruct (String.eqb_spec (Signature.getPublicKey privateKey) "") as [Hempty | _];
    [contradiction |].
  cbn [orb].
  replace (Transaction.signatureData tx' _) with (Transaction.signatureData tx input);
    [exact Hverify |].
  unfold Transaction.signatureData. rewrite Hts. reflexivity.
Qed.

(** X4.  When [signTransaction(privateKey, i)] returns and the library
    verifies the signature that it makes for the message of input [i]
    under the key (neither that signature nor the public key being the
    empty string), input [i] of the transaction passes the check that
    [verifySignatures] makes of every input. *)
Theorem signTransaction_verifies (privateKey : string) (i : nat) (tx tx' : Transaction.t)
    (input : TransactionInput.t) :
  Transaction.inputs tx !! i = Some input ->
  Transaction.signTransaction privateKey (Z.of_nat i) tx = inr tx' ->
  signsAndVerifies privateKey tx input ->
  exists input', Transaction.inputs tx' !! i = Some input'
                 /\ Transaction.inputVerifies tx' input' = true.
Proof.
  intros Hin Hrun Hlib.
  pose proof (signTransaction_returns _ _ _ _ _ Hin Hrun) as Hkey.
  rewrite (signTransaction_run _ _ _ _ Hin Hkey) in Hrun. injection Hrun as <-.
  exists (signedWith privateKey tx input). split.
  - cbn [Transaction.with_inputs Transaction.inputs].
    apply list_lookup_insert_eq. now apply (lookup_lt_Some _ _ _ Hin).
  - now apply inputVerifies_signedWith.
Qed.

(** X5.  A transaction that is not a coinbase transaction and has an input
    whose signature or whose public key is the empty string is not valid. *)
Theorem isValid_needs_signatures (tx : Transaction.t) (input : TransactionInput.t) :
  In input (Transaction.inputs tx) ->
  TransactionInput.signature input = "" \/ TransactionInput.publicKey input = "" ->
  Transaction.isCoinbase tx = false ->
  Transaction.isValid tx = false.
Proof.
  intros Hin Hblank Hcb.
  assert (Hsig : Transaction.verifySignatures tx = false).
  { unfold Transaction.verifySignatures.
    destruct (forallb _ _) eqn:Hall; [| reflexivity].
    rewrite forallb_forall in Hall. specialize (Hall input Hin).
    unfold Transaction.inputVerifies in Hall.
    destruct Hblank as [Hblank | Hblank]; rewrite Hblank in Hall; cbn [String.eqb orb] in Hall;
      [discriminate Hall |].
    now rewrite orb_true_r in Hall. }
  unfold Transaction.isValid, Transaction.isValid_run. rewrite Hcb, Hsig.
  now destruct (_ && _).
Qed.

Lemma createCoinbase_isCoinbase (now : Z) (minerAddress : string) (reward : Q) (blockHeight : Z) :
  Transaction.isCoinbase (Transaction.createCoinbase now minerAddress reward blockHeight) = true.
Proof.
  unfold Transaction.isCoinbase.
  change (Transaction.inputs (Transaction.createCoinbase now minerAddress reward blockHeight))
    with [TransactionInput.mk Transaction.zeroId (-1) "" "" reward None].
  cbn [TransactionInput.txId TransactionInput.outputIndex].
  now rewrite String.eqb_refl.
Qed.


End SigningFacts.

(** ** [createTransaction] *)

Section CreateTransactionFacts.
Context `{Crypto}.



Lemma sum_acc {A : Type} (f : A -> Q) (l : list A) (acc : Q) :
  (fold_left (fun sum x => sum + f x) l acc == acc + Number.sum f l)%Q.
Proof.
  unfold Number.sum. revert acc. induction l as [| x r IH]; intros acc; cbn [fold_left].
  - ring.
  - rewrite (IH (acc + f x)%Q), (IH (0 + f x)%Q). ring.
Qed.


(** The selection loop takes a prefix of the candidates; it stops at the
    first length at which the running total reaches the required amount,
    or takes them all. *)
Lemma selectInputs_prefix (requiredAmount : Q) (utxos : list TransactionInput.t)
    (totalInput : Q) (selectedInputs : list TransactionInput.t) :
  exists n : nat,
    (n <= length utxos)%nat
    /\ Transaction.selectInputs requiredAmount utxos totalInput selectedInputs
       = (fold_left (fun sum utxo => (sum + TransactionInput.amount utxo)%Q)
            (take n utxos) totalInput,
          selectedInputs ++ take n utxos)
    /\ (forall m, (0 < m < n)%nat ->
          Number.leb requiredAmount
            (fold_left (fun sum utxo => (sum + TransactionInput.amount utxo)%Q)
               (take m utxos) totalInput) = false).
Proof.
  revert totalInput selectedInputs.
  induction utxos as [| utxo rest IH]; intros totalInput selectedInputs.
  - exists 0%nat. split; [reflexivity |]. split; [| intros m Hm; lia].
    cbn [Transaction.selectInputs take fold_left]. now rewrite app_nil_r.
  - cbn [Transaction.selectInputs].
    destruct (Number.leb requiredAmount (totalInput + TransactionInput.amount utxo))
      eqn:Hreached.
    + exists 1%nat. split; [cbn [length]; lia |]. split; [reflexivity | intros m Hm; lia].
    + destruct (IH (totalInput + TransactionInput.amount utxo)%Q (selectedInputs ++ [utxo]))
        as (n & Hn & Hrun & Hless).
      exists (S n). split; [cbn [length]; lia |]. split.
      * rewrite Hrun. cbn [take fold_left]. now rewrite <- app_assoc.
      * intros [| [| m]] Hm; [lia | exact Hreached |].
        cbn [take fold_left]. apply Hless. lia.
Qed.

Lemma with_inputs_same (tx : Transaction.t) :
  Transaction.with_inputs (Transaction.inputs tx) tx = tx.
Proof. now destruct tx. Qed.

(** The signing loop succeeds exactly on inputs of the key, and signs
    each of them. *)
Lemma signInputs_inr (privateKey : string) (todo done : list TransactionInput.t)
    (tx tx' : Transaction.t) :
  Transaction.inputs tx = done ++ todo ->
  Transaction.signInputs privateKey (length todo) (length done) tx = inr tx' ->
  (forall input, In input todo ->
     TransactionInput.publicKey input = Signature.getPublicKey privateKey)
  /\ tx' = Transaction.with_inputs (done ++ map (signedWith privateKey tx) todo) tx.
Proof.
  revert done tx. induction todo as [| input todo IH]; intros done tx Hinputs Hrun.
  - cbn [length Transaction.signInputs] in Hrun. injection Hrun as <-.
    split; [intros input [] |]. cbn [map]. rewrite <- Hinputs. symmetry. apply with_inputs_same.
  - cbn [length Transaction.signInputs] in Hrun.
    assert (Hin : Transaction.inputs tx !! length done = Some input).
    { rewrite Hinputs, lookup_app_r by lia. now rewrite Nat.sub_diag. }
    destruct (Transaction.signTransaction privateKey (Z.of_nat (length done)) tx)
      as [e | tx1] eqn:Hsign; [discriminate Hrun |].
    pose proof (signTransaction_returns _ _ _ _ _ Hin Hsign) as Hkey.
    rewrite (signTransaction_run _ _ _ _ Hin Hkey) in Hsign. injection Hsign as <-.
    assert (Hinserted : <[length done := signedWith privateKey tx input]> (Transaction.inputs tx)
                        = (done ++ [signedWith privateKey tx input]) ++ todo).
    { rewrite Hinputs, insert_app_r_alt by lia. rewrite Nat.sub_diag. cbn [insert list_insert].
      now rewrite <- app_assoc. }
    rewrite Hinserted in Hrun.
    replace (S (length done)) with (length (done ++ [signedWith privateKey tx input])) in Hrun
      by (rewrite length_app; cbn [length]; lia).
    apply IH in Hrun; [| reflexivity].
    destruct Hrun as [Hkeys ->]. split.
    + intros x [<- | Hx]; [exact Hkey | now apply Hkeys].
    + cbn [map]. now rewrite <- app_assoc.
Qed.

(** What [createTransaction] returns when it returns. *)
Lemma createTransaction_inr (now : Z) (fromAddress toAddress : string) (amount : Q)
    (utxos : list TransactionInput.t) (privateKey : string) (tx : Transaction.t) :
  Transaction.createTransaction now fromAddress toAddress amount utxos privateKey = inr tx ->
  exists n : nat,
    let selected := take n utxos in
    let total := Number.sum TransactionInput.amount selected in
    let outputs :=
      if Number.ltb 0 (total - amount - (1 # 1000))
      then [TransactionOutput.mk toAddress amount None;
            TransactionOutput.mk fromAddress (total - amount - (1 # 1000))%Q None]
      else [TransactionOutput.mk toAddress amount None] in
    let draft := Transaction.new now selected outputs None in
    let signed := Transaction.with_inputs (map (signedWith privateKey draft) selected) draft in
    let priced := Transaction.with_fee (Transaction.calculateFee signed) signed in
    (amount + (1 # 1000) <= total)%Q
    /\ (forall m, (0 < m < n)%nat ->
          (Number.sum TransactionInput.amount (take m utxos) < amount + (1 # 1000))%Q)
    /\ (forall input, In input selected ->
          TransactionInput.publicKey input = Signature.getPublicKey privateKey)
    /\ tx = Transaction.with_id (Transaction.calculateHash priced) priced.
Proof.
  unfold Transaction.createTransaction.
  destruct (selectInputs_prefix (amount + (1 # 1000)) utxos 0 []) as (n & Hn & -> & Hless).
  cbn [app]. fold (Number.sum TransactionInput.amount (take n utxos)).
  set (total := Number.sum TransactionInput.amount (take n utxos)).
  destruct (Number.ltb total (amount + (1 # 1000))) eqn:Hfunds; [discriminate |].
  set (outputs := if Number.ltb 0 (total - amount - (1 # 1000)) then _ else _).
  destruct (Transaction.signInputs privateKey _ 0 _) as [e | signed] eqn:Hsign; [discriminate |].
  intros [= <-]. exists n. cbn zeta. fold total.
  apply (signInputs_inr privateKey (take n utxos) []) in Hsign; [| reflexivity].
  destruct Hsign as [Hkeys ->]. cbn [app].
  split; [now apply ltb_false |]. split.
  { intros m Hm. apply leb_false. apply (Hless m Hm). }
  split; [exact Hkeys |].
  subst outputs. now destruct (Number.ltb 0 (total - amount - (1 # 1000))).
Qed.



(** X9.  When [createTransaction] returns, every input of the transaction
    holds the public key of the private key and the signature of its
    message under it; the id is the hash of the transaction, the stored
    fee is its computed fee and the timestamp is the time of the call. *)
Theorem createTransaction_signed (now : Z) (fromAddress toAddress : string) (amount : Q)
    (utxos : list TransactionInput.t) (privateKey : string) (tx : Transaction.t) :
  Transaction.createTransaction now fromAddress toAddress amount utxos privateKey = inr tx ->
  (forall input, In input (Transaction.inputs tx) ->
     TransactionInput.publicKey input = Signature.getPublicKey privateKey
     /\ TransactionInput.signature input
        = Signature.sign (JSON.stringify (Transaction.signatureData tx input)) privateKey)
  /\ Transaction.id tx = Transaction.calculateHash tx
  /\ Transaction.fee tx = Transaction.calculateFee tx
  /\ Transaction.timestamp tx = now.
Proof.
  intros Hrun. destruct (createTransaction_inr _ _ _ _ _ _ _ Hrun) as (n & _ & _ & Hkeys & ->).
  split; [| repeat split].
  intros input Hin.
  cbn [Transaction.with_id Transaction.with_fee Transaction.with_inputs Transaction.inputs] in Hin.
  apply in_map_iff in Hin as (utxo & <- & Hutxo). split.
  - change (TransactionInput.publicKey utxo = Signature.getPublicKey privateKey).
    now apply Hkeys.
  - reflexivity.
Qed.





End CreateTransactionFacts.

(** ** Rewards, the proof-of-work search and the fees of a block *)

Section BlockBodyFacts.
Context `{Crypto}.


Lemma attempt_next (b : Block.t) (n : nat) :
  Block.updateHash
    (Block.with_header
       (BlockHeader.with_nonce (S (BlockHeader.nonce (Block.header (attempt b n))))
          (Block.header (attempt b n))) (attempt b n))
  = attempt b (S n).
Proof. reflexivity. Qed.

Lemma mineLoop_first (target : string) (b : Block.t) (n : nat) :
  firstSolution target b n ->
  forall (gap fuel k : nat),
    (k + gap = n)%nat -> (gap <= fuel)%nat ->
    Block.mineLoop fuel target (attempt b k) = Some (attempt b n).
Proof.
  intros [Hsolved Hnot]. induction gap as [| gap IH]; intros fuel k Hk Hfuel.
  - replace k with n by lia. destruct fuel; cbn [Block.mineLoop]; now rewrite Hsolved.
  - destruct fuel as [| fuel]; [lia |]. cbn [Block.mineLoop].
    rewrite (Hnot k) by lia. rewrite attempt_next. apply IH; lia.
Qed.

Lemma mineLoop_sound (target : string) (b : Block.t) (fuel k : nat) (b' : Block.t) :
  (forall m, (m < k)%nat -> String.prefix target (Block.hash (attempt b m)) = false) ->
  Block.mineLoop fuel target (attempt b k) = Some b' ->
  exists n, (k <= n <= k + fuel)%nat /\ b' = attempt b n /\ firstSolution target b n.
Proof.
  revert k. induction fuel as [| fuel IH]; intros k Hbefore Hloop; cbn [Block.mineLoop] in Hloop.
  - destruct (String.prefix target (Block.hash (attempt b k))) eqn:Hk; [| discriminate].
    injection Hloop as <-. exists k. split; [lia |]. split; [reflexivity |]. now split.
  - destruct (String.prefix target (Block.hash (attempt b k))) eqn:Hk.
    + injection Hloop as <-. exists k. split; [lia |]. split; [reflexivity |]. now split.
    + rewrite attempt_next in Hloop. apply IH in Hloop.
      * destruct Hloop as (n & Hn & -> & Hfirst). exists n. split; [lia |]. now split.
      * intros m Hm. destruct (decide (m = k)) as [-> | Hne]; [exact Hk | apply Hbefore; lia].
Qed.

(** X13.  [mineBlock] of a block returns within the fuel exactly when some
    nonce up to the fuel gives a hash that starts with the target, and the
    block it returns holds the first such nonce, counted from 0, and its
    hash. *)
Theorem mineBlock_first_nonce (fuel : nat) (difficulty : option nat) (b b' : Block.t) :
  Block.mineBlock fuel difficulty b = Some b'
  <-> exists n : nat,
        (n <= fuel)%nat
        /\ firstSolution (miningTarget difficulty b) b n
        /\ b' = Block.updateSize (attempt b n).
Proof.
  unfold Block.mineBlock. fold (miningTarget difficulty b). fold (attempt b 0).
  split.
  - destruct (Block.mineLoop fuel _ _) as [mined |] eqn:Hloop; [| discriminate].
    intros [= <-]. apply mineLoop_sound in Hloop; [| intros m Hm; lia].
    destruct Hloop as (n & Hn & -> & Hfirst). exists n. split; [lia |]. now split.
  - intros (n & Hn & Hfirst & ->).
    now rewrite (mineLoop_first _ _ _ Hfirst n fuel 0%nat) by lia.
Qed.

(** X14.  [addTransaction] of a block accepts a transaction exactly when
    it is valid and not a coinbase transaction.  It then appends the
    transaction and recomputes the Merkle root and the hash without
    touching the other header fields, the nonce included; when it refuses,
    the block is as before. *)
Theorem addTransaction_appends (transaction : Transaction.t) (b : Block.t) :
  let accepted := Transaction.isValid transaction && negb (Transaction.isCoinbase transaction) in
  let b' := snd (Block.addTransaction transaction b) in
  fst (Block.addTransaction transaction b) = accepted
  /\ (if accepted
      then Block.transactions b' = Block.transactions b ++ [Transaction.afterIsValid transaction]
           /\ hashed b'
           /\ sameFixedHeader (Block.header b) (Block.header b')
           /\ BlockHeader.nonce (Block.header b') = BlockHeader.nonce (Block.header b)
      else b' = b).
Proof.
  cbn zeta. unfold Block.addTransaction.
  rewrite <- (afterIsValid_isCoinbase transaction).
  unfold Transaction.isValid, Transaction.afterIsValid.
  destruct (Transaction.isValid_run transaction) as [valid transaction']. cbn [fst snd negb].
  destruct valid; cbn [negb andb]; [| now split].
  destruct (Transaction.isCoinbase transaction'); cbn [negb fst snd]; [now split |].
  split; [reflexivity |]. split; [reflexivity |]. split; [apply updateHash_hashed |].
  split; [| reflexivity]. repeat split.
Qed.






End BlockBodyFacts.

(** ** The steps of a ledger *)

Section LedgerSteps.
Context `{Crypto}.

Lemma isValid_run_eta_tx (tx : Transaction.t) :
  Transaction.isValid_run tx = (Transaction.isValid tx, Transaction.afterIsValid tx).
Proof. unfold Transaction.isValid, Transaction.afterIsValid. now destruct (Transaction.isValid_run tx). Qed.

(** What [addTransaction] does: nothing, or it appends the transaction,
    which has passed the four checks, to the pool. *)
Lemma addTransaction_cases (tx : Transaction.t) (bc bc' : Blockchain.t) (ok : bool) :
  Blockchain.addTransaction tx bc = (ok, bc') ->
  (ok = false /\ bc' = bc)
  \/ (ok = true /\ bc' = pooled tx bc
      /\ Transaction.isValid tx = true
      /\ existsb (fun tx' => String.eqb (Transaction.id tx') (Transaction.id tx))
           (Blockchain.memPool bc) = false
      /\ Blockchain.isTransactionInBlockchain (Transaction.id tx) bc = false
      /\ Blockchain.inputsUnspent tx bc = true).
Proof.
  unfold Blockchain.addTransaction. rewrite isValid_run_eta_tx.
  unfold Blockchain.inputsUnspent. rewrite afterIsValid_id, afterIsValid_inputs.
  destruct (Transaction.isValid tx); cbn [negb]; [| intros [= <- <-]; now left].
  destruct (existsb _ (Blockchain.memPool bc)); [intros [= <- <-]; now left |].
  destruct (Blockchain.isTransactionInBlockchain _ bc); [intros [= <- <-]; now left |].
  destruct (forallb _ _); cbn [negb]; intros [= <- <-]; [right | now left].
  repeat split.
Qed.

Lemma addBlock_cases (saved : bool) (block : Block.t) (bc bc' : Blockchain.t) (ok : bool) :
  Blockchain.addBlock saved block bc = Blockchain.Returned ok bc' ->
  (ok = false /\ bc' = bc)
  \/ (ok = true /\ saved = true
      /\ exists tip, Blockchain.getLatestBlock bc = Some tip
                     /\ Block.isValid (Some tip) block = true
                     /\ bc' = admitted tip block bc).
Proof.
  intros Hadd. destruct (addBlock_chain _ _ _ _ _ Hadd)
    as [Hno | (Hok & Hsaved & tip & Htip & Hvalid & _ & Hbc)]; [now left |].
  right. split; [exact Hok |]. split; [exact Hsaved |]. now exists tip.
Qed.

(** What [mineBlock] does when it returns: the difficulty adjustment, the
    validation of the pool, and an [addBlock] of the block it has mined. *)
Lemma mineBlock_cases (fuel : nat) (now : Z) (saved : bool) (minerAddress : string)
    (bc bc' : Blockchain.t) (result : option Block.t) :
  Blockchain.mineBlock fuel now saved minerAddress bc = Blockchain.Returned result bc' ->
  let bc1 := revalidated (Blockchain.adjustDifficulty bc) in
  exists (tip mined : Block.t),
    Blockchain.getLatestBlock bc1 = Some tip
    /\ Block.mineBlock fuel (Some (Blockchain.difficulty bc1))
         (Block.new now
            (Transaction.createCoinbase now minerAddress
               (Block.getBlockReward (Z.of_nat (length (Blockchain.chain bc1)))
                + Number.sum Transaction.fee
                    (fst (Blockchain.selectTransactionsForMining 100
                            (Blockchain.adjustDifficulty bc))))
               (Z.of_nat (length (Blockchain.chain bc1)))
             :: fst (Blockchain.selectTransactionsForMining 100 (Blockchain.adjustDifficulty bc)))
            (Block.hash tip) (BlockHeader.height (Block.header tip) + 1)
            (Blockchain.difficulty bc1)) = Some mined
    /\ ((result = None /\ bc' = bc1)
        \/ (result = Some (Block.afterIsValid (Some tip) mined)
            /\ saved = true
            /\ Block.isValid (Some tip) mined = true
            /\ bc' = admitted tip mined bc1)).
Proof.
  unfold Blockchain.mineBlock. cbn zeta.
  assert (Hsel : Blockchain.selectTransactionsForMining 100 (Blockchain.adjustDifficulty bc)
                 = (fst (Blockchain.selectTransactionsForMining 100 (Blockchain.adjustDifficulty bc)),
                    revalidated (Blockchain.adjustDifficulty bc))).
  { unfold Blockchain.selectTransactionsForMining, revalidated. cbn [fst]. f_equal. f_equal.
    rewrite map_map. apply map_ext. reflexivity. }
  rewrite Hsel at 1. cbn [fst].
  set (bc1 := revalidated (Blockchain.adjustDifficulty bc)).
  destruct (Blockchain.getLatestBlock bc1) as [tip |] eqn:Htip; [| discriminate].
  destruct (Block.mineBlock _ _ _) as [mined |] eqn:Hmine; [| discriminate].
  destruct (Blockchain.addBlock saved mined bc1) as [[|] st | e st |] eqn:Hadd;
    try discriminate; intros [= <- <-]; exists tip, mined;
    (split; [reflexivity |]); (split; [exact Hmine |]);
    destruct (addBlock_cases _ _ _ _ _ Hadd)
      as [[Hno ->] | (Hok & -> & tip' & Htip' & Hvalid & ->)]; try discriminate.
  - right. assert (tip' = tip) as -> by congruence. repeat split. exact Hvalid.
  - now left.
Qed.

(** Every ledger that calls produce from a fresh one is built by five
    kinds of steps; a property that the fresh ledger has and that every
    step keeps holds of all of them. *)
Lemma reachable_steps (P : Blockchain.t -> Prop) :
  (forall fuel now bc, Blockchain.new fuel now = Some bc -> P bc) ->
  (forall tx bc,
     P bc -> Transaction.isValid tx = true ->
     existsb (fun tx' => String.eqb (Transaction.id tx') (Transaction.id tx))
       (Blockchain.memPool bc) = false ->
     Blockchain.isTransactionInBlockchain (Transaction.id tx) bc = false ->
     Blockchain.inputsUnspent tx bc = true ->
     P (pooled tx bc)) ->
  (forall bc, P bc -> P (Blockchain.adjustDifficulty bc)) ->
  (forall bc, P bc -> P (revalidated bc)) ->
  (forall tip block bc,
     P bc -> Blockchain.getLatestBlock bc = Some tip ->
     Block.isValid (Some tip) block = true ->
     P (admitted tip block bc)) ->
  forall bc, reachable bc -> P bc.
Proof.
  intros Hnew Hpool Hadjust Hrevalidate Hadmit.
  induction 1 as [fuel now bc Hstart | tx bc bc' ok _ IH Hstep
                 | saved block bc bc' ok _ IH Hstep
                 | fuel now saved miner bc bc' result _ IH Hstep].
  - now apply (Hnew fuel now).
  - destruct (addTransaction_cases _ _ _ _ Hstep)
      as [[_ ->] | (_ & -> & Hvalid & Hfresh & Hchain & Hunspent)]; [exact IH |].
    now apply Hpool.
  - destruct (addBlock_cases _ _ _ _ _ Hstep)
      as [[_ ->] | (_ & _ & tip & Htip & Hvalid & ->)]; [exact IH |].
    now apply Hadmit.
  - destruct (mineBlock_cases _ _ _ _ _ _ _ Hstep)
      as (tip & mined & Htip & _ & [[_ ->] | (_ & _ & Hvalid & ->)]).
    + now apply Hrevalidate, Hadjust.
    + apply Hadmit; [now apply Hrevalidate, Hadjust | exact Htip | exact Hvalid].
Qed.

End LedgerSteps.

(** ** Heights and the pool *)

Section LedgerInvariants.
Context `{Crypto}.

(** *** The fields after each step *)

Lemma updateBlockTimes_fields (block : Block.t) (bc : Blockchain.t) :
  Blockchain.chain (Blockchain.updateBlockTimes block bc) = Blockchain.chain bc
  /\ Blockchain.difficulty (Blockchain.updateBlockTimes block bc) = Blockchain.difficulty bc
  /\ Blockchain.miningReward (Blockchain.updateBlockTimes block bc) = Blockchain.miningReward bc
  /\ Blockchain.memPool (Blockchain.updateBlockTimes block bc) = Blockchain.memPool bc
  /\ Blockchain.utxoSet (Blockchain.updateBlockTimes block bc) = Blockchain.utxoSet bc
  /\ Blockchain.addressBalances (Blockchain.updateBlockTimes block bc)
     = Blockchain.addressBalances bc.
Proof.
  unfold Blockchain.updateBlockTimes.
  repeat match goal with
         | |- context [if ?c then _ else _] => destruct c
         | |- context [match ?x with Some _ => _ | None => _ end] => destruct x
         end; repeat split.
Qed.

Lemma admitted_fields (tip block : Block.t) (bc : Blockchain.t) :
  let block' := Block.afterIsValid (Some tip) block in
  let indexed :=
    Blockchain.updateUTXOSet block' (Blockchain.with_chain (Blockchain.chain bc ++ [block']) bc) in
  Blockchain.chain (admitted tip block bc) = Blockchain.chain bc ++ [block']
  /\ Blockchain.difficulty (admitted tip block bc) = Blockchain.difficulty bc
  /\ Blockchain.miningReward (admitted tip block bc) = Blockchain.miningReward bc
  /\ Blockchain.memPool (admitted tip block bc)
     = List.filter
         (fun tx => negb (bool_decide (Transaction.id tx
                                       ∈ map Transaction.id (Block.transactions block'))))
         (Blockchain.memPool bc)
  /\ Blockchain.utxoSet (admitted tip block bc) = Blockchain.utxoSet indexed
  /\ Blockchain.addressBalances (admitted tip block bc) = Blockchain.addressBalances indexed.
Proof.
  cbn zeta. unfold admitted.
  set (block' := Block.afterIsValid (Some tip) block).
  set (bc0 := Blockchain.with_chain (Blockchain.chain bc ++ [block']) bc).
  destruct (updateUTXOSet_outside block' bc0) as (Hc & Hd & Hr & Hp & _).
  destruct (updateBlockTimes_fields block'
              (Blockchain.removeTransactionsFromMemPool (Block.transactions block')
                 (Blockchain.updateUTXOSet block' bc0)))
    as (-> & -> & -> & -> & -> & ->).
  cbn [Blockchain.removeTransactionsFromMemPool Blockchain.with_memPool Blockchain.chain
       Blockchain.difficulty Blockchain.miningReward Blockchain.memPool Blockchain.utxoSet
       Blockchain.addressBalances].
  rewrite Hc, Hd, Hr, Hp. repeat split.
Qed.

Lemma admitted_chain (tip block : Block.t) (bc : Blockchain.t) :
  Blockchain.chain (admitted tip block bc)
  = Blockchain.chain bc ++ [Block.afterIsValid (Some tip) block].
Proof. apply admitted_fields. Qed.

Lemma admitted_memPool (tip block : Block.t) (bc : Blockchain.t) :
  Blockchain.memPool (admitted tip block bc)
  = List.filter
      (fun tx => negb (bool_decide (Transaction.id tx
                                    ∈ map Transaction.id
                                        (Block.transactions (Block.afterIsValid (Some tip) block)))))
      (Blockchain.memPool bc).
Proof. apply admitted_fields. Qed.

Lemma adjustDifficulty_fields (bc : Blockchain.t) :
  Blockchain.chain (Blockchain.adjustDifficulty bc) = Blockchain.chain bc
  /\ Blockchain.miningReward (Blockchain.adjustDifficulty bc) = Blockchain.miningReward bc
  /\ Blockchain.memPool (Blockchain.adjustDifficulty bc) = Blockchain.memPool bc
  /\ Blockchain.utxoSet (Blockchain.adjustDifficulty bc) = Blockchain.utxoSet bc
  /\ Blockchain.addressBalances (Blockchain.adjustDifficulty bc) = Blockchain.addressBalances bc
  /\ Blockchain.blockTimes (Blockchain.adjustDifficulty bc) = Blockchain.blockTimes bc.
Proof.
  assert (Hshape : Blockchain.adjustDifficulty bc = bc
                   \/ exists d, Blockchain.adjustDifficulty bc = Blockchain.with_difficulty d bc).
  { unfold Blockchain.adjustDifficulty. destruct (_ && _); [| now left].
    destruct (Blockchain.blockTimes bc); [now left | right; now eexists]. }
  destruct Hshape as [-> | [d ->]]; repeat split.
Qed.

Lemma tip_lookup (bc : Blockchain.t) (tip : Block.t) :
  Blockchain.getLatestBlock bc = Some tip ->
  (0 < length (Blockchain.chain bc))%nat
  /\ Blockchain.chain bc !! (length (Blockchain.chain bc) - 1)%nat = Some tip.
Proof.
  unfold Blockchain.getLatestBlock. rewrite last_lookup. intros Htip.
  pose proof (lookup_lt_Some _ _ _ Htip). split; [lia |].
  now replace (length (Blockchain.chain bc) - 1)%nat with (pred (length (Blockchain.chain bc))) by lia.
Qed.

(** *** Heights *)

Lemma genesis_height (fuel : nat) (now : Z) (genesis : Block.t) :
  Block.createGenesisBlock fuel now = Some genesis ->
  BlockHeader.height (Block.header genesis) = 0.
Proof.
  unfold Block.createGenesisBlock. intros Hmine.
  destruct (mineBlock_result _ _ _ _ (or_introl eq_refl) Hmine)
    as (_ & _ & _ & (_ & _ & _ & _ & Hheight)).
  rewrite Hheight. reflexivity.
Qed.

Lemma reachable_heights (bc : Blockchain.t) :
  reachable bc -> heightsArePositions (Blockchain.chain bc).
Proof.
  apply (reachable_steps (fun bc => heightsArePositions (Blockchain.chain bc))); clear bc.
  - intros fuel now bc Hnew. destruct (new_chain _ _ _ Hnew) as (g & Hg & ->).
    intros [| k] b Hk; [| discriminate Hk]. injection Hk as <-. now apply (genesis_height fuel now).
  - intros tx bc IH _ _ _ _. exact IH.
  - intros bc IH. now rewrite adjustDifficulty_chain.
  - intros bc IH. exact IH.
  - intros tip block bc IH Htip Hvalid. rewrite admitted_chain.
    destruct (tip_lookup _ _ Htip) as [Hlen Hlast].
    intros k b Hk. apply lookup_app_Some in Hk as [Hk | [Hge Hk]]; [now apply IH |].
    destruct (k - length (Blockchain.chain bc))%nat as [| j] eqn:Hj; [| discriminate Hk].
    injection Hk as <-. rewrite afterIsValid_header.
    destruct (isValid_linkage _ _ Hvalid) as (_ & _ & ->).
    rewrite (IH _ _ Hlast). lia.
Qed.

Lemma find_at_height (blocks : list Block.t) (offset k : nat) (b : Block.t) :
  (forall i c, blocks !! i = Some c ->
     BlockHeader.height (Block.header c) = Z.of_nat (offset + i)) ->
  blocks !! k = Some b ->
  List.find (fun block => BlockHeader.height (Block.header block) =? Z.of_nat (offset + k)) blocks
  = Some b.
Proof.
  revert offset k. induction blocks as [| c rest IH]; intros offset k Hheights Hk;
    [discriminate Hk |].
  cbn [List.find]. rewrite (Hheights 0%nat c eq_refl).
  destruct k as [| k].
  - injection Hk as <-. now rewrite Nat.add_0_r, Z.eqb_refl.
  - destruct (Z.eqb_spec (Z.of_nat (offset + 0)) (Z.of_nat (offset + S k))) as [Heq | _]; [lia |].
    replace (offset + S k)%nat with (S offset + k)%nat by lia.
    apply IH; [| exact Hk]. intros i d Hi.
    rewrite (Hheights (S i) d Hi). f_equal. lia.
Qed.

(** X16.  In every ledger that calls produce from a fresh one, the block
    at position [k] of the chain has height [k], and
    [getBlockByHeight(k)] returns it. *)
Theorem getBlockByHeight_position (bc : Blockchain.t) (k : nat) (b : Block.t) :
  reachable bc ->
  Blockchain.chain bc !! k = Some b ->
  BlockHeader.height (Block.header b) = Z.of_nat k
  /\ Blockchain.getBlockByHeight (Z.of_nat k) bc = Some b.
Proof.
  intros Hreach Hk. pose proof (reachable_heights bc Hreach) as Hheights.
  split; [now apply Hheights |].
  unfold Blockchain.getBlockByHeight.
  apply (find_at_height (Blockchain.chain bc) 0 k b); [| exact Hk].
  intros i c Hi. now apply Hheights.
Qed.

(** *** The pool *)

Lemma isTransactionInBlockchain_app (txId : string) (bc : Blockchain.t) (blocks more : list Block.t) :
  Blockchain.chain bc = blocks ++ more ->
  Blockchain.isTransactionInBlockchain txId bc
  = existsb (fun block =>
               existsb (fun tx => String.eqb (Transaction.id tx) txId) (Block.transactions block))
      blocks
    || existsb (fun block =>
                  existsb (fun tx => String.eqb (Transaction.id tx) txId) (Block.transactions block))
         more.
Proof. intros Hchain. unfold Blockchain.isTransactionInBlockchain. now rewrite Hchain, existsb_app. Qed.

Lemma existsb_id_false (txId : string) (txs : list Transaction.t) :
  existsb (fun tx => String.eqb (Transaction.id tx) txId) txs = false
  <-> txId ∉ map Transaction.id txs.
Proof.
  induction txs as [| tx rest IH]; cbn [existsb map].
  - split; [intros _; apply not_elem_of_nil | reflexivity].
  - rewrite orb_false_iff, IH, not_elem_of_cons.
    destruct (String.eqb_spec (Transaction.id tx) txId) as [Heq | Hne]; split.
    + intros [Hx _]. discriminate Hx.
    + intros [Hx _]. congruence.
    + intros [_ Hx]. split; [congruence | exact Hx].
    + intros [_ Hx]. now split.
Qed.

Lemma reachable_poolIsFresh (bc : Blockchain.t) : reachable bc -> poolIsFresh bc.
Proof.
  apply (reachable_steps poolIsFresh); clear bc.
  - intros fuel now bc Hnew. unfold Blockchain.new in Hnew.
    destruct (Block.createGenesisBlock fuel now) as [g |]; [| discriminate].
    injection Hnew as <-. split.
    + cbn [Blockchain.with_blockTimes Blockchain.memPool].
      replace (Blockchain.memPool _) with (@nil Transaction.t); [constructor |].
      symmetry. apply updateUTXOSet_outside.
    + intros tx Htx. cbn [Blockchain.with_blockTimes Blockchain.memPool] in Htx.
      replace (Blockchain.memPool _) with (@nil Transaction.t) in Htx
        by (symmetry; apply updateUTXOSet_outside).
      now apply elem_of_nil in Htx.
  - intros tx bc [Hnodup Hchain] Hvalid Hnew Hnotin _. split.
    + cbn [pooled Blockchain.with_memPool Blockchain.memPool].
      rewrite map_app. cbn [map]. rewrite afterIsValid_id.
      apply NoDup_app. split; [exact Hnodup |]. split; [| apply NoDup_singleton].
      intros x Hx Hx'. apply list_elem_of_singleton in Hx'. subst x.
      now apply existsb_id_false in Hnew.
    + intros tx' Htx'. cbn [pooled Blockchain.with_memPool Blockchain.memPool] in Htx'.
      change (Blockchain.isTransactionInBlockchain (Transaction.id tx') (pooled tx bc))
        with (Blockchain.isTransactionInBlockchain (Transaction.id tx') bc).
      apply elem_of_app in Htx' as [Hold | Hnewtx]; [now apply Hchain |].
      apply list_elem_of_singleton in Hnewtx. subst tx'. now rewrite afterIsValid_id.
  - intros bc [Hnodup Hchain].
    destruct (adjustDifficulty_fields bc) as (Hc & _ & Hp & _).
    unfold poolIsFresh, Blockchain.isTransactionInBlockchain. now rewrite Hc, Hp.
  - intros bc [Hnodup Hchain]. split.
    + cbn [revalidated Blockchain.with_memPool Blockchain.memPool].
      now rewrite map_id_afterIsValid.
    + intros tx Htx. cbn [revalidated Blockchain.with_memPool Blockchain.memPool] in Htx.
      apply list_elem_of_fmap in Htx as (tx0 & -> & Htx0).
      rewrite afterIsValid_id.
      change (Blockchain.isTransactionInBlockchain (Transaction.id tx0) (revalidated bc))
        with (Blockchain.isTransactionInBlockchain (Transaction.id tx0) bc).
      now apply Hchain.
  - intros tip block bc [Hnodup Hchain] Htip Hvalid. split.
    + rewrite admitted_memPool.
      apply (NoDup_fmap_2_strong Transaction.id).
      * intros x y Hx Hy Hid.
        apply list_elem_of_In, filter_In in Hx as [Hx _].
        apply list_elem_of_In, filter_In in Hy as [Hy _].
        apply list_elem_of_In, list_elem_of_lookup in Hx as [i Hi].
        apply list_elem_of_In, list_elem_of_lookup in Hy as [j Hj].
        assert (i = j) as ->.
        { apply (NoDup_lookup _ i j (Transaction.id x) Hnodup).
          - change (map Transaction.id (Blockchain.memPool bc)) with (Transaction.id <$> Blockchain.memPool bc).
            now rewrite list_lookup_fmap, Hi.
          - change (map Transaction.id (Blockchain.memPool bc)) with (Transaction.id <$> Blockchain.memPool bc).
            now rewrite list_lookup_fmap, Hj, Hid. }
        congruence.
      * apply (NoDup_fmap_1 Transaction.id).
        change (Transaction.id <$> List.filter ?f ?l) with (map Transaction.id (List.filter f l)).
        clear -Hnodup. induction (Blockchain.memPool bc) as [| tx rest IH]; [constructor |].
        cbn [map] in Hnodup. apply NoDup_cons in Hnodup as [Hnotin Hrest].
        cbn [List.filter]. destruct (negb _); [| now apply IH].
        cbn [map]. apply NoDup_cons. split; [| now apply IH].
        intros Hin. apply Hnotin.
        apply list_elem_of_In, in_map_iff in Hin as (y & Hy & Hin).
        apply filter_In in Hin as [Hin _].
        apply list_elem_of_In, in_map_iff. now exists y.
    + intros tx Htx. rewrite admitted_memPool in Htx.
      apply list_elem_of_In, filter_In in Htx as [Htx Hout].
      rewrite (isTransactionInBlockchain_app _ _ _ _ (admitted_chain tip block bc)).
      apply orb_false_iff. split.
      * apply (Hchain tx). now apply list_elem_of_In.
      * cbn [existsb]. rewrite orb_false_r. apply existsb_id_false.
        apply negb_true_iff, bool_decide_eq_false in Hout. exact Hout.
Qed.

(** X17.  In every ledger that calls produce from a fresh one, no two
    pending transactions share an id, and no pending transaction has the
    id of a transaction of the chain. *)
Theorem memPool_fresh (bc : Blockchain.t) :
  reachable bc ->
  NoDup (map Transaction.id (Blockchain.memPool bc))
  /\ forall tx, tx ∈ Blockchain.memPool bc ->
       Blockchain.isTransactionInBlockchain (Transaction.id tx) bc = false.
Proof. apply reachable_poolIsFresh. Qed.

End LedgerInvariants.

(** ** Lookups, spent outputs, block times and difficulty *)

Section LedgerLookups.
Context `{Crypto}.

(** *** Looking a transaction up *)

Lemma find_none_existsb {A : Type} (p : A -> bool) (l : list A) :
  existsb p l = false -> List.find p l = None.
Proof.
  induction l as [| x r IH]; [reflexivity |]. cbn [existsb List.find].
  destruct (p x); [discriminate | exact IH].
Qed.

Lemma find_snoc {A : Type} (p : A -> bool) (l : list A) (x : A) :
  existsb p l = false -> p x = true -> List.find p (l ++ [x]) = Some x.
Proof.
  induction l as [| y r IH]; cbn [existsb List.find app]; intros Hnone Hx.
  - now rewrite Hx.
  - destruct (p y); [discriminate | now apply IH].
Qed.

Lemma findInBlocks_none (txId : string) (bc : Blockchain.t) :
  Blockchain.isTransactionInBlockchain txId bc = false ->
  Blockchain.findInBlocks txId (Blockchain.chain bc) = None.
Proof.
  unfold Blockchain.isTransactionInBlockchain.
  induction (Blockchain.chain bc) as [| block rest IH]; [reflexivity |].
  cbn [existsb Blockchain.findInBlocks]. intros [Hblock Hrest]%orb_false_iff.
  rewrite (find_none_existsb _ _ Hblock). now apply IH.
Qed.

(** X18.  After [addTransaction] has accepted a transaction,
    [getTransactionById] finds it under its id. *)
Theorem getTransactionById_pooled (tx : Transaction.t) (bc bc' : Blockchain.t) :
  Blockchain.addTransaction tx bc = (true, bc') ->
  Blockchain.getTransactionById (Transaction.id tx) bc' = Some (Transaction.afterIsValid tx).
Proof.
  intros Hadd. destruct (addTransaction_cases _ _ _ _ Hadd)
    as [[Hno _] | (_ & -> & _ & Hpool & Hchain & _)]; [discriminate Hno |].
  unfold Blockchain.getTransactionById.
  cbn [pooled Blockchain.with_memPool Blockchain.chain Blockchain.memPool].
  rewrite (findInBlocks_none _ _ Hchain).
  apply find_snoc; [exact Hpool |]. rewrite afterIsValid_id. apply String.eqb_refl.
Qed.

(** *** Spent outputs *)

Lemma spendInput_spent (bc : Blockchain.t) (input : TransactionInput.t) :
  namesOutput input ->
  Blockchain.utxoSet (Blockchain.spendInput bc input) !! keyOf input = None.
Proof.
  intros [Hid Hindex]. unfold Blockchain.spendInput, keyOf.
  destruct (String.eqb_spec (TransactionInput.txId input) "") as [Heq | _]; [contradiction |].
  destruct (Z.leb_spec 0 (TransactionInput.outputIndex input)) as [_ | Hneg]; [| lia].
  cbn [negb andb].
  destruct (Blockchain.utxoSet bc !! _) as [utxo |] eqn:Hkey; [| exact Hkey].
  cbn [Blockchain.with_addressBalances Blockchain.with_utxoSet Blockchain.utxoSet].
  apply lookup_delete_eq.
Qed.

Lemma spendInput_stays (bc : Blockchain.t) (input : TransactionInput.t) (key : string) :
  Blockchain.utxoSet bc !! key = None ->
  Blockchain.utxoSet (Blockchain.spendInput bc input) !! key = None.
Proof.
  intros Hgone. unfold Blockchain.spendInput.
  destruct (_ && _); [| exact Hgone].
  destruct (Blockchain.utxoSet bc !! Blockchain.utxoKey _ _); [| exact Hgone].
  cbn [Blockchain.with_addressBalances Blockchain.with_utxoSet Blockchain.utxoSet].
  rewrite lookup_delete. now case_decide.
Qed.

Lemma spendInputs_stays (inputs : list TransactionInput.t) (bc : Blockchain.t) (key : string) :
  Blockchain.utxoSet bc !! key = None ->
  Blockchain.utxoSet (fold_left Blockchain.spendInput inputs bc) !! key = None.
Proof.
  revert bc. induction inputs as [| input rest IH]; intros bc Hgone; [exact Hgone |].
  cbn [fold_left]. now apply IH, spendInput_stays.
Qed.

Lemma spendInputs_spent (inputs : list TransactionInput.t) (bc : Blockchain.t)
    (input : TransactionInput.t) :
  In input inputs -> namesOutput input ->
  Blockchain.utxoSet (fold_left Blockchain.spendInput inputs bc) !! keyOf input = None.
Proof.
  revert bc. induction inputs as [| first rest IH]; intros bc Hin Hnames; [destruct Hin |].
  cbn [fold_left]. destruct Hin as [-> | Hin].
  - now apply spendInputs_stays, spendInput_spent.
  - now apply IH.
Qed.

Lemma addOutputs_other (txId : string) (height : Z) (outputs : list TransactionOutput.t)
    (index : nat) (bc : Blockchain.t) (key : string) :
  key ∉ keysFrom txId index outputs ->
  Blockchain.utxoSet (Blockchain.addOutputs txId height index outputs bc) !! key
  = Blockchain.utxoSet bc !! key.
Proof.
  revert index bc. induction outputs as [| output rest IH]; intros index bc Hnotin; [reflexivity |].
  cbn [keysFrom] in Hnotin. apply not_elem_of_cons in Hnotin as [Hne Hnotin].
  cbn [Blockchain.addOutputs]. rewrite (IH _ _ Hnotin).
  unfold Blockchain.addOutput.
  cbn [Blockchain.with_addressBalances Blockchain.with_utxoSet Blockchain.utxoSet].
  now apply lookup_insert_ne.
Qed.

Lemma applyTransactions_stays (height : Z) (txs : list Transaction.t) (bc : Blockchain.t)
    (key : string) :
  key ∉ flat_map outputKeys txs ->
  Blockchain.utxoSet bc !! key = None ->
  Blockchain.utxoSet (fold_left (Blockchain.applyTransaction height) txs bc) !! key = None.
Proof.
  revert bc. induction txs as [| tx rest IH]; intros bc Hnotin Hgone; [exact Hgone |].
  cbn [flat_map] in Hnotin. apply not_elem_of_app in Hnotin as [Hhere Hrest].
  cbn [fold_left]. apply IH; [exact Hrest |].
  unfold Blockchain.applyTransaction. rewrite (addOutputs_other _ _ _ _ _ _ Hhere).
  now apply spendInputs_stays.
Qed.

Lemma applyTransactions_spent (height : Z) (txs : list Transaction.t) (bc : Blockchain.t)
    (tx : Transaction.t) (input : TransactionInput.t) :
  In tx txs -> In input (Transaction.inputs tx) -> namesOutput input ->
  keyOf input ∉ flat_map outputKeys txs ->
  Blockchain.utxoSet (fold_left (Blockchain.applyTransaction height) txs bc) !! keyOf input = None.
Proof.
  revert bc. induction txs as [| first rest IH]; intros bc Htx Hin Hnames Hnotin; [destruct Htx |].
  cbn [flat_map] in Hnotin. apply not_elem_of_app in Hnotin as [Hhere Hrest].
  cbn [fold_left]. destruct Htx as [-> | Htx].
  - apply applyTransactions_stays; [exact Hrest |].
    unfold Blockchain.applyTransaction. rewrite (addOutputs_other _ _ _ _ _ _ Hhere).
    now apply spendInputs_spent.
  - now apply IH.
Qed.

(** X19.  After [addBlock] has admitted a block with a transaction that
    spends an output, and the block does not create an output under the
    same key, the index no longer holds the output and [addTransaction]
    refuses every transaction with an input that names it. *)
Theorem spent_output_rejected (saved : bool) (block : Block.t) (bc bc' : Blockchain.t)
    (tx : Transaction.t) (input : TransactionInput.t)
    (later : Transaction.t) (again : TransactionInput.t) :
  Blockchain.addBlock saved block bc = Blockchain.Returned true bc' ->
  In tx (Block.transactions block) ->
  In input (Transaction.inputs tx) ->
  namesOutput input ->
  keyOf input ∉ blockOutputKeys block ->
  In again (Transaction.inputs later) ->
  keyOf again = keyOf input ->
  namesOutput again ->
  Blockchain.utxoSet bc' !! keyOf input = None
  /\ Blockchain.addTransaction later bc' = (false, bc').
Proof.
  intros Hadd Htx Hin Hnames Hnotin Hagain Hsame Hnames'.
  destruct (addBlock_cases _ _ _ _ _ Hadd)
    as [[Hno _] | (_ & _ & tip & Htip & Hvalid & ->)]; [discriminate Hno |].
  assert (Hgone : Blockchain.utxoSet (admitted tip block bc) !! keyOf input = None).
  { destruct (admitted_fields tip block bc) as (_ & _ & _ & _ & -> & _).
    unfold Blockchain.updateUTXOSet.
    apply (applyTransactions_spent _ _ _ (Transaction.afterIsValid tx)).
    - rewrite (afterIsValid_valid _ _ Hvalid).
      cbn [Block.with_transactions Block.transactions]. now apply in_map.
    - now rewrite afterIsValid_inputs.
    - exact Hnames.
    - change (flat_map outputKeys (Block.transactions (Block.afterIsValid (Some tip) block)))
        with (blockOutputKeys (Block.afterIsValid (Some tip) block)).
      now rewrite (blockOutputKeys_afterIsValid _ _ Hvalid). }
  split; [exact Hgone |].
  destruct (Blockchain.addTransaction later (admitted tip block bc)) as [ok st] eqn:Hlater.
  destruct (addTransaction_cases _ _ _ _ Hlater)
    as [[-> ->] | (_ & _ & _ & _ & _ & Hunspent)]; [reflexivity |].
  exfalso. unfold Blockchain.inputsUnspent in Hunspent.
  rewrite forallb_forall in Hunspent. specialize (Hunspent again Hagain).
  destruct Hnames' as [Hid Hindex].
  destruct (String.eqb_spec (TransactionInput.txId again) "") as [Heq | _]; [contradiction |].
  destruct (Z.ltb_spec (TransactionInput.outputIndex again) 0) as [Hneg | _]; [lia |].
  cbn [orb] in Hunspent. apply bool_decide_eq_true in Hunspent.
  fold (keyOf again) in Hunspent. rewrite Hsame, Hgone in Hunspent.
  now destruct Hunspent.
Qed.

(** *** Block times and difficulty *)

Lemma admitted_blockTimes (tip block : Block.t) (bc : Blockchain.t) :
  Blockchain.getLatestBlock bc = Some tip ->
  Blockchain.blockTimes (admitted tip block bc)
  = let times :=
      Blockchain.blockTimes bc
      ++ [BlockHeader.timestamp (Block.header block) - BlockHeader.timestamp (Block.header tip)] in
    if (Blockchain.difficultyAdjustmentInterval <? length times)%nat then tail times else times.
Proof.
  intros Htip. destruct (tip_lookup _ _ Htip) as [Hlen Hlast].
  unfold admitted.
  set (block' := Block.afterIsValid (Some tip) block).
  set (bc0 := Blockchain.with_chain (Blockchain.chain bc ++ [block']) bc).
  destruct (updateUTXOSet_outside block' bc0) as (Hc & _ & _ & _ & Ht).
  unfold Blockchain.updateBlockTimes.
  cbn [Blockchain.removeTransactionsFromMemPool Blockchain.with_memPool Blockchain.chain
       Blockchain.blockTimes].
  rewrite Hc, Ht. cbn [bc0 Blockchain.with_chain Blockchain.chain Blockchain.blockTimes].
  rewrite length_app. cbn [length].
  destruct (Nat.ltb_spec 1 (length (Blockchain.chain bc) + 1)) as [_ | Hshort]; [| lia].
  replace (length (Blockchain.chain bc) + 1 - 2)%nat with (length (Blockchain.chain bc) - 1)%nat
    by lia.
  rewrite lookup_app_l by lia. rewrite Hlast.
  subst block'. rewrite afterIsValid_header. cbn zeta.
  now destruct (_ <? _)%nat.
Qed.

(** X20.  In every ledger that calls produce from a fresh one, the history
    of block times holds at least one and at most
    [difficultyAdjustmentInterval] (ten) entries. *)
Theorem blockTimes_window (bc : Blockchain.t) :
  reachable bc ->
  (1 <= length (Blockchain.blockTimes bc) <= Blockchain.difficultyAdjustmentInterval)%nat.
Proof.
  apply (reachable_steps
           (fun bc => (1 <= length (Blockchain.blockTimes bc)
                       <= Blockchain.difficultyAdjustmentInterval)%nat)); clear bc.
  - intros fuel now bc Hnew. unfold Blockchain.new in Hnew.
    destruct (Block.createGenesisBlock fuel now) as [g |]; [| discriminate].
    injection Hnew as <-. cbn [Blockchain.with_blockTimes Blockchain.blockTimes].
    replace (Blockchain.blockTimes _) with (@nil Z) by (symmetry; apply updateUTXOSet_outside).
    cbn. unfold Blockchain.difficultyAdjustmentInterval. lia.
  - intros tx bc IH _ _ _ _. exact IH.
  - intros bc IH. destruct (adjustDifficulty_fields bc) as (_ & _ & _ & _ & _ & ->). exact IH.
  - intros bc IH. exact IH.
  - intros tip block bc IH Htip _. rewrite (admitted_blockTimes _ _ _ Htip). cbn zeta.
    unfold Blockchain.difficultyAdjustmentInterval in *.
    set (times := Blockchain.blockTimes bc ++ [_]).
    assert (Hlen : length times = S (length (Blockchain.blockTimes bc)))
      by (subst times; rewrite length_app; cbn [length]; lia).
    destruct (Nat.ltb_spec 10 (length times)) as [Hlong | Hfits];
      rewrite ?length_tl; lia.
Qed.

Lemma adjustDifficulty_floor (currentDifficulty : nat) (timeExpected timeActual : Q) :
  (1 <= currentDifficulty)%nat ->
  (1 <= Hash.adjustDifficulty currentDifficulty timeExpected timeActual)%nat.
Proof.
  intros Hpos. unfold Hash.adjustDifficulty.
  destruct (Qlt_le_dec _ _); [lia |]. destruct (Qlt_le_dec _ _); lia.
Qed.

(** X21.  In every ledger that calls produce from a fresh one, the
    difficulty is at least 1. *)
Theorem difficulty_positive (bc : Blockchain.t) :
  reachable bc -> (1 <= Blockchain.difficulty bc)%nat.
Proof.
  apply (reachable_steps (fun bc => (1 <= Blockchain.difficulty bc)%nat)); clear bc.
  - intros fuel now bc Hnew. unfold Blockchain.new in Hnew.
    destruct (Block.createGenesisBlock fuel now) as [g |]; [| discriminate].
    injection Hnew as <-. cbn [Blockchain.with_blockTimes Blockchain.difficulty].
    replace (Blockchain.difficulty _) with 4%nat; [lia |].
    symmetry. apply updateUTXOSet_outside.
  - intros tx bc IH _ _ _ _. exact IH.
  - intros bc IH. unfold Blockchain.adjustDifficulty.
    destruct (_ && _); [| exact IH]. destruct (Blockchain.blockTimes bc); [exact IH |].
    cbn [Blockchain.with_difficulty Blockchain.difficulty]. now apply adjustDifficulty_floor.
  - intros bc IH. exact IH.
  - intros tip block bc IH _ _.
    destruct (admitted_fields tip block bc) as (_ & -> & _). exact IH.
Qed.

End LedgerLookups.

(** ** Selection for mining *)

Section SelectionFacts.
Context `{Crypto}.







Lemma selection_from_pool (maxTransactions : nat) (bc : Blockchain.t) (tx : Transaction.t) :
  tx ∈ fst (Blockchain.selectTransactionsForMining maxTransactions bc) ->
  Transaction.isValid tx = true
  /\ exists pending, pending ∈ Blockchain.memPool bc
                     /\ Transaction.isValid pending = true
                     /\ tx = Transaction.afterIsValid pending.
Proof.
  unfold Blockchain.selectTransactionsForMining. cbn [fst].
  intros Htx. apply (subseteq_take maxTransactions) in Htx.
  apply stableSort_elem, list_elem_of_In, in_map_iff in Htx as ([ok tx'] & <- & Hrun).
  apply filter_In in Hrun as [Hrun Hok]. cbn [fst snd] in *. subst ok.
  apply in_map_iff in Hrun as (pending & Hrun & Hpending).
  rewrite isValid_run_eta_tx in Hrun. injection Hrun as Hvalid <-.
  split; [now rewrite isValid_afterIsValid |].
  exists pending. split; [now apply list_elem_of_In |]. now split.
Qed.


End SelectionFacts.

(** ** [mineBlock] of the ledger *)

Section MiningFacts.
Context `{Crypto}.

Lemma afterIsValid_coinbase (tx : Transaction.t) :
  Transaction.isCoinbase tx = true -> Transaction.afterIsValid tx = tx.
Proof.
  intros Hcb. unfold Transaction.afterIsValid, Transaction.isValid_run. rewrite Hcb.
  now destruct (_ && _).
Qed.

Lemma selection_settled (maxTransactions : nat) (bc : Blockchain.t) :
  map Transaction.afterIsValid (fst (Blockchain.selectTransactionsForMining maxTransactions bc))
  = fst (Blockchain.selectTransactionsForMining maxTransactions bc).
Proof.
  rewrite <- (map_id (fst _)) at 2. apply map_ext_in. intros tx Htx.
  destruct (selection_from_pool maxTransactions bc tx (proj2 (list_elem_of_In _ _) Htx))
    as (_ & pending & _ & _ & ->).
  apply afterIsValid_idempotent.
Qed.

Lemma reachable_tip_height (bc : Blockchain.t) (tip : Block.t) :
  reachable bc -> Blockchain.getLatestBlock bc = Some tip ->
  BlockHeader.height (Block.header tip) + 1 = Z.of_nat (length (Blockchain.chain bc)).
Proof.
  intros Hreach Htip. destruct (tip_lookup _ _ Htip) as [Hlen Hlast].
  rewrite (reachable_heights bc Hreach _ _ Hlast). lia.
Qed.

Lemma revalidated_adjusted_fields (bc : Blockchain.t) :
  let bc1 := revalidated (Blockchain.adjustDifficulty bc) in
  Blockchain.chain bc1 = Blockchain.chain bc
  /\ Blockchain.miningReward bc1 = Blockchain.miningReward bc
  /\ map Transaction.id (Blockchain.memPool bc1) = map Transaction.id (Blockchain.memPool bc)
  /\ Blockchain.utxoSet bc1 = Blockchain.utxoSet bc
  /\ Blockchain.addressBalances bc1 = Blockchain.addressBalances bc
  /\ Blockchain.blockTimes bc1 = Blockchain.blockTimes bc.
Proof.
  cbn zeta. destruct (adjustDifficulty_fields bc) as (Hc & Hr & Hp & Hu & Hb & Ht).
  unfold revalidated.
  cbn [Blockchain.with_memPool Blockchain.chain Blockchain.miningReward Blockchain.memPool
       Blockchain.utxoSet Blockchain.addressBalances Blockchain.blockTimes].
  rewrite map_id_afterIsValid, Hc, Hr, Hp, Hu, Hb, Ht. repeat split.
Qed.

(** X23.  When [mineBlock(minerAddress)] of a ledger that calls produce
    from a fresh one returns a block, the block is the new last block of
    the chain, its height is the former length of the chain, its first
    transaction is the coinbase transaction that pays the miner the block
    reward of that height plus the fees of the block, and none of its
    other transactions is a coinbase transaction. *)
Theorem mineBlock_pays_miner (fuel : nat) (now : Z) (saved : bool) (minerAddress : string)
    (bc bc' : Blockchain.t) (block : Block.t) :
  reachable bc ->
  Blockchain.mineBlock fuel now saved minerAddress bc = Blockchain.Returned (Some block) bc' ->
  Blockchain.chain bc' = Blockchain.chain bc ++ [block]
  /\ BlockHeader.height (Block.header block) = Z.of_nat (length (Blockchain.chain bc))
  /\ head (Block.transactions block)
     = Some (Transaction.createCoinbase now minerAddress
               (Block.getBlockReward (BlockHeader.height (Block.header block))
                + Block.getTotalFees block)
               (BlockHeader.height (Block.header block)))
  /\ List.filter Transaction.isCoinbase (tail (Block.transactions block)) = [].
Proof.
  intros Hreach Hmine.
  destruct (mineBlock_cases _ _ _ _ _ _ _ Hmine)
    as (tip & mined & Htip & Hmined & [[Hnone _] | (Hblock & _ & Hvalid & ->)]);
    [discriminate Hnone |].
  injection Hblock as ->.
  destruct (revalidated_adjusted_fields bc) as (Hchain & _).
  set (bc1 := revalidated (Blockchain.adjustDifficulty bc)) in *.
  set (selected := fst (Blockchain.selectTransactionsForMining 100 (Blockchain.adjustDifficulty bc)))
    in *.
  assert (Htipbc : Blockchain.getLatestBlock bc = Some tip)
    by (unfold Blockchain.getLatestBlock in *; now rewrite <- Hchain).
  pose proof (reachable_tip_height bc tip Hreach Htipbc) as Hheight.
  destruct (mineBlock_result _ _ _ _ (or_intror eq_refl) Hmined)
    as (_ & _ & Htxs & (_ & _ & _ & _ & Hh)).
  change (BlockHeader.height (Block.header (Block.new _ _ _ _ _)))
    with (BlockHeader.height (Block.header tip) + 1) in Hh.
  change (Block.transactions (Block.new _ ?txs _ _ _)) with txs in Htxs.
  rewrite Hchain in *.
  assert (Hrest : List.filter Transaction.isCoinbase selected = []).
  { pose proof Hvalid as Hchecks. rewrite isValid_checks in Hchecks.
    apply andb_true_iff in Hchecks as [_ Hbody]. unfold bodyValid in Hbody.
    apply andb_true_iff in Hbody as [Hbody _]. apply andb_true_iff in Hbody as [_ Hone].
    rewrite Htxs in Hone. cbn [List.filter] in Hone.
    rewrite createCoinbase_isCoinbase in Hone. cbn [length] in Hone.
    destruct (List.filter Transaction.isCoinbase selected); [reflexivity | discriminate Hone]. }
  rewrite admitted_chain, Hchain. split; [reflexivity |].
  rewrite afterIsValid_header. split; [lia |].
  rewrite (afterIsValid_valid _ _ Hvalid).
  cbn [Block.with_transactions Block.transactions Block.header].
  rewrite Htxs. cbn [map head tail].
  assert (Hcbx : forall r h, Transaction.afterIsValid (Transaction.createCoinbase now minerAddress r h)
                             = Transaction.createCoinbase now minerAddress r h).
  { intros r h. apply afterIsValid_coinbase, createCoinbase_isCoinbase. }
  assert (Hsettled : map Transaction.afterIsValid selected = selected)
    by apply selection_settled.
  rewrite Hcbx, Hsettled. split; [| exact Hrest].
  do 2 f_equal; [| lia]. rewrite Hh, Hheight. f_equal.
  unfold Block.getTotalFees. cbn [Block.with_transactions Block.transactions List.filter].
  rewrite createCoinbase_isCoinbase. cbn [negb]. f_equal.
  clear -Hrest. induction selected as [| tx rest IH]; [reflexivity |].
  cbn [List.filter] in *. destruct (Transaction.isCoinbase tx); [discriminate Hrest |].
  cbn [negb]. f_equal. now apply IH.
Qed.

(** X24.  When [mineBlock] returns [null], the chain, the unspent-output
    index, the balances and the block times are as before, and the pool
    holds the same transaction ids in the same order. *)
Theorem mineBlock_null_frame (fuel : nat) (now : Z) (saved : bool) (minerAddress : string)
    (bc bc' : Blockchain.t) :
  Blockchain.mineBlock fuel now saved minerAddress bc = Blockchain.Returned None bc' ->
  Blockchain.chain bc' = Blockchain.chain bc
  /\ Blockchain.utxoSet bc' = Blockchain.utxoSet bc
  /\ Blockchain.addressBalances bc' = Blockchain.addressBalances bc
  /\ Blockchain.blockTimes bc' = Blockchain.blockTimes bc
  /\ map Transaction.id (Blockchain.memPool bc') = map Transaction.id (Blockchain.memPool bc).
Proof.
  intros Hmine.
  destruct (mineBlock_cases _ _ _ _ _ _ _ Hmine)
    as (tip & mined & _ & _ & [[_ ->] | (Hsome & _)]); [| discriminate Hsome].
  destruct (revalidated_adjusted_fields bc) as (Hc & _ & Hp & Hu & Hb & Ht).
  repeat split; assumption.
Qed.

End MiningFacts.

(** ** Import of a chain *)

Section ImportFacts.
Context `{Crypto}.

(** *** The index is a function of the chain *)

Lemma sameIndex_refl (bc : Blockchain.t) : sameIndex bc bc.
Proof. now split. Qed.





Lemma updateAll_outside (blocks : list Block.t) (bc : Blockchain.t) :
  sameOutsideIndex bc (fold_left (fun bc block => Blockchain.updateUTXOSet block bc) blocks bc).
Proof. apply fold_outside. intros st block. apply updateUTXOSet_outside. Qed.


(** *** The chain of a reachable ledger is unchanged by validation *)






End ImportFacts.

(** ** Restart from the store *)

Section RestartFacts.
Context `{Crypto}.






End RestartFacts.

(** ** Export then import *)

Section ExportFacts.
Context `{Crypto}.

#[local] Arguments JSON.asInt : simpl never.
#[local] Arguments JSON.asNat : simpl never.
#[local] Arguments inject_Z : simpl never.


End ExportFacts.

(** ** What [importChain] checks *)

Section ImportChecks.
Context `{Crypto}.



(** X29.  [importChain] accepts every chain of at most one block and makes
    it the chain of the ledger: the first block of an imported chain is
    never validated, and an empty chain is accepted. *)
Theorem importChain_unchecked (newChain : list Block.t) (difficulty : nat) (miningReward : Q)
    (bc : Blockchain.t) :
  (length newChain <= 1)%nat ->
  fst (Blockchain.importChain newChain difficulty miningReward bc) = true
  /\ Blockchain.chain (snd (Blockchain.importChain newChain difficulty miningReward bc)) = newChain.
Proof.
  intros Hshort. unfold Blockchain.importChain.
  assert (Hrun : Blockchain.isChainValid_run newChain = (true, newChain)).
  { destruct newChain as [| g [| c rest]]; [reflexivity | reflexivity | cbn [length] in Hshort; lia]. }
  rewrite Hrun. cbn [negb fst snd]. split; [reflexivity |].
  set (start := Blockchain.with_addressBalances ∅ _).
  change (Blockchain.chain start) with newChain.
  now destruct (updateAll_outside newChain start) as (-> & _).
Qed.

End ImportChecks.

(** * Concrete runs

    The model run on explicit inputs, with the executable instance [Toy]
    in the place of the external libraries. *)

Section ConcreteRuns.
#[local] Existing Instance Toy.crypto.

Lemma ledger0_new : Blockchain.new 50 now0 = Some ledger0.
Proof. vm_compute. reflexivity. Qed.

Lemma ledger0_reachable : reachable ledger0.
Proof. exact (reach_new 50 now0 ledger0 ledger0_new). Qed.

Lemma ledger0_tip : Blockchain.getLatestBlock ledger0 = Some genesis0.
Proof. vm_compute. reflexivity. Qed.

(** *** Transactions *)



Lemma signTransaction_frame_witness :
  exists (signature : string) (store' : gmap nat TransactionInput.t),
    Refs.signTransaction key1 0 [7%nat; 7%nat] (draft "bob") storeTwice = inr store'
    /\ store' = <[7%nat := TransactionInput.with_signature signature input1]> storeTwice
    /\ Transaction.calculateHash (Refs.valueAt store' [7%nat; 7%nat] (draft "bob"))
       = Transaction.calculateHash (Refs.valueAt storeTwice [7%nat; 7%nat] (draft "bob")).
Proof.
  destruct (signTransaction_frame key1 0 [7%nat; 7%nat] (draft "bob") storeTwice 7%nat input1)
    as (signature & store' & Hrun & Hshape & _ & _ & Hfields & _);
    [reflexivity | reflexivity | vm_compute; reflexivity |].
  exists signature, store'. split; [exact Hrun |]. split; [exact Hshape |].
  apply Hfields.
Defined.

(** *** Blocks *)

(** C5, the claim as stated fails: a block built atop its parent, mined
    with success against its own stored difficulty, does not pass
    [isValid(parent)] when one of its transactions is invalid. *)
Lemma mineBlock_isValid_counterexample :
  ~ (forall (fuel : nat) (p b b' : Block.t),
       BlockHeader.previousHash (Block.header b) = Block.hash p ->
       BlockHeader.height (Block.header b) = BlockHeader.height (Block.header p) + 1 ->
       Block.mineBlock fuel None b = Some b' ->
       Block.isValid (Some p) b' = true).
Proof.
  intros Hclaim.
  specialize (Hclaim 0%nat genesis0 bareBlock bareBlockMined).
  assert (Hvalid : Block.isValid (Some genesis0) bareBlockMined = true)
    by (apply Hclaim; vm_compute; reflexivity).
  vm_compute in Hvalid. discriminate Hvalid.
Qed.

Lemma mineBlock_isValid_witness :
  Block.mineBlock 50 None rewardBlock = Some rewardBlockMined
  /\ (0 < BlockHeader.nonce (Block.header rewardBlockMined))%nat
  /\ Block.isValid (Some genesis0) rewardBlockMined = true.
Proof.
  split; [vm_compute; reflexivity |]. split; [vm_compute; lia |].
  apply (mineBlock_isValid 50 None genesis0 rewardBlock rewardBlockMined).
  - left. reflexivity.
  - vm_compute. reflexivity.
  - vm_compute. reflexivity.
  - vm_compute. reflexivity.
  - apply NoDup_singleton.
  - intros [| i] tx Hi Hcb; [reflexivity | discriminate Hi].
  - vm_compute. reflexivity.
Defined.

(** *** The ledger *)

Lemma addBlock_rejects_witness :
  Block.isValid (Some genesis0) strayBlock = false
  /\ Blockchain.addBlock true strayBlock ledger0 = Blockchain.Returned false ledger0
  /\ Blockchain.addBlock false rewardBlockMined ledger0 = Blockchain.Returned false ledger0.
Proof.
  split; [vm_compute; reflexivity |]. split.
  - apply (addBlock_rejects true strayBlock genesis0 ledger0 ledger0_tip).
    left. vm_compute. reflexivity.
  - apply (addBlock_rejects false rewardBlockMined genesis0 ledger0 ledger0_tip).
    right. right. reflexivity.
Defined.

(** C6, the claim as stated fails: on the genesis-only chain the stored
    hash of the genesis block can be replaced and [isChainValid()] is still
    true, because no block is ever checked against a successor. *)
Lemma isChainValid_tamper_counterexample :
  ~ (forall (bc : Blockchain.t) (k : nat) (b : Block.t) (hash' : string),
       reachable bc ->
       Blockchain.chain bc !! k = Some b ->
       hash' <> Block.hash b ->
       Blockchain.isChainValid (tamperHash k hash' bc) = false).
Proof.
  intros Hclaim.
  specialize (Hclaim ledger0 0%nat genesis0 "ff" ledger0_reachable).
  assert (Hfalse : Blockchain.isChainValid (tamperHash 0 "ff" ledger0) = false)
    by (apply Hclaim; [vm_compute; reflexivity | vm_compute; discriminate]).
  vm_compute in Hfalse. discriminate Hfalse.
Qed.

Lemma ledgerMined_reachable : reachable ledgerMined.
Proof.
  apply (reach_mineBlock 50 (now0 + 1) true "miner" ledger0 ledgerMined
           (head (drop 1 (Blockchain.chain ledgerMined))) ledger0_reachable).
  vm_compute. reflexivity.
Qed.

Lemma isChainValid_reachable_witness :
  length (Blockchain.chain ledgerMined) = 2%nat
  /\ Blockchain.isChainValid ledger0 = true
  /\ Blockchain.isChainValid ledgerMined = true
  /\ Blockchain.isChainValid (tamperHash 0 "ff" ledgerMined) = false
  /\ Blockchain.isChainValid (tamperHash 1 "ff" ledgerMined) = false.
Proof.
  split; [reflexivity |].
  split; [apply (isChainValid_reachable ledger0 ledger0_reachable) |].
  destruct (isChainValid_reachable ledgerMined ledgerMined_reachable) as [Hvalid Htamper].
  split; [exact Hvalid |]. split.
  - apply (Htamper 0%nat genesis0 "ff"); [vm_compute; lia | reflexivity | vm_compute; discriminate].
  - apply (Htamper 1%nat (default emptyBlock (Blockchain.chain ledgerMined !! 1%nat)) "ff");
      [vm_compute; lia | reflexivity | vm_compute; discriminate].
Defined.

(** *** Double spending *)

(** C1, at the input on which the code departs from the claim: both
    transactions are accepted into the pool, and the next mined block holds
    both of them; the chain with that block passes [isChainValid()], and
    each of the two recipients is credited with the 50 of the one output. *)
Theorem double_spend_mined :
  spends (Transaction.id genesisTx) 0 toBob = true
  /\ spends (Transaction.id genesisTx) 0 toCarol = true
  /\ Blockchain.addTransaction toBob ledger0 = (true, ledgerOneSpend)
  /\ Blockchain.addTransaction toCarol ledgerOneSpend = (true, ledgerTwoSpends)
  /\ Blockchain.mineBlock 50 (now0 + 2) true "miner" ledgerTwoSpends
     = Blockchain.Returned (Some blockTwoSpends) ledgerSpent
  /\ Blockchain.chain ledgerSpent = Blockchain.chain ledger0 ++ [blockTwoSpends]
  /\ List.filter (spends (Transaction.id genesisTx) 0) (Block.transactions blockTwoSpends)
     = [toBob; toCarol]
  /\ Blockchain.isChainValid ledgerSpent = true
  /\ Blockchain.getAddressBalance "bob" ledgerSpent = 50%Q
  /\ Blockchain.getAddressBalance "carol" ledgerSpent = 50%Q.
Proof.
  do 9 (split; [vm_compute; reflexivity |]). vm_compute. reflexivity.
Qed.

(** *** Balances and the unspent-output index *)

(** C10, at the input on which the code departs from the claim: after
    [addBlock] has admitted two blocks that hold a transaction of the same
    id, the index holds one output of 50 for the address and the balance of
    the address is 100. *)
Theorem balance_exceeds_unspent :
  Blockchain.addBlock true aliceBlock1 ledger0 = Blockchain.Returned true ledgerAlice1
  /\ Blockchain.addBlock true aliceBlock2 ledgerAlice1 = Blockchain.Returned true ledgerAlice2
  /\ reachable ledgerAlice2
  /\ Blockchain.getAddressBalance "alice" ledgerAlice2 = 100%Q
  /\ map UTXO.amount (Blockchain.getUTXOsForAddress "alice" ledgerAlice2) = [50%Q]
  /\ ~ balancesAgree ledgerAlice2.
Proof.
  assert (H1 : Blockchain.addBlock true aliceBlock1 ledger0
               = Blockchain.Returned true ledgerAlice1) by (vm_compute; reflexivity).
  assert (H2 : Blockchain.addBlock true aliceBlock2 ledgerAlice1
               = Blockchain.Returned true ledgerAlice2) by (vm_compute; reflexivity).
  split; [exact H1 |]. split; [exact H2 |]. split.
  { eapply reach_addBlock; [| exact H2]. eapply reach_addBlock; [| exact H1].
    exact ledger0_reachable. }
  split; [vm_compute; reflexivity |]. split; [vm_compute; reflexivity |].
  intros Hagree. specialize (Hagree "alice"). vm_compute in Hagree. discriminate Hagree.
Qed.

(** *** Signing and payments *)

(** A decidable statement about explicit values, by evaluation. *)
Ltac by_evaluation :=
  match goal with
  | |- ?P => apply (bool_decide_unpack P); vm_compute; exact I
  end.

Lemma ledgerOneSpend_reachable : reachable ledgerOneSpend.
Proof.
  apply (reach_addTransaction toBob ledger0 ledgerOneSpend true ledger0_reachable).
  vm_compute. reflexivity.
Qed.

Lemma signTransaction_verifies_witness :
  Transaction.signTransaction key1 0 (draft "bob") = inr toBob
  /\ exists input', Transaction.inputs toBob !! 0%nat = Some input'
                    /\ Transaction.inputVerifies toBob input' = true.
Proof.
  assert (Hrun : Transaction.signTransaction key1 0 (draft "bob") = inr toBob)
    by (vm_compute; reflexivity).
  split; [exact Hrun |].
  apply (signTransaction_verifies key1 0 (draft "bob") toBob input1);
    [reflexivity | exact Hrun |].
  split; [vm_compute; discriminate |]. split; [vm_compute; discriminate |].
  vm_compute. reflexivity.
Defined.

Lemma isValid_needs_signatures_witness :
  TransactionInput.signature input1 = "" /\ Transaction.isValid (draft "bob") = false.
Proof.
  split; [reflexivity |].
  apply (isValid_needs_signatures (draft "bob") input1);
    [left; reflexivity | left; reflexivity | vm_compute; reflexivity].
Defined.



Lemma payment_run :
  Transaction.createTransaction (now0 + 1) "alice" "bob" 60 purse key1 = inr payment.
Proof. vm_compute. reflexivity. Qed.


Lemma createTransaction_signed_witness :
  (forall input, In input (Transaction.inputs payment) ->
     TransactionInput.publicKey input = Signature.getPublicKey key1
     /\ TransactionInput.signature input
        = Signature.sign (JSON.stringify (Transaction.signatureData payment input)) key1)
  /\ Transaction.id payment = Transaction.calculateHash payment
  /\ Transaction.fee payment = Transaction.calculateFee payment
  /\ Transaction.timestamp payment = now0 + 1.
Proof.
  exact (createTransaction_signed (now0 + 1) "alice" "bob" 60 purse key1 payment payment_run).
Defined.




(** *** The fees of a block *)


(** *** Lookups, mining, import and restart *)

Lemma getBlockByHeight_position_witness :
  BlockHeader.height (Block.header minedBlock) = 1
  /\ Blockchain.getBlockByHeight 1 ledgerMined = Some minedBlock.
Proof.
  exact (getBlockByHeight_position ledgerMined 1 minedBlock ledgerMined_reachable eq_refl).
Defined.

Lemma memPool_fresh_witness :
  Blockchain.memPool ledgerOneSpend = [toBob]
  /\ NoDup (map Transaction.id (Blockchain.memPool ledgerOneSpend))
  /\ forall tx, tx ∈ Blockchain.memPool ledgerOneSpend ->
       Blockchain.isTransactionInBlockchain (Transaction.id tx) ledgerOneSpend = false.
Proof.
  split; [reflexivity |]. exact (memPool_fresh ledgerOneSpend ledgerOneSpend_reachable).
Defined.

Lemma toBob_pooled : Blockchain.addTransaction toBob ledger0 = (true, ledgerOneSpend).
Proof. vm_compute. reflexivity. Qed.

Lemma getTransactionById_pooled_witness :
  Blockchain.getTransactionById (Transaction.id toBob) ledgerOneSpend
  = Some (Transaction.afterIsValid toBob).
Proof.
  exact (getTransactionById_pooled toBob ledger0 ledgerOneSpend toBob_pooled).
Defined.

Lemma spendBlock_admitted :
  Blockchain.addBlock true spendBlock ledger0 = Blockchain.Returned true ledgerSpentOnce.
Proof. vm_compute. reflexivity. Qed.

Lemma spent_output_rejected_witness :
  Blockchain.inputsUnspent toCarol ledger0 = true
  /\ Blockchain.utxoSet ledgerSpentOnce
     !! keyOf (TransactionInput.mk (Transaction.id genesisTx) 0 "" pub1 50 None) = None
  /\ Blockchain.addTransaction toCarol ledgerSpentOnce = (false, ledgerSpentOnce).
Proof.
  split; [vm_compute; reflexivity |].
  assert (Hbob : exists spent, Transaction.inputs toBob = [spent] /\ keyOf spent = keyOf input1
                               /\ namesOutput spent).
  { eexists. split; [reflexivity |]. split; [reflexivity |].
    split; [vm_compute; discriminate | vm_compute; discriminate]. }
  destruct Hbob as (spent & Hspent & Hkey & Hnames).
  assert (Hcarol : exists again, Transaction.inputs toCarol = [again] /\ keyOf again = keyOf input1
                                 /\ namesOutput again).
  { eexists. split; [reflexivity |]. split; [reflexivity |].
    split; [vm_compute; discriminate | vm_compute; discriminate]. }
  destruct Hcarol as (again & Hagain & Hkey' & Hnames').
  change (keyOf (TransactionInput.mk (Transaction.id genesisTx) 0 "" pub1 50 None))
    with (keyOf input1).
  rewrite <- Hkey.
  apply (spent_output_rejected true spendBlock ledger0 ledgerSpentOnce toBob spent toCarol again).
  - exact spendBlock_admitted.
  - right. left. reflexivity.
  - rewrite Hspent. now left.
  - exact Hnames.
  - rewrite Hkey. by_evaluation.
  - rewrite Hagain. now left.
  - now rewrite Hkey, Hkey'.
  - exact Hnames'.
Defined.

Lemma blockTimes_window_witness :
  (1 <= length (Blockchain.blockTimes ledgerMined) <= Blockchain.difficultyAdjustmentInterval)%nat.
Proof. exact (blockTimes_window ledgerMined ledgerMined_reachable). Defined.

Lemma difficulty_positive_witness : (1 <= Blockchain.difficulty ledgerMined)%nat.
Proof. exact (difficulty_positive ledgerMined ledgerMined_reachable). Defined.

Lemma minedBlock_run :
  Blockchain.mineBlock 50 (now0 + 1) true "miner" ledger0
  = Blockchain.Returned (Some minedBlock) ledgerMined.
Proof. vm_compute. reflexivity. Qed.

Lemma mineBlock_pays_miner_witness :
  Blockchain.chain ledgerMined = Blockchain.chain ledger0 ++ [minedBlock]
  /\ BlockHeader.height (Block.header minedBlock) = Z.of_nat (length (Blockchain.chain ledger0))
  /\ head (Block.transactions minedBlock)
     = Some (Transaction.createCoinbase (now0 + 1) "miner"
               (Block.getBlockReward (BlockHeader.height (Block.header minedBlock))
                + Block.getTotalFees minedBlock)
               (BlockHeader.height (Block.header minedBlock)))
  /\ List.filter Transaction.isCoinbase (tail (Block.transactions minedBlock)) = [].
Proof.
  exact (mineBlock_pays_miner 50 (now0 + 1) true "miner" ledger0 ledgerMined minedBlock
           ledger0_reachable minedBlock_run).
Defined.

Lemma unsaved_run :
  Blockchain.mineBlock 50 (now0 + 1) false "miner" ledger0
  = Blockchain.Returned None ledgerUnsaved.
Proof. vm_compute. reflexivity. Qed.

Lemma mineBlock_null_frame_witness :
  Blockchain.chain ledgerUnsaved = Blockchain.chain ledger0
  /\ Blockchain.utxoSet ledgerUnsaved = Blockchain.utxoSet ledger0
  /\ Blockchain.addressBalances ledgerUnsaved = Blockchain.addressBalances ledger0
  /\ Blockchain.blockTimes ledgerUnsaved = Blockchain.blockTimes ledger0
  /\ map Transaction.id (Blockchain.memPool ledgerUnsaved)
     = map Transaction.id (Blockchain.memPool ledger0).
Proof.
  exact (mineBlock_null_frame 50 (now0 + 1) false "miner" ledger0 ledgerUnsaved unsaved_run).
Defined.



Lemma importChain_unchecked_witness :
  Block.isValid None strayBlock = true
  /\ Block.isValid (Some genesis0) strayBlock = false
  /\ fst (Blockchain.importChain [strayBlock] 0 0 ledgerMined) = true
  /\ Blockchain.chain (snd (Blockchain.importChain [strayBlock] 0 0 ledgerMined)) = [strayBlock].
Proof.
  split; [vm_compute; reflexivity |]. split; [vm_compute; reflexivity |].
  apply (importChain_unchecked [strayBlock] 0 0 ledgerMined). cbn. lia.
Defined.



End ConcreteRuns.
